(** * AdsLib/AmsConnection.cpp: the AMS connection multiplexer

    A shallow embedding of [AmsConnection] (response slots, invoke-id
    generator, dispatcher list, the [Write] path and the reader loop [Recv])
    and the properties of it that the specification states.

    Conventions.
    - Unsigned machine integers ([uint16_t], [uint32_t]) are [Z] with the
      wrap-around written out; sizes ([size_t] byte counts) are [nat].
    - A byte on the wire is a [Byte.byte]; headers are the packed byte arrays
      the code reads them into, with little-endian accessors.
    - A pointer into [queue] ([AmsResponse*]) is the index of the slot;
      [nullptr] is [None].  A [shared_ptr<NotificationDispatcher>] is an
      address in a store of dispatchers.
    - A C++ exception, an out-of-bounds access and an exhausted loop budget
      are the three ways a call does not return a value ([outcome]). *)

From Stdlib Require Import ZArith List Lia Strings.Byte.
From stdpp Require Import base decidable countable gmap list.

Open Scope Z_scope.

(** ** Bytes and little-endian integers *)

#[global] Instance byte_eq_dec : EqDecision byte := Byte.byte_eq_dec.

#[global] Instance byte_countable : Countable byte :=
  inj_countable Byte.to_N Byte.of_N Byte.of_to_N.

Definition byte_to_Z (b : byte) : Z := Z.of_N (Byte.to_N b).

Definition byte_of_Z (z : Z) : byte :=
  match Byte.of_N (Z.to_N (z mod 256)) with
  | Some b => b
  | None => x00
  end.

(** [qFromLittleEndian]: the first byte is the least significant one. *)
Fixpoint le_decode (bs : list byte) : Z :=
  match bs with
  | [] => 0
  | b :: bs' => byte_to_Z b + 256 * le_decode bs'
  end.

(** [qToLittleEndian] on an [n]-byte integer. *)
Fixpoint le_encode (n : nat) (v : Z) : list byte :=
  match n with
  | O => []
  | S n' => byte_of_Z v :: le_encode n' (v / 256)
  end.

(** The bytes [off .. off+len) of a packed struct. *)
Definition field (off len : nat) (bs : list byte) : list byte :=
  take len (drop off bs).

(** Overwrite [l] from offset [off] on with [bs] (a [memcpy] or a socket
    read into [l + off]); the caller keeps [off + length bs] within [l]. *)
Definition write_at {A} (off : nat) (bs : list A) (l : list A) : list A :=
  take off l ++ bs ++ drop (off + length bs) l.

(** ** Outcomes of a call *)

Inductive error :=
| SocketError        (* std::runtime_error out of Socket::read *)
| BufferTooSmall.    (* Frame::prepend without room *)

Inductive outcome (A : Type) :=
| Done (a : A)          (* the call returns *)
| Thrown (e : error)    (* a C++ exception leaves the call *)
| Undefined             (* access outside the bounds of an array *)
| OutOfFuel.            (* the loop budget of the embedding ran out *)

Arguments Done {A} a.
Arguments Thrown {A} e.
Arguments Undefined {A}.
Arguments OutOfFuel {A}.

#[global] Instance outcome_ret : MRet outcome := fun A a => Done a.

#[global] Instance outcome_bind : MBind outcome := fun A B k m =>
  match m with
  | Done a => k a
  | Thrown e => Thrown e
  | Undefined => Undefined
  | OutOfFuel => OutOfFuel
  end.

(** ** Frame *)

(** Modelled from the spec: Frame (AdsLib/Frame.h is not among the sources).
    An owned buffer of capacity C with a window [start, end):
    - a fresh frame is empty with its window at the end of the storage, so
      that headers can be prepended;
    - [prepend] writes at [start - sizeof] and moves [start] left, and fails
      when [start < sizeof];
    - [clear] sets [end := start]; [reset] returns to the fresh state;
    - [rawData] is the base of the storage and [limit n], used after a read
      into [rawData], makes the window the first [n] bytes of the storage
      ([end := start + n] with [start] at the base, the only reading that
      keeps [end <= C] for a frame whose window was at the end). *)
Record Frame := mkFrame {
  storage : list byte;
  fstart : nat;
  fend : nat
}.

Definition Frame_new (C : nat) : Frame := mkFrame (replicate C x00) C C.

Definition Frame_capacity (f : Frame) : nat := length (storage f).

Definition Frame_size (f : Frame) : nat := (fend f - fstart f)%nat.

(** The bytes of the window, [data() .. data() + size()). *)
Definition Frame_data (f : Frame) : list byte :=
  take (Frame_size f) (drop (fstart f) (storage f)).

Definition Frame_clear (f : Frame) : Frame :=
  mkFrame (storage f) (fstart f) (fstart f).

Definition Frame_reset (f : Frame) : Frame :=
  mkFrame (storage f) (Frame_capacity f) (Frame_capacity f).

Definition Frame_limit (n : nat) (f : Frame) : Frame :=
  mkFrame (storage f) 0 n.

Definition Frame_prepend (bs : list byte) (f : Frame) : outcome Frame :=
  if decide (length bs <= fstart f)%nat
  then Done (mkFrame (write_at (fstart f - length bs) bs (storage f))
                     (fstart f - length bs) (fend f))
  else Thrown BufferTooSmall.

(** The effect on the frame of [Receive(frame.rawData(), length bs)]. *)
Definition Frame_fill (bs : list byte) (f : Frame) : Frame :=
  mkFrame (write_at 0 bs (storage f)) (fstart f) (fend f).

Definition Frame_wf (f : Frame) : Prop :=
  (fstart f <= fend f <= Frame_capacity f)%nat.

(** ** Socket *)

(** Modelled from the spec: Socket (AdsLib/Sockets.h is not among the
    sources).  [rx] holds what the peer will still deliver, in the pieces in
    which the blocking [read] will hand it out; an empty piece, or no piece,
    is the end of the stream, at which [read] throws.  [write] accepts at
    most [txroom] more bytes and returns how many it took; [tx] records
    them. *)
Record Socket := mkSocket {
  rx : list (list byte);
  tx : list byte;
  txroom : nat
}.

(** [socket.read(pos, max)]: at most [max] bytes of the next piece. *)
Definition socket_read (max : nat) (s : list (list byte))
  : option (list byte * list (list byte)) :=
  match s with
  | [] => None
  | [] :: _ => None
  | seg :: rest =>
      if decide (length seg <= max)%nat then Some (seg, rest)
      else Some (take max seg, drop max seg :: rest)
  end.

(** [socket.write(frame)]: the number of bytes written and the socket. *)
Definition socket_write (bs : list byte) (s : Socket) : nat * Socket :=
  let n := Nat.min (length bs) (txroom s) in
  (n, mkSocket (rx s) (tx s ++ take n bs) (txroom s - n)).

(** [AmsConnection::Receive]: read until [bytesToRead] bytes are in the
    buffer.  Every [read] either takes a whole piece or ends the loop, so the
    recursion is on the pieces. *)
Fixpoint Receive (bytesToRead : nat) (s : list (list byte))
  : option (list byte * list (list byte)) :=
  match bytesToRead with
  | O => Some ([], s)
  | _ =>
    match s with
    | [] => None
    | [] :: _ => None
    | seg :: rest =>
        if decide (length seg <= bytesToRead)%nat then
          match Receive (bytesToRead - length seg) rest with
          | Some (bs, s') => Some (seg ++ bs, s')
          | None => None
          end
        else Some (take bytesToRead seg, drop bytesToRead seg :: rest)
    end
  end.

(** [AmsConnection::ReceiveJunk]: drop [bytesToRead] bytes through a 1024
    byte buffer. *)
Fixpoint ReceiveJunk_loop (fuel bytesToRead : nat) (s : list (list byte))
  : outcome (list (list byte)) :=
  if decide (1024 < bytesToRead)%nat then
    match fuel with
    | O => OutOfFuel
    | S fuel' =>
        match Receive 1024 s with
        | None => Thrown SocketError
        | Some (_, s') => ReceiveJunk_loop fuel' (bytesToRead - 1024) s'
        end
    end
  else
    match Receive bytesToRead s with
    | None => Thrown SocketError
    | Some (_, s') => Done s'
    end.

Definition ReceiveJunk (bytesToRead : nat) (s : list (list byte))
  : outcome (list (list byte)) :=
  ReceiveJunk_loop bytesToRead bytesToRead s.

(** ** RingBuffer *)

(** Modelled from the spec: RingBuffer (AdsLib/RingBuffer.h is not among the
    sources).  A single-producer single-consumer byte ring whose only shared
    state is the two cursors, so one byte of the storage stays unused to tell
    a full ring from an empty one.  [BytesFree] is what may still be written,
    [WriteChunk] the longest writable span that does not wrap, [Write n]
    advances the write cursor. *)
Record RingBuffer := mkRing {
  rb_data : list byte;
  rb_write : nat;
  rb_read : nat
}.

Definition dataSize (r : RingBuffer) : nat := length (rb_data r).

Definition RingBuffer_new (n : nat) : RingBuffer :=
  mkRing (replicate (S n) x00) 0 0.

Definition BytesFree (r : RingBuffer) : nat :=
  if decide (rb_write r < rb_read r)%nat
  then (rb_read r - rb_write r - 1)%nat
  else (dataSize r - 1 - (rb_write r - rb_read r))%nat.

Definition WriteChunk (r : RingBuffer) : nat :=
  Nat.min (BytesFree r) (dataSize r - rb_write r).

Definition RingBuffer_Write (n : nat) (r : RingBuffer) : RingBuffer :=
  mkRing (rb_data r) ((rb_write r + n) mod dataSize r) (rb_read r).

(** The effect on the ring of [Receive(ring.write, length bs)]. *)
Definition RingBuffer_fill (bs : list byte) (r : RingBuffer) : RingBuffer :=
  mkRing (write_at (rb_write r) bs (rb_data r)) (rb_write r) (rb_read r).

(** The bytes a consumer will read: from the read cursor up to the write
    cursor, around the end of the storage. *)
Definition RingBuffer_contents (r : RingBuffer) : list byte :=
  if decide (rb_read r <= rb_write r)%nat
  then take (rb_write r - rb_read r) (drop (rb_read r) (rb_data r))
  else drop (rb_read r) (rb_data r) ++ take (rb_write r) (rb_data r).

Definition RingBuffer_wf (r : RingBuffer) : Prop :=
  (rb_write r < dataSize r)%nat /\ (rb_read r < dataSize r)%nat.

(** ** Headers *)

(** Modelled from the spec: AmsTcpHeader and AoEHeader (AdsLib/AmsHeader.h is
    not among the sources).  Both are packed little-endian structs:
    AmsTcpHeader, 6 bytes: reserved u16, length u32;
    AoEHeader, 32 bytes: targetNetId 6, targetPort u16, sourceNetId 6,
    sourcePort u16, cmdId u16, stateFlags u16, length u32, errorCode u32,
    invokeId u32. *)
Definition sizeof_AmsTcpHeader : nat := 6.
Definition sizeof_AoEHeader : nat := 32.

Definition READ_DEVICE_INFO : Z := 1.
Definition READ : Z := 2.
Definition WRITE : Z := 3.
Definition READ_STATE : Z := 4.
Definition WRITE_CONTROL : Z := 5.
Definition ADD_DEVICE_NOTIFICATION : Z := 6.
Definition DEL_DEVICE_NOTIFICATION : Z := 7.
Definition DEVICE_NOTIFICATION : Z := 8.
Definition READ_WRITE : Z := 9.

(** An AMS address: the 6 bytes of the net id and the port. *)
Abbreviation AmsAddr := (list byte * Z)%type.
(** [VirtualConnection]: the local port and the remote address. *)
Abbreviation VirtualConnection := (Z * (list byte * Z))%type.

Definition AmsTcpHeader_length (h : list byte) : Z := le_decode (field 2 4 h).

Definition AoE_targetPort (h : list byte) : Z := le_decode (field 6 2 h).
Definition AoE_sourceAms (h : list byte) : AmsAddr :=
  (field 8 6 h, le_decode (field 14 2 h)).
Definition AoE_cmdId (h : list byte) : Z := le_decode (field 16 2 h).
Definition AoE_length (h : list byte) : Z := le_decode (field 20 4 h).
Definition AoE_invokeId (h : list byte) : Z := le_decode (field 28 4 h).

Definition AmsTcpHeader_make (len : Z) : list byte :=
  le_encode 2 0 ++ le_encode 4 len.

Definition AoEHeader_make (destAddr srcAddr : AmsAddr) (cmdId stateFlags len id : Z)
  : list byte :=
  resize 6 x00 (fst destAddr) ++ le_encode 2 (snd destAddr) ++
  resize 6 x00 (fst srcAddr) ++ le_encode 2 (snd srcAddr) ++
  le_encode 2 cmdId ++ le_encode 2 stateFlags ++
  le_encode 4 len ++ le_encode 4 0 ++ le_encode 4 id.

(** The [case] labels of the [switch] in [Recv]. *)
Definition accepted_reply (cmdId : Z) : bool :=
  match cmdId with
  | 1 | 2 | 3 | 4 | 5 | 6 | 7 | 9 => true
  | _ => false
  end.

(** The eight opcodes a reply may carry. *)
Definition reply_opcodes : list Z :=
  [READ_DEVICE_INFO; READ; WRITE; READ_STATE; WRITE_CONTROL;
   ADD_DEVICE_NOTIFICATION; DEL_DEVICE_NOTIFICATION; READ_WRITE].

(** ** AmsResponse: a response slot *)

(** [wakeups] counts the calls of [cv.notify_all]. *)
Record AmsResponse := mkAmsResponse {
  frame : Frame;
  invokeId : Z;
  wakeups : nat
}.

Definition AmsResponse_new : AmsResponse := mkAmsResponse (Frame_new 4096) 0 0.

Definition Notify (r : AmsResponse) : AmsResponse :=
  mkAmsResponse (frame r) 0 (S (wakeups r)).

(** [Wait]: [cv.wait_for] with the predicate [!invokeId] returns the value of
    the predicate when it wakes up for the last time, be it by a notification
    or by the timeout; this is that value in the state the slot is in. *)
Definition Wait (r : AmsResponse) : bool := bool_decide (invokeId r = 0).

Definition set_frame (f : Frame) (r : AmsResponse) : AmsResponse :=
  mkAmsResponse f (invokeId r) (wakeups r).

Definition set_invokeId (id : Z) (r : AmsResponse) : AmsResponse :=
  mkAmsResponse (frame r) id (wakeups r).

(** The body of [AmsConnection::Release] on the slot it is given. *)
Definition Release_slot (r : AmsResponse) : AmsResponse :=
  set_invokeId 0 (set_frame (Frame_reset (frame r)) r).

(** ** NotificationDispatcher and the dispatcher list *)

(** Modelled from the spec: NotificationDispatcher
    (AdsLib/NotificationDispatcher.h is not among the sources): the remote
    address and local port it serves, its ring, the subscriptions by
    [hNotify], and [Notify], which wakes the worker ([dwakeups] counts the
    calls). *)
Record Subscription := mkSubscription {
  callback : Z;
  hUser : Z;
  sub_length : Z
}.

Record NotificationDispatcher := mkDispatcher {
  remoteAddr : AmsAddr;
  localPort : Z;
  ring : RingBuffer;
  subscriptions : gmap Z Subscription;
  dwakeups : nat
}.

Definition Dispatcher_Notify (d : NotificationDispatcher) : NotificationDispatcher :=
  mkDispatcher (remoteAddr d) (localPort d) (ring d) (subscriptions d) (S (dwakeups d)).

Definition Emplace (pFunc hUser len hNotify : Z) (d : NotificationDispatcher)
  : NotificationDispatcher :=
  mkDispatcher (remoteAddr d) (localPort d) (ring d)
    (<[hNotify := mkSubscription pFunc hUser len]> (subscriptions d)) (dwakeups d).

Definition set_ring (r : RingBuffer) (d : NotificationDispatcher) : NotificationDispatcher :=
  mkDispatcher (remoteAddr d) (localPort d) r (subscriptions d) (dwakeups d).

(** The objects behind the [shared_ptr]s: [make_shared] takes the next
    address, and a pointer nobody holds any more frees its object. *)
Record Store := mkStore {
  objects : gmap nat NotificationDispatcher;
  brk : nat
}.

Definition make_shared (d : NotificationDispatcher) (st : Store) : nat * Store :=
  (brk st, mkStore (<[brk st := d]> (objects st)) (S (brk st))).

Definition destroy (p : nat) (st : Store) : Store :=
  mkStore (delete p (objects st)) (brk st).

(** What is done to the map of the dispatcher list, and how often the
    recursive mutex was held by the thread doing it. *)
Inductive Access :=
| Find (k : VirtualConnection)
| EmplaceAt (k : VirtualConnection).

Record DispatcherList := mkDispatcherList {
  dl_list : gmap VirtualConnection nat;
  dl_mutex : nat;
  dl_trace : list (Access * nat)
}.

Definition lock (dl : DispatcherList) : DispatcherList :=
  mkDispatcherList (dl_list dl) (S (dl_mutex dl)) (dl_trace dl).

Definition unlock (dl : DispatcherList) : DispatcherList :=
  mkDispatcherList (dl_list dl) (pred (dl_mutex dl)) (dl_trace dl).

Definition access (a : Access) (dl : DispatcherList) : DispatcherList :=
  mkDispatcherList (dl_list dl) (dl_mutex dl) (dl_trace dl ++ [(a, dl_mutex dl)]).

Definition set_list (m : gmap VirtualConnection nat) (dl : DispatcherList) : DispatcherList :=
  mkDispatcherList m (dl_mutex dl) (dl_trace dl).

(** [DispatcherList::Get]: the lookup, under the lock guard. *)
Definition DispatcherList_Get (connection : VirtualConnection) (dl : DispatcherList)
  : option nat * DispatcherList :=
  let dl1 := lock dl in
  let it := dl_list dl1 !! connection in
  let dl2 := access (Find connection) dl1 in
  (it, unlock dl2).

(** [list.emplace(connection, make_shared<...>(...)).first->second]: the
    dispatcher is built first; [emplace] keeps an entry that is there and
    the new dispatcher is dropped again. *)
Definition emplace (connection : VirtualConnection) (d : NotificationDispatcher)
    (dl : DispatcherList) (st : Store) : nat * DispatcherList * Store :=
  let '(p, st1) := make_shared d st in
  let dl1 := access (EmplaceAt connection) dl in
  match dl_list dl1 !! connection with
  | Some q => (q, dl1, destroy p st1)
  | None => (p, set_list (<[connection := p]> (dl_list dl1)) dl1, st1)
  end.

(** ** AmsConnection *)

(** Constants of headers that are not among the sources, taken as
    parameters: [Router::PORT_BASE] and [Router::NUM_PORTS_MAX] (the slot
    table is [std::array<AmsResponse, NUM_PORTS_MAX>]), the size of a
    dispatcher's ring, and the state flags [AoEHeader] gives a request. *)
Class Config := {
  PORT_BASE : Z;
  NUM_PORTS_MAX : nat;
  RING_SIZE : nat;
  AMS_REQUEST : Z
}.

Inductive LogMsg :=
| FrameTooShort                           (* "Frame to short to be AoE" *)
| FrameTooLong (bytesLeft cap : nat)      (* "Frame to long: " *)
| InvokeIdMismatch (currentId id : Z)     (* "InvokeId missmatch: waiting for " *)
| NoResponsePending                       (* "No response pending" *)
| PortInUse (port isFree : Z)             (* "Port: ... already in use as " *)
| NoDispatcher                            (* "No dispatcher found for notification" *)
| RingFull (port : Z)                     (* "port ... receive buffer was full" *)
| UnknownCommand.                         (* "Unkown AMS command id" *)

(** [conn_invokeId] is the member [invokeId], the generator of invoke ids. *)
Record AmsConnection := mkConn {
  socket : Socket;
  conn_invokeId : Z;
  queue : list AmsResponse;
  dispatcherList : DispatcherList;
  store : Store;
  log : list LogMsg
}.

Definition set_rx (s : list (list byte)) (c : AmsConnection) : AmsConnection :=
  mkConn (mkSocket s (tx (socket c)) (txroom (socket c)))
         (conn_invokeId c) (queue c) (dispatcherList c) (store c) (log c).

Definition set_socket (s : Socket) (c : AmsConnection) : AmsConnection :=
  mkConn s (conn_invokeId c) (queue c) (dispatcherList c) (store c) (log c).

Definition set_conn_invokeId (n : Z) (c : AmsConnection) : AmsConnection :=
  mkConn (socket c) n (queue c) (dispatcherList c) (store c) (log c).

Definition set_queue (q : list AmsResponse) (c : AmsConnection) : AmsConnection :=
  mkConn (socket c) (conn_invokeId c) q (dispatcherList c) (store c) (log c).

Definition set_dispatchers (dl : DispatcherList) (st : Store) (c : AmsConnection)
  : AmsConnection :=
  mkConn (socket c) (conn_invokeId c) (queue c) dl st (log c).

Definition LOG_WARN (m : LogMsg) (c : AmsConnection) : AmsConnection :=
  mkConn (socket c) (conn_invokeId c) (queue c) (dispatcherList c) (store c)
         (log c ++ [m]).

(** [DispatcherList::Add]: [Get], and when that finds nothing, [emplace]
    under a second lock guard. *)
Definition DispatcherList_Add `{Config} (connection : VirtualConnection)
    (dl : DispatcherList) (st : Store) : nat * DispatcherList * Store :=
  let '(dispatcher, dl1) := DispatcherList_Get connection dl in
  match dispatcher with
  | Some p => (p, dl1, st)
  | None =>
      let dl2 := lock dl1 in
      let '(p, dl3, st1) :=
        emplace connection
          (mkDispatcher (snd connection) (fst connection)
             (RingBuffer_new RING_SIZE) ∅ 0) dl2 st in
      (p, unlock dl3, st1)
  end.

(** [AmsConnection::CreateNotifyMapping]: the [NotificationId] is the pair of
    [hNotify] and the dispatcher. *)
Definition CreateNotifyMapping `{Config} (port : Z) (addr : AmsAddr)
    (pFunc hUser len hNotify : Z) (c : AmsConnection)
  : outcome ((Z * nat) * AmsConnection) :=
  let '(dispatcher, dl, st) :=
    DispatcherList_Add (port, addr) (dispatcherList c) (store c) in
  match objects st !! dispatcher with
  | None => Undefined
  | Some d =>
      let st' := mkStore (<[dispatcher := Emplace pFunc hUser len hNotify d]> (objects st))
                         (brk st) in
      Done ((hNotify, dispatcher), set_dispatchers dl st' c)
  end.

(** [invokeId.fetch_add(1)] on the 32-bit counter. *)
Definition fetch_add (c : AmsConnection) : Z * AmsConnection :=
  (conn_invokeId c, set_conn_invokeId ((conn_invokeId c + 1) mod 2 ^ 32) c).

(** [AmsConnection::GetInvokeId]: the [do ... while (!result)] loop. *)
Fixpoint GetInvokeId_loop (fuel : nat) (c : AmsConnection)
  : outcome (Z * AmsConnection) :=
  match fuel with
  | O => OutOfFuel
  | S fuel' =>
      let '(result, c1) := fetch_add c in
      if decide (result = 0) then GetInvokeId_loop fuel' c1
      else Done (result, c1)
  end.

(** The fetch after one that returned 0 returns 1: two turns are enough
    (see [GetInvokeId_loop_fuel]). *)
Definition GetInvokeId (c : AmsConnection) : outcome (Z * AmsConnection) :=
  GetInvokeId_loop 2 c.

(** [queue[port - Router::PORT_BASE]]: the subtraction is done in [int], and
    the slot exists when the difference is an index of the array. *)
Definition slot_index `{Config} (port : Z) : option nat :=
  let i := port - PORT_BASE in
  if decide (0 <= i) then Some (Z.to_nat i) else None.

Definition queue_at `{Config} (q : list AmsResponse) (port : Z)
  : option (nat * AmsResponse) :=
  match slot_index port with
  | None => None
  | Some i =>
      match q !! i with
      | None => None
      | Some r => Some (i, r)
      end
  end.

(** [AmsConnection::GetPending]. *)
Definition GetPending `{Config} (id : Z) (port : Z) (c : AmsConnection)
  : outcome (option nat * AmsConnection) :=
  match queue_at (queue c) port with
  | None => Undefined
  | Some (i, r) =>
      let currentId := invokeId r in
      if decide (currentId = id) then Done (Some i, c)
      else Done (None, LOG_WARN (InvokeIdMismatch currentId id) c)
  end.

(** [AmsConnection::Reserve].  [compare_exchange_weak] stores [id] when the
    slot holds [isFree = 0], and is allowed to fail though it does
    ([spurious]); when it fails it leaves the slot as it is. *)
Definition Reserve `{Config} (id : Z) (port : Z) (spurious : bool) (c : AmsConnection)
  : outcome (option nat * AmsConnection) :=
  match queue_at (queue c) port with
  | None => Undefined
  | Some (i, r) =>
      if decide (invokeId r = 0 /\ spurious = false)
      then Done (Some i, set_queue (<[i := set_invokeId id r]> (queue c)) c)
      else Done (None, LOG_WARN (PortInUse port (invokeId r)) c)
  end.

(** [AmsConnection::Release]. *)
Definition Release (response : nat) (c : AmsConnection) : AmsConnection :=
  set_queue (alter Release_slot response (queue c)) c.

(** [AmsConnection::Write].  The result is the slot, the request frame as
    the call leaves it, and the connection. *)
Definition Write `{Config} (request : Frame) (destAddr srcAddr : AmsAddr) (cmdId : Z)
    (spurious : bool) (c : AmsConnection)
  : outcome (option nat * Frame * AmsConnection) :=
  '(id, c1) ← GetInvokeId c;
  let aoeHeader :=
    AoEHeader_make destAddr srcAddr cmdId AMS_REQUEST
                   (Z.of_nat (Frame_size request) mod 2 ^ 32) id in
  request1 ← Frame_prepend aoeHeader request;
  let header := AmsTcpHeader_make (Z.of_nat (Frame_size request1) mod 2 ^ 32) in
  request2 ← Frame_prepend header request1;
  '(response, c2) ← Reserve (AoE_invokeId aoeHeader) (snd srcAddr) spurious c1;
  match response with
  | None => Done (None, request2, c2)
  | Some i =>
      let '(written, s) := socket_write (Frame_data request2) (socket c2) in
      let c3 := set_socket s c2 in
      if decide (Frame_size request2 <> written)
      then Done (None, request2, Release i c3)
      else Done (Some i, request2, c3)
  end.

(** [AmsConnection::ReceiveFrame] on the frame of a slot. *)
Definition ReceiveFrame (f : Frame) (bytesLeft : nat) (c : AmsConnection)
  : outcome (Frame * AmsConnection) :=
  if decide (Frame_capacity f < bytesLeft)%nat then
    let c1 := LOG_WARN (FrameTooLong bytesLeft (Frame_capacity f)) c in
    s ← ReceiveJunk bytesLeft (rx (socket c1));
    Done (Frame_clear f, set_rx s c1)
  else
    match Receive bytesLeft (rx (socket c)) with
    | None => Thrown SocketError
    | Some (bs, s) => Done (Frame_limit bytesLeft (Frame_fill bs f), set_rx s c)
    end.

(** The [while (bytesLeft > chunk)] loop of [ReceiveNotification] and the
    two statements after it. *)
Fixpoint ring_receive (fuel bytesLeft : nat) (r : RingBuffer) (s : list (list byte))
  : outcome (RingBuffer * list (list byte)) :=
  let chunk := WriteChunk r in
  if decide (chunk < bytesLeft)%nat then
    match fuel with
    | O => OutOfFuel
    | S fuel' =>
        match Receive chunk s with
        | None => Thrown SocketError
        | Some (bs, s') =>
            ring_receive fuel' (bytesLeft - chunk)
              (RingBuffer_Write chunk (RingBuffer_fill bs r)) s'
        end
    end
  else
    match Receive bytesLeft s with
    | None => Thrown SocketError
    | Some (bs, s') => Done (RingBuffer_Write bytesLeft (RingBuffer_fill bs r), s')
    end.

(** [AmsConnection::ReceiveNotification]. *)
Definition ReceiveNotification (header : list byte) (c : AmsConnection)
  : outcome (bool * AmsConnection) :=
  let '(dispatcher, dl) :=
    DispatcherList_Get (AoE_targetPort header, AoE_sourceAms header) (dispatcherList c) in
  let c0 := set_dispatchers dl (store c) c in
  match dispatcher with
  | None =>
      s ← ReceiveJunk (Z.to_nat (AoE_length header)) (rx (socket c0));
      Done (false, LOG_WARN NoDispatcher (set_rx s c0))
  | Some p =>
      match objects (store c0) !! p with
      | None => Undefined
      | Some d =>
          let bytesLeft := Z.to_nat (AoE_length header) in
          if decide (BytesFree (ring d) < bytesLeft)%nat then
            s ← ReceiveJunk bytesLeft (rx (socket c0));
            Done (false, LOG_WARN (RingFull (AoE_targetPort header)) (set_rx s c0))
          else
            '(r, s) ← ring_receive bytesLeft bytesLeft (ring d) (rx (socket c0));
            let d' := Dispatcher_Notify (set_ring r d) in
            Done (true,
                  set_dispatchers dl
                    (mkStore (<[p := d']> (objects (store c0))) (brk (store c0)))
                    (set_rx s c0))
      end
  end.

(** The body of the [for ( ; ; )] loop of [AmsConnection::Recv]. *)
Definition Recv_body `{Config} (c : AmsConnection) : outcome AmsConnection :=
  match Receive sizeof_AmsTcpHeader (rx (socket c)) with
  | None => Thrown SocketError
  | Some (amsTcpHeader, s1) =>
    let c1 := set_rx s1 c in
    if decide (AmsTcpHeader_length amsTcpHeader < Z.of_nat sizeof_AoEHeader) then
      let c2 := LOG_WARN FrameTooShort c1 in
      s ← ReceiveJunk (Z.to_nat (AmsTcpHeader_length amsTcpHeader)) (rx (socket c2));
      Done (set_rx s c2)
    else
      match Receive sizeof_AoEHeader (rx (socket c1)) with
      | None => Thrown SocketError
      | Some (aoeHeader, s2) =>
        let c2 := set_rx s2 c1 in
        if decide (AoE_cmdId aoeHeader = DEVICE_NOTIFICATION) then
          '(_, c3) ← ReceiveNotification aoeHeader c2;
          Done c3
        else
          '(response, c3) ← GetPending (AoE_invokeId aoeHeader) (AoE_targetPort aoeHeader) c2;
          match response with
          | None =>
              let c4 := LOG_WARN NoResponsePending c3 in
              s ← ReceiveJunk (Z.to_nat (AoE_length aoeHeader)) (rx (socket c4));
              Done (set_rx s c4)
          | Some i =>
              match queue c3 !! i with
              | None => Undefined
              | Some r =>
                  '(f, c4) ← ReceiveFrame (frame r) (Z.to_nat (AoE_length aoeHeader)) c3;
                  let '(f', c5) :=
                    if accepted_reply (AoE_cmdId aoeHeader) then (f, c4)
                    else (Frame_clear f, LOG_WARN UnknownCommand c4) in
                  Done (set_queue (<[i := Notify (set_frame f' r)]> (queue c5)) c5)
              end
          end
      end
  end.

(** [AmsConnection::Recv]: the loop is left by an exception only. *)
Fixpoint Recv `{Config} (fuel : nat) (c : AmsConnection) : outcome Empty_set :=
  match fuel with
  | O => OutOfFuel
  | S fuel' => c' ← Recv_body c; Recv fuel' c'
  end.

(** The connection as the constructor leaves it, on a socket. *)
Definition AmsConnection_new `{Config} (s : Socket) : AmsConnection :=
  mkConn s 0 (replicate NUM_PORTS_MAX AmsResponse_new)
         (mkDispatcherList ∅ 0 []) (mkStore ∅ 0) [].

(** ** Predicates of the statements *)

(** The socket hands out the bytes [bs] next, however they are cut into
    pieces, and is left as [s']. *)
Definition delivers (s : list (list byte)) (bs : list byte) (s' : list (list byte)) : Prop :=
  Receive (length bs) s = Some (bs, s').

(** The next thing on the socket of [c] is a frame whose AmsTcpHeader is
    [tcp], whose AoEHeader is [aoe] and whose payload, of the length the
    AoEHeader advertises, is [payload]. *)
Definition frame_arrives (c : AmsConnection) (tcp aoe payload : list byte)
    (s' : list (list byte)) : Prop :=
  length tcp = sizeof_AmsTcpHeader /\
  length aoe = sizeof_AoEHeader /\
  Z.of_nat sizeof_AoEHeader <= AmsTcpHeader_length tcp /\
  AoE_length aoe = Z.of_nat (length payload) /\
  delivers (rx (socket c)) (tcp ++ aoe ++ payload) s'.

(** What may happen to the invoke id of a slot: nothing, a reservation of
    the free slot, or a return to free. *)
Definition slot_step (r r' : AmsResponse) : Prop :=
  invokeId r' = invokeId r \/
  (invokeId r = 0 /\ invokeId r' <> 0) \/
  invokeId r' = 0.

(** The 32-bit range of the members that are [uint32_t]. *)
Definition uint32 (z : Z) : Prop := 0 <= z < 2 ^ 32.

(** Every dispatcher the list names is in the store, below the next
    address [make_shared] will hand out. *)
Definition dispatchers_wf (dl : DispatcherList) (st : Store) : Prop :=
  forall k p, dl_list dl !! k = Some p ->
    (p < brk st)%nat /\ is_Some (objects st !! p).

(** One completed call on the connection, by a caller or by the reader. *)
Inductive step `{Config} : AmsConnection -> AmsConnection -> Prop :=
| step_CreateNotifyMapping port addr pFunc hUser len hNotify c id c' :
    CreateNotifyMapping port addr pFunc hUser len hNotify c = Done (id, c') ->
    step c c'
| step_Write request destAddr srcAddr cmdId spurious c response request' c' :
    Write request destAddr srcAddr cmdId spurious c = Done (response, request', c') ->
    step c c'
| step_Recv c c' :
    Recv_body c = Done c' ->
    step c c'.

(** The invariant of the connection: the invoke-id counter is a 32-bit
    value, the slot table has its [NUM_PORTS_MAX] slots, the dispatcher list
    names dispatchers that exist, and the cursors of every ring are inside
    its storage. *)
Definition connection_wf `{Config} (c : AmsConnection) : Prop :=
  uint32 (conn_invokeId c) /\
  length (queue c) = NUM_PORTS_MAX /\
  dispatchers_wf (dispatcherList c) (store c) /\
  (forall p d, objects (store c) !! p = Some d -> RingBuffer_wf (ring d)).

(** ** TryRecv, DeleteNotification and runs of calls *)

(** [AmsConnection::TryRecv]: [Recv], with the [std::runtime_error] that
    ends it caught; the result is the exception whose message is logged. *)
Definition TryRecv `{Config} (fuel : nat) (c : AmsConnection) : outcome error :=
  match Recv fuel c with
  | Done x => match x with end
  | Thrown SocketError => Done SocketError
  | Thrown e => Thrown e
  | Undefined => Undefined
  | OutOfFuel => OutOfFuel
  end.

(** The request frame of [AmsConnection::DeleteNotification]: room for both
    headers and the handle, and the handle prepended in little-endian
    order. *)
Definition DeleteNotification_request (hNotify : Z) : outcome Frame :=
  Frame_prepend (le_encode 4 hNotify)
    (Frame_new (sizeof_AmsTcpHeader + sizeof_AoEHeader + 4)).

(** [k] calls of [GetInvokeId] in a row. *)
Fixpoint GetInvokeIds (k : nat) (c : AmsConnection) : outcome (list Z * AmsConnection) :=
  match k with
  | O => Done ([], c)
  | S k' =>
      '(id, c1) ← GetInvokeId c;
      '(ids, c2) ← GetInvokeIds k' c1;
      Done (id :: ids, c2)
  end.

(** [n] turns of the loop of [Recv]. *)
Fixpoint Recv_turns `{Config} (n : nat) (c : AmsConnection) : outcome AmsConnection :=
  match n with
  | O => Done c
  | S n' => c' ← Recv_body c; Recv_turns n' c'
  end.

(** The frames, each an AmsTcpHeader, an AoEHeader and a payload of the
    advertised length, arrive on the socket one after the other. *)
Fixpoint frames_arrive (s : list (list byte))
    (frames : list (list byte * list byte * list byte)) (s' : list (list byte)) : Prop :=
  match frames with
  | [] => s' = s
  | (tcp, aoe, payload) :: rest =>
      exists s1,
        length tcp = sizeof_AmsTcpHeader /\
        length aoe = sizeof_AoEHeader /\
        Z.of_nat sizeof_AoEHeader <= AmsTcpHeader_length tcp /\
        AoE_length aoe = Z.of_nat (length payload) /\
        delivers s (tcp ++ aoe ++ payload) s1 /\
        frames_arrive s1 rest s'
  end.

(** A slot whose frame is as large as the constructor of [AmsResponse]
    made it, with its window inside the storage. *)
Definition slot_wf (r : AmsResponse) : Prop :=
  Frame_capacity (frame r) = Frame_capacity (frame AmsResponse_new) /\
  Frame_wf (frame r).

(** Every slot of the table is such a slot. *)
Definition slots_wf (c : AmsConnection) : Prop :=
  forall i r, queue c !! i = Some r -> slot_wf r.

(** Every dispatcher of the list is the one built for its key. *)
Definition dispatchers_keyed (c : AmsConnection) : Prop :=
  forall k p, dl_list (dispatcherList c) !! k = Some p ->
    exists d, objects (store c) !! p = Some d /\
              localPort d = fst k /\ remoteAddr d = snd k.

(** The pieces of a stream that has not ended are not empty. *)
Definition open_stream (s : list (list byte)) : Prop :=
  Forall (fun p => p <> []) s.

(** ** Concrete instances used to exercise the model *)

(** What a call returned, if it did. *)
Definition returned {A} (m : outcome A) : option A :=
  match m with
  | Done a => Some a
  | _ => None
  end.

Definition example_config : Config :=
  {| PORT_BASE := 30000; NUM_PORTS_MAX := 4; RING_SIZE := 8; AMS_REQUEST := 4 |}.

Definition example_remote : AmsAddr := ([x05; x01; x02; x03; x01; x01], 851).
Definition example_local (port : Z) : AmsAddr := ([xc0; xa8; x00; x01; x01; x01], port).
Definition example_payload : list byte := [x01; x00; x00; x00].

(** A frame as the peer sends it: both headers and the payload. *)
Definition example_tcp (len : Z) : list byte :=
  AmsTcpHeader_make (Z.of_nat sizeof_AoEHeader + len).

Definition example_aoe (targetPort cmdId len id : Z) : list byte :=
  AoEHeader_make (example_local targetPort) example_remote cmdId 5 len id.

Definition peer_frame (targetPort cmdId len id : Z) (payload : list byte) : list byte :=
  example_tcp len ++ example_aoe targetPort cmdId len id ++ payload.

(** The bytes handed out by two reads. *)
Definition cut (n : nat) (bs : list byte) : list (list byte) := [take n bs; drop n bs].

Definition example_new (pieces : list (list byte)) : AmsConnection :=
  AmsConnection_new (H := example_config) (mkSocket pieces [] 1024).

(** A connection after a READ_STATE request from the local port [port]; the
    request is the first of the connection and has the invoke id 1. *)
Definition example_requested (port : Z) (pieces : list (list byte)) : AmsConnection :=
  match Write (H := example_config) (Frame_new 38) example_remote (example_local port)
              READ_STATE false (example_new pieces) with
  | Done (_, _, c) => c
  | _ => example_new pieces
  end.

(** The slot of such a request while the reply is outstanding. *)
Definition example_slot : AmsResponse := set_invokeId 1 AmsResponse_new.

(** A connection with one subscription on port 30000 for the remote. *)
Definition example_subscribed (pieces : list (list byte)) : AmsConnection :=
  match CreateNotifyMapping (H := example_config) 30000 example_remote 1 2 3 66
                            (example_new pieces) with
  | Done (_, c) => c
  | _ => example_new pieces
  end.

Definition example_dispatcher : NotificationDispatcher :=
  Emplace 1 2 3 66 (mkDispatcher example_remote 30000 (RingBuffer_new 8) ∅ 0).

(** A request frame with a payload and room for both headers. *)
Definition example_request : Frame :=
  mkFrame (replicate 38 x00 ++ example_payload) 38 42.

(** The frame of the READ_STATE request of [example_requested] as [Write]
    leaves it to the caller. *)
Definition example_request_sent : Frame :=
  match Write (H := example_config) (Frame_new 38) example_remote (example_local 30000)
              READ_STATE false (example_new []) with
  | Done (_, f, _) => f
  | _ => Frame_new 38
  end.

(** Two notifications for port 30000, one after the other. *)
Definition example_notifications : list (list byte * list byte * list byte) :=
  [(example_tcp 2, example_aoe 30000 DEVICE_NOTIFICATION 2 0, [x01; x02]);
   (example_tcp 2, example_aoe 30000 DEVICE_NOTIFICATION 2 0, [x03; x04])].

(** ** The wire layer: lemmas *)

(** One turn of the loop of [Receive] is one [socket_read]. *)
Lemma Receive_unfold (n : nat) (s : list (list byte)) :
  Receive (S n) s =
  match socket_read (S n) s with
  | None => None
  | Some (bs, s') =>
      match Receive (S n - length bs) s' with
      | Some (bs', s'') => Some (bs ++ bs', s'')
      | None => None
      end
  end.
Proof.
  destruct s as [|seg rest]; [reflexivity|].
  destruct seg as [|b seg]; [reflexivity|].
  cbn [Receive socket_read].
  destruct (decide (length (b :: seg) <= S n)%nat) as [Hle|Hgt]; [reflexivity|].
  rewrite length_take.
  replace (S n - Nat.min (S n) (length (b :: seg)))%nat with O by lia.
  cbn [Receive]. by rewrite app_nil_r.
Qed.

Lemma Receive_length n s bs s' :
  Receive n s = Some (bs, s') -> length bs = n.
Proof.
  revert n bs s'. induction s as [|seg rest IH]; intros n bs s' H.
  - destruct n; simplify_eq/=; done.
  - destruct n as [|n]; [by simplify_eq/=|].
    destruct seg as [|b seg]; [done|].
    cbn [Receive] in H.
    destruct (decide _) as [Hle|Hgt].
    + destruct (Receive _ rest) as [[bs1 s1]|] eqn:E; [|done].
      simplify_eq. apply IH in E. rewrite length_app. lia.
    + simplify_eq. rewrite length_take. lia.
Qed.

(** Reading [n + m] bytes is reading [n] bytes and then [m] bytes, however
    the stream is cut into pieces. *)
Lemma Receive_app (n m : nat) (s : list (list byte)) :
  Receive (n + m) s =
  match Receive n s with
  | None => None
  | Some (b1, s1) =>
      match Receive m s1 with
      | None => None
      | Some (b2, s2) => Some (b1 ++ b2, s2)
      end
  end.
Proof.
  revert n m. induction s as [|seg rest IH]; intros n m.
  - destruct n as [|n]; cbn [Receive Nat.add]; [|reflexivity].
    destruct m; reflexivity.
  - destruct n as [|n].
    { cbn [Nat.add]. change (Receive 0 (seg :: rest)) with (Some (@nil byte, seg :: rest)).
      cbv beta iota.
      destruct (Receive m (seg :: rest)) as [[b2 s2]|]; reflexivity. }
    destruct seg as [|b seg]; [reflexivity|].
    cbn [Nat.add Receive].
    destruct (decide (length (b :: seg) <= S n)%nat) as [Hn|Hn].
    + rewrite decide_True by lia.
      replace (S (n + m) - length (b :: seg))%nat
        with ((S n - length (b :: seg)) + m)%nat by lia.
      rewrite IH.
      destruct (Receive (S n - length (b :: seg)) rest) as [[b1 s1]|]; [|reflexivity].
      destruct (Receive m s1) as [[b2 s2]|]; [|reflexivity].
      by rewrite app_assoc.
    + destruct (decide (length (b :: seg) <= S (n + m))%nat) as [Hm|Hm].
      * destruct m as [|m]; [lia|].
        assert (Hd : drop (S n) (b :: seg) <> []).
        { intros E. apply (f_equal length) in E. rewrite length_drop in E.
          cbn [length] in *. lia. }
        destruct (drop (S n) (b :: seg)) as [|d ds] eqn:Ed; [done|].
        cbn [Receive].
        assert (Hl : length (d :: ds) = (length (b :: seg) - S n)%nat)
          by (rewrite <- Ed; apply length_drop).
        rewrite decide_True by lia.
        rewrite Hl.
        replace (S (n + S m) - length (b :: seg))%nat
          with (S m - (length (b :: seg) - S n))%nat by lia.
        destruct (Receive _ rest) as [[b2 s2]|]; [|reflexivity].
        rewrite app_assoc, <- Ed, take_drop. reflexivity.
      * destruct m as [|m].
        { change (Receive 0 ?x) with (Some (@nil byte, x)). cbv beta iota.
          rewrite Nat.add_0_r, app_nil_r. reflexivity. }
        assert (Hl : length (drop (S n) (b :: seg)) = (length (b :: seg) - S n)%nat)
          by apply length_drop.
        destruct (drop (S n) (b :: seg)) as [|d ds] eqn:Ed;
          [cbn [length] in *; lia|].
        cbn [Receive].
        rewrite decide_False by lia.
        rewrite <- Ed, drop_drop.
        replace (S (n + S m)) with (S n + S m)%nat by lia.
        rewrite take_take_drop. reflexivity.
Qed.

(** Dropping junk consumes exactly what one [Receive] of the same size
    consumes, and the budget of [ReceiveJunk] is never exhausted. *)
Lemma ReceiveJunk_loop_Receive (fuel n : nat) (s : list (list byte)) :
  (n <= fuel)%nat ->
  ReceiveJunk_loop fuel n s =
  match Receive n s with
  | None => Thrown SocketError
  | Some (_, s') => Done s'
  end.
Proof.
  revert n s. induction fuel as [|fuel IH]; intros n s Hn.
  - cbn [ReceiveJunk_loop]. rewrite decide_False by lia. reflexivity.
  - cbn [ReceiveJunk_loop].
    destruct (decide (1024 < n)%nat) as [Hbig|Hsmall]; [|reflexivity].
    pose proof (Receive_app 1024 (n - 1024) s) as Happ.
    replace (1024 + (n - 1024))%nat with n in Happ by lia.
    rewrite Happ.
    destruct (Receive 1024 s) as [[b1 s1]|]; [|reflexivity].
    rewrite IH by lia.
    destruct (Receive (n - 1024) s1) as [[b2 s2]|]; reflexivity.
Qed.

Lemma ReceiveJunk_Receive (n : nat) (s : list (list byte)) :
  ReceiveJunk n s =
  match Receive n s with
  | None => Thrown SocketError
  | Some (_, s') => Done s'
  end.
Proof. apply ReceiveJunk_loop_Receive. lia. Qed.

Lemma Receive_0 (s : list (list byte)) : Receive 0 s = Some ([], s).
Proof. by destruct s. Qed.

Lemma Receive_split (b1 b2 : list byte) (s s' : list (list byte)) :
  delivers s (b1 ++ b2) s' ->
  exists s1, delivers s b1 s1 /\ delivers s1 b2 s'.
Proof.
  unfold delivers. rewrite length_app, Receive_app.
  destruct (Receive (length b1) s) as [[x s1]|] eqn:E1; [|done].
  destruct (Receive (length b2) s1) as [[y s2]|] eqn:E2; [|done].
  intros H. simplify_eq.
  apply Receive_length in E1 as L1.
  apply app_inj_1 in H as [-> ->]; [|done].
  exists s1. done.
Qed.

(** A stream of non-empty pieces delivers its bytes. *)
Lemma Receive_concat (ps s : list (list byte)) :
  Forall (fun p => p <> []) ps ->
  delivers (ps ++ s) (concat ps) s.
Proof.
  unfold delivers. induction 1 as [|p ps Hp _ IH]; [apply Receive_0|].
  destruct p as [|b p]; [done|].
  cbn [concat]. rewrite length_app.
  change (((b :: p) :: ps) ++ s) with ((b :: p) :: (ps ++ s)).
  cbn [length Nat.add Receive].
  rewrite decide_True by lia.
  replace (S (length p + length (concat ps)) - S (length p))%nat
    with (length (concat ps)) by lia.
  rewrite IH. reflexivity.
Qed.

(** ** The invoke-id generator *)

Section Proofs.
Context `{cfg : Config}.

Lemma GetInvokeId_loop_fuel (fuel : nat) (c : AmsConnection) :
  (2 <= fuel)%nat ->
  GetInvokeId_loop fuel c = GetInvokeId c.
Proof.
  intros Hf. destruct fuel as [|[|fuel]]; [lia|lia|].
  unfold GetInvokeId. cbn [GetInvokeId_loop fetch_add].
  destruct (decide (conn_invokeId c = 0)) as [E|E]; [|reflexivity].
  cbn [set_conn_invokeId conn_invokeId]. rewrite E.
  change ((0 + 1) mod 2 ^ 32) with 1.
  rewrite !decide_False by lia. reflexivity.
Qed.

(** C4.  [GetInvokeId] returns, and what it returns is strictly positive: it
    is the counter, or 1 when the counter is 0 (at the start and after the
    32-bit counter has wrapped around), and the counter is left one past
    it. *)
Theorem GetInvokeId_positive (fuel : nat) (c : AmsConnection) :
  (2 <= fuel)%nat ->
  uint32 (conn_invokeId c) ->
  exists id c',
    GetInvokeId_loop fuel c = Done (id, c') /\
    0 < id < 2 ^ 32 /\
    id = (if decide (conn_invokeId c = 0) then 1 else conn_invokeId c) /\
    conn_invokeId c' = (id + 1) mod 2 ^ 32 /\
    uint32 (conn_invokeId c') /\
    queue c' = queue c /\ socket c' = socket c.
Proof.
  intros Hf Hc. rewrite GetInvokeId_loop_fuel by done.
  unfold GetInvokeId, uint32 in *. cbn [GetInvokeId_loop fetch_add].
  destruct (decide (conn_invokeId c = 0)) as [E|E].
  - cbn [set_conn_invokeId conn_invokeId]. rewrite E.
    change ((0 + 1) mod 2 ^ 32) with 1.
    rewrite decide_False by lia.
    eexists _, _. split; [reflexivity|].
    cbn [set_conn_invokeId conn_invokeId queue socket].
    repeat split; try lia; try done.
    all: apply Z.mod_pos_bound; lia.
  - eexists _, _. split; [reflexivity|].
    cbn [set_conn_invokeId conn_invokeId queue socket].
    repeat split; try lia; try done.
    all: apply Z.mod_pos_bound; lia.
Qed.

(** ** Response slots *)

Lemma queue_at_Some (q : list AmsResponse) (port : Z) (i : nat) (r : AmsResponse) :
  queue_at q port = Some (i, r) <->
  0 <= port - PORT_BASE /\ i = Z.to_nat (port - PORT_BASE) /\ q !! i = Some r.
Proof.
  unfold queue_at, slot_index.
  destruct (decide (0 <= port - PORT_BASE)) as [Hp|Hp].
  - destruct (q !! Z.to_nat (port - PORT_BASE)) as [r0|] eqn:E.
    + split; [intros; simplify_eq; done|]. intros (_ & -> & H). congruence.
    + split; [done|]. intros (_ & -> & H). congruence.
  - split; [done|]. intros (? & _); lia.
Qed.

Lemma set_invokeId_same (r : AmsResponse) : set_invokeId (invokeId r) r = r.
Proof. by destruct r. Qed.

Lemma Reserve_slots (id port : Z) (spurious : bool) (c : AmsConnection)
    (res : option nat) (c' : AmsConnection) :
  Reserve id port spurious c = Done (res, c') ->
  forall j r, queue c !! j = Some r ->
    exists r', queue c' !! j = Some r' /\
      (r' = r \/
       (invokeId r = 0 /\ id <> 0 /\ r' = set_invokeId id r /\ res = Some j)).
Proof.
  unfold Reserve. intros H j r Hj.
  destruct (queue_at (queue c) port) as [[i r0]|] eqn:Hq; [|done].
  apply queue_at_Some in Hq as (_ & _ & Hi).
  destruct (decide _) as [[Hfree _]|_]; simplify_eq; cbn [set_queue LOG_WARN queue].
  - destruct (decide (i = j)) as [->|Hne].
    + rewrite list_lookup_insert_eq by (by eapply lookup_lt_Some).
      simplify_eq. eexists; split; [done|].
      destruct (decide (id = 0)) as [->|Hid].
      * left. rewrite <- Hfree. apply set_invokeId_same.
      * right. done.
    + rewrite list_lookup_insert_ne by done. eauto.
  - eauto.
Qed.

Lemma Release_slots (i : nat) (c : AmsConnection) (j : nat) :
  queue (Release i c) !! j =
  if decide (i = j) then Release_slot <$> queue c !! j else queue c !! j.
Proof.
  unfold Release. cbn [set_queue queue].
  destruct (decide (i = j)) as [->|Hne].
  - apply list_lookup_alter_eq.
  - by apply list_lookup_alter_ne.
Qed.

(** C9.  The operations on a response slot keep the invoke id zero exactly
    while the slot is free: [Reserve] changes the invoke id of no slot but by
    taking the slot of its port from 0 to a non-zero id; [Release] stores 0
    and resets the frame; [Notify] stores 0, leaves the frame and wakes the
    condition variable; and none of them replaces a non-zero invoke id by
    another non-zero one. *)
Theorem slot_operations_invariant :
  (forall id port spurious c res c',
      Reserve id port spurious c = Done (res, c') ->
      forall j r, queue c !! j = Some r ->
        exists r', queue c' !! j = Some r' /\
          (r' = r \/
           (invokeId r = 0 /\ invokeId r' = id /\ id <> 0 /\
            frame r' = frame r /\ wakeups r' = wakeups r /\ res = Some j))) /\
  (forall i c j r,
      queue c !! j = Some r ->
      exists r', queue (Release i c) !! j = Some r' /\
        if decide (i = j)
        then invokeId r' = 0 /\ frame r' = Frame_reset (frame r) /\ wakeups r' = wakeups r
        else r' = r) /\
  (forall r,
      invokeId (Notify r) = 0 /\ frame (Notify r) = frame r /\
      wakeups (Notify r) = S (wakeups r) /\ Wait (Notify r) = true) /\
  (forall id port spurious c res c' j r r',
      Reserve id port spurious c = Done (res, c') ->
      queue c !! j = Some r -> queue c' !! j = Some r' -> slot_step r r') /\
  (forall i c j r r',
      queue c !! j = Some r -> queue (Release i c) !! j = Some r' -> slot_step r r') /\
  (forall r, slot_step r (Notify r)) /\
  (forall r r',
      slot_step r r' -> invokeId r <> 0 -> invokeId r' <> 0 -> invokeId r' = invokeId r).
Proof.
  repeat apply conj.
  - intros id port spurious c res c' H j r Hj.
    destruct (Reserve_slots _ _ _ _ _ _ H j r Hj) as (r' & Hr' & Hcase).
    exists r'. split; [done|].
    destruct Hcase as [->|(H0 & Hid & -> & ->)]; [by left|].
    right. done.
  - intros i c j r Hj. rewrite Release_slots.
    destruct (decide (i = j)) as [->|Hne].
    + rewrite Hj. eexists; split; [reflexivity|]. done.
    + eauto.
  - intros r. done.
  - intros id port spurious c res c' j r r' H Hj Hj'.
    destruct (Reserve_slots _ _ _ _ _ _ H j r Hj) as (r1 & Hr1 & Hcase).
    simplify_eq. unfold slot_step.
    destruct Hcase as [->|(H0 & Hid & -> & _)]; [by left|].
    right; left. done.
  - intros i c j r r' Hj Hj'. rewrite Release_slots, Hj in Hj'.
    unfold slot_step. destruct (decide (i = j)); simplify_eq/=; auto.
  - intros r. unfold slot_step. right; right. done.
  - unfold slot_step. intros r r' [H|[[H _]|H]] Hr Hr'; done.
Qed.

(** ** Write *)

Lemma GetInvokeId_Done (c : AmsConnection) :
  exists id, id <> 0 /\
    GetInvokeId c = Done (id, set_conn_invokeId ((id + 1) mod 2 ^ 32) c).
Proof.
  unfold GetInvokeId. cbn [GetInvokeId_loop fetch_add].
  destruct (decide (conn_invokeId c = 0)) as [E|E].
  - cbn [set_conn_invokeId conn_invokeId]. rewrite E.
    change ((0 + 1) mod 2 ^ 32) with 1. rewrite decide_False by lia.
    exists 1. split; [lia|]. reflexivity.
  - exists (conn_invokeId c). done.
Qed.

Lemma length_le_encode (n : nat) (v : Z) : length (le_encode n v) = n.
Proof. revert v. induction n as [|n IH]; intros v; cbn; [done|]. by rewrite IH. Qed.

Lemma length_AoEHeader_make destAddr srcAddr cmdId stateFlags len id :
  length (AoEHeader_make destAddr srcAddr cmdId stateFlags len id) = sizeof_AoEHeader.
Proof.
  unfold AoEHeader_make.
  rewrite !length_app, !length_resize, !length_le_encode. reflexivity.
Qed.

Lemma length_AmsTcpHeader_make len :
  length (AmsTcpHeader_make len) = sizeof_AmsTcpHeader.
Proof. unfold AmsTcpHeader_make. rewrite length_app, !length_le_encode. reflexivity. Qed.

Lemma length_write_at {A} (off : nat) (bs l : list A) :
  (off + length bs <= length l)%nat -> length (write_at off bs l) = length l.
Proof.
  intros H. unfold write_at. rewrite !length_app, length_take, length_drop. lia.
Qed.

Lemma Frame_prepend_Done (bs : list byte) (f : Frame) :
  (length bs <= fstart f)%nat ->
  exists f', Frame_prepend bs f = Done f' /\
    fstart f' = (fstart f - length bs)%nat /\ fend f' = fend f /\
    (Frame_wf f -> Frame_wf f' /\ Frame_capacity f' = Frame_capacity f /\
                   Frame_size f' = (Frame_size f + length bs)%nat).
Proof.
  intros H. unfold Frame_prepend. rewrite decide_True by done.
  eexists. split; [reflexivity|]. cbn [fstart fend].
  repeat split; try done.
  all: destruct H0 as [H1 H2]; unfold Frame_wf, Frame_capacity, Frame_size in *;
    cbn [fstart fend storage]; rewrite ?length_write_at by lia; lia.
Qed.

Lemma length_Frame_data (f : Frame) :
  Frame_wf f -> length (Frame_data f) = Frame_size f.
Proof.
  intros [H1 H2]. unfold Frame_data, Frame_size, Frame_capacity in *.
  rewrite length_take, length_drop. lia.
Qed.

(** [Write] up to the reservation: the invoke id is drawn and both headers
    are prepended, whatever becomes of the reservation. *)
Lemma Write_prepended (request : Frame) (destAddr srcAddr : AmsAddr) (cmdId : Z)
    (spurious : bool) (c : AmsConnection) :
  (sizeof_AmsTcpHeader + sizeof_AoEHeader <= fstart request)%nat ->
  exists id aoe request2,
    id <> 0 /\
    (Frame_wf request -> Frame_wf request2 /\
       Frame_size request2 =
       (Frame_size request + (sizeof_AmsTcpHeader + sizeof_AoEHeader))%nat) /\
    Write request destAddr srcAddr cmdId spurious c =
    ('(response, c2) ← Reserve (AoE_invokeId aoe) (snd srcAddr) spurious
                          (set_conn_invokeId ((id + 1) mod 2 ^ 32) c);
     match response with
     | None => Done (None, request2, c2)
     | Some i =>
         let '(written, s) := socket_write (Frame_data request2) (socket c2) in
         let c3 := set_socket s c2 in
         if decide (Frame_size request2 <> written)
         then Done (None, request2, Release i c3)
         else Done (Some i, request2, c3)
     end).
Proof.
  intros Hroom. unfold sizeof_AmsTcpHeader, sizeof_AoEHeader in Hroom.
  destruct (GetInvokeId_Done c) as (id & Hid & HG).
  set (aoe := AoEHeader_make destAddr srcAddr cmdId AMS_REQUEST
                (Z.of_nat (Frame_size request) mod 2 ^ 32) id).
  destruct (Frame_prepend_Done aoe request) as (r1 & E1 & Hs1 & He1 & Hwf1).
  { unfold aoe. rewrite length_AoEHeader_make. unfold sizeof_AoEHeader. lia. }
  set (tcp := AmsTcpHeader_make (Z.of_nat (Frame_size r1) mod 2 ^ 32)).
  destruct (Frame_prepend_Done tcp r1) as (r2 & E2 & Hs2 & He2 & Hwf2).
  { unfold tcp. rewrite length_AmsTcpHeader_make, Hs1.
    unfold aoe. rewrite length_AoEHeader_make.
    unfold sizeof_AoEHeader, sizeof_AmsTcpHeader. lia. }
  exists id, aoe, r2. split; [done|]. split.
  - intros Hwf. destruct (Hwf1 Hwf) as (Hw1 & Hc1 & Hz1).
    destruct (Hwf2 Hw1) as (Hw2 & Hc2 & Hz2). split; [done|].
    rewrite Hz2, Hz1. unfold tcp, aoe.
    rewrite length_AmsTcpHeader_make, length_AoEHeader_make. lia.
  - unfold Write. rewrite HG. cbn [mbind outcome_bind].
    fold aoe. rewrite E1. cbn [mbind outcome_bind].
    fold tcp. rewrite E2. cbn [mbind outcome_bind]. reflexivity.
Qed.

Lemma Reserve_reserved (id port : Z) (spurious : bool) (c : AmsConnection)
    (i : nat) (r : AmsResponse) :
  queue_at (queue c) port = Some (i, r) ->
  invokeId r <> 0 ->
  Reserve id port spurious c = Done (None, LOG_WARN (PortInUse port (invokeId r)) c).
Proof.
  intros Hq Hr. unfold Reserve. rewrite Hq.
  rewrite decide_False; [done|]. intros [? _]. done.
Qed.

Lemma Reserve_free (id port : Z) (c : AmsConnection) (i : nat) (r : AmsResponse) :
  queue_at (queue c) port = Some (i, r) ->
  invokeId r = 0 ->
  Reserve id port false c =
  Done (Some i, set_queue (<[i := set_invokeId id r]> (queue c)) c).
Proof.
  intros Hq Hr. unfold Reserve. rewrite Hq. by rewrite decide_True.
Qed.

(** [Write] on a port whose slot is reserved returns null, and has then sent
    nothing and changed no slot.  The reservation is one compare-and-exchange
    of the invoke id from 0 to the new id: it fails whenever the slot is
    reserved and then changes nothing, and on a free slot it takes the slot
    unless the weak compare-and-exchange fails spuriously. *)
Lemma Write_busy_port_and_Reserve :
  (forall request destAddr srcAddr cmdId spurious c i r,
      (sizeof_AmsTcpHeader + sizeof_AoEHeader <= fstart request)%nat ->
      queue_at (queue c) (snd srcAddr) = Some (i, r) ->
      invokeId r <> 0 ->
      exists request' c',
        Write request destAddr srcAddr cmdId spurious c = Done (None, request', c') /\
        socket c' = socket c /\ queue c' = queue c /\
        log c' = log c ++ [PortInUse (snd srcAddr) (invokeId r)]) /\
  (forall id port spurious c i r,
      queue_at (queue c) port = Some (i, r) ->
      exists res c',
        Reserve id port spurious c = Done (res, c') /\
        (res = Some i <-> invokeId r = 0 /\ spurious = false) /\
        (res = None <-> invokeId r <> 0 \/ spurious = true) /\
        (res = Some i -> queue c' = <[i := set_invokeId id r]> (queue c)) /\
        (res = None -> queue c' = queue c) /\
        (invokeId r <> 0 -> res = None)).
Proof.
  split.
  - intros request destAddr srcAddr cmdId spurious c i r Hroom Hq Hr.
    destruct (Write_prepended request destAddr srcAddr cmdId spurious c Hroom)
      as (id & aoe & request2 & _ & _ & ->).
    erewrite Reserve_reserved by done. cbn [mbind outcome_bind].
    eexists _, _. split; [reflexivity|]. done.
  - intros id port spurious c i r Hq. unfold Reserve. rewrite Hq.
    destruct (decide (invokeId r = 0 /\ spurious = false)) as [[H0 Hs]|Hn].
    + eexists _, _. split; [reflexivity|].
      cbn [set_queue queue]. repeat split; try done.
      intros [?|?]; [done|]. by subst.
    + eexists _, _. split; [reflexivity|].
      cbn [LOG_WARN queue]. repeat split; try done.
      intros _. destruct (decide (invokeId r = 0)); [|by left].
      right. destruct spurious; [done|]. by destruct Hn.
Qed.

(** C2.  The reservation does not fail exactly when the slot is reserved:
    [compare_exchange_weak] may fail on a free slot, and then [Reserve]
    returns null and reports the port as in use as 0, the slot stays free,
    and [Write] returns null without having sent a byte, as it does for a
    port that is busy. *)
Theorem Reserve_spurious_failure (request : Frame) (destAddr srcAddr : AmsAddr)
    (cmdId id : Z) (c : AmsConnection) (i : nat) (r : AmsResponse) :
  (sizeof_AmsTcpHeader + sizeof_AoEHeader <= fstart request)%nat ->
  queue_at (queue c) (snd srcAddr) = Some (i, r) ->
  invokeId r = 0 ->
  (exists c',
      Reserve id (snd srcAddr) true c = Done (None, c') /\
      queue c' = queue c /\
      log c' = log c ++ [PortInUse (snd srcAddr) 0]) /\
  (exists request' c',
      Write request destAddr srcAddr cmdId true c = Done (None, request', c') /\
      socket c' = socket c /\ queue c' = queue c /\
      queue c' !! i = Some r /\ Wait r = true).
Proof.
  intros Hroom Hq Hr.
  assert (HR : forall id' c0, queue c0 = queue c ->
            Reserve id' (snd srcAddr) true c0 =
            Done (None, LOG_WARN (PortInUse (snd srcAddr) 0) c0)).
  { intros id' c0 Hc0. unfold Reserve. rewrite Hc0, Hq.
    rewrite decide_False by (intros [_ ?]; done). by rewrite Hr. }
  split.
  - rewrite HR by done. eexists. split; [reflexivity|]. done.
  - destruct (Write_prepended request destAddr srcAddr cmdId true c Hroom)
      as (id0 & aoe & request2 & _ & _ & ->).
    rewrite HR by done. cbn [mbind outcome_bind].
    eexists _, _. split; [reflexivity|].
    apply queue_at_Some in Hq as (_ & _ & Hi).
    cbn [LOG_WARN set_conn_invokeId socket queue]. repeat split; try done.
    unfold Wait. by apply bool_decide_eq_true.
Qed.

(** C3.  When the socket takes less than the whole frame, [Write] returns
    null and the slot it had reserved is released: its invoke id is 0 again
    and its frame is reset; no other slot is touched. *)
Theorem Write_short_write_releases (request : Frame) (destAddr srcAddr : AmsAddr)
    (cmdId : Z) (c : AmsConnection) (i : nat) (r : AmsResponse) :
  Frame_wf request ->
  (sizeof_AmsTcpHeader + sizeof_AoEHeader <= fstart request)%nat ->
  queue_at (queue c) (snd srcAddr) = Some (i, r) ->
  invokeId r = 0 ->
  (txroom (socket c) < Frame_size request + (sizeof_AmsTcpHeader + sizeof_AoEHeader))%nat ->
  exists request' c' r',
    Write request destAddr srcAddr cmdId false c = Done (None, request', c') /\
    queue c' !! i = Some r' /\
    invokeId r' = 0 /\ frame r' = Frame_reset (frame r) /\ wakeups r' = wakeups r /\
    Wait r' = true /\
    (forall j, j <> i -> queue c' !! j = queue c !! j) /\
    fst (socket_write (Frame_data request') (socket c)) <> Frame_size request'.
Proof.
  intros Hwf Hroom Hq Hr Htx.
  destruct (Write_prepended request destAddr srcAddr cmdId false c Hroom)
    as (id & aoe & request2 & _ & Hw & ->).
  destruct (Hw Hwf) as [Hwf2 Hsz].
  erewrite Reserve_free by done. cbn [mbind outcome_bind].
  cbn [socket_write set_queue socket set_conn_invokeId].
  pose proof (length_Frame_data _ Hwf2) as HL.
  apply queue_at_Some in Hq as (_ & _ & Hi).
  eexists _, _, _. split.
  { rewrite HL, decide_True by lia. reflexivity. }
  split.
  { rewrite Release_slots. rewrite decide_True by done.
    cbn [set_socket set_queue queue].
    rewrite list_lookup_insert_eq by (by eapply lookup_lt_Some). reflexivity. }
  repeat split; try done.
  - intros j Hj. rewrite Release_slots, decide_False by done.
    cbn [set_socket set_queue queue]. by rewrite list_lookup_insert_ne.
  - cbn [socket_write fst]. rewrite HL. lia.
Qed.

(** ** The reader: reply frames *)

Lemma frame_arrives_reads (c : AmsConnection) (tcp aoe payload : list byte)
    (s' : list (list byte)) :
  frame_arrives c tcp aoe payload s' ->
  exists s1 s2,
    Receive sizeof_AmsTcpHeader (rx (socket c)) = Some (tcp, s1) /\
    Receive sizeof_AoEHeader s1 = Some (aoe, s2) /\
    Receive (Z.to_nat (AoE_length aoe)) s2 = Some (payload, s').
Proof.
  intros (Ht & Ha & _ & Hl & Hd).
  apply Receive_split in Hd as (s1 & H1 & Hd).
  apply Receive_split in Hd as (s2 & H2 & H3).
  unfold delivers in *. rewrite Ht in H1. rewrite Ha in H2.
  rewrite Hl, Nat2Z.id. eauto.
Qed.

(** The [switch] of [Recv] accepts the eight reply opcodes and no other. *)
Lemma accepted_reply_opcodes (cmdId : Z) :
  accepted_reply cmdId = true <-> cmdId ∈ reply_opcodes.
Proof.
  split.
  - unfold accepted_reply. intros H.
    repeat case_match; simplify_eq; apply list_elem_of_In; cbv;
      repeat ((left; reflexivity) || right).
  - unfold reply_opcodes. intros H.
    repeat (apply elem_of_cons in H as [->|H]; [reflexivity|]).
    by apply elem_of_nil in H.
Qed.

Lemma accepted_reply_other (cmdId : Z) :
  accepted_reply cmdId = false <-> cmdId ∉ reply_opcodes.
Proof.
  rewrite <- accepted_reply_opcodes. by destruct (accepted_reply cmdId).
Qed.

Lemma accepted_reply_not_notification (cmdId : Z) :
  accepted_reply cmdId = true -> cmdId <> DEVICE_NOTIFICATION.
Proof. intros H ->. discriminate. Qed.

(** The loop body on a frame that is not a notification, up to the lookup
    of the pending slot. *)
Lemma Recv_body_reply (c : AmsConnection) (tcp aoe payload : list byte)
    (s' : list (list byte)) :
  frame_arrives c tcp aoe payload s' ->
  AoE_cmdId aoe <> DEVICE_NOTIFICATION ->
  exists s2,
    Receive (Z.to_nat (AoE_length aoe)) s2 = Some (payload, s') /\
    Recv_body c =
    ('(response, c3) ← GetPending (AoE_invokeId aoe) (AoE_targetPort aoe) (set_rx s2 c);
     match response with
     | None =>
         let c4 := LOG_WARN NoResponsePending c3 in
         s ← ReceiveJunk (Z.to_nat (AoE_length aoe)) (rx (socket c4));
         Done (set_rx s c4)
     | Some i =>
         match queue c3 !! i with
         | None => Undefined
         | Some r =>
             '(f, c4) ← ReceiveFrame (frame r) (Z.to_nat (AoE_length aoe)) c3;
             let '(f', c5) :=
               if accepted_reply (AoE_cmdId aoe) then (f, c4)
               else (Frame_clear f, LOG_WARN UnknownCommand c4) in
             Done (set_queue (<[i := Notify (set_frame f' r)]> (queue c5)) c5)
         end
     end).
Proof.
  intros Hf Hcmd.
  destruct (frame_arrives_reads _ _ _ _ _ Hf) as (s1 & s2 & H1 & H2 & H3).
  destruct Hf as (_ & _ & Hlen & _ & _).
  exists s2. split; [done|].
  unfold Recv_body. rewrite H1.
  rewrite decide_False by lia.
  cbn [set_rx socket rx]. rewrite H2.
  rewrite decide_False by done.
  reflexivity.
Qed.

Lemma Frame_data_received (bs : list byte) (f : Frame) :
  Frame_data (Frame_limit (length bs) (Frame_fill bs f)) = bs.
Proof.
  unfold Frame_data, Frame_size, Frame_limit, Frame_fill, write_at.
  cbn [fstart fend storage]. rewrite Nat.sub_0_r, drop_0, take_0.
  cbn [app]. by rewrite take_app_length.
Qed.

Lemma Frame_data_clear (f : Frame) : Frame_data (Frame_clear f) = [].
Proof.
  unfold Frame_data, Frame_size, Frame_clear. cbn [fstart fend storage].
  by rewrite Nat.sub_diag, take_0.
Qed.

Lemma ReceiveFrame_fits (f : Frame) (c : AmsConnection) (payload : list byte)
    (s' : list (list byte)) :
  Receive (length payload) (rx (socket c)) = Some (payload, s') ->
  (length payload <= Frame_capacity f)%nat ->
  ReceiveFrame f (length payload) c =
  Done (Frame_limit (length payload) (Frame_fill payload f), set_rx s' c).
Proof.
  intros HR Hcap. unfold ReceiveFrame.
  rewrite decide_False by lia. by rewrite HR.
Qed.

Lemma ReceiveFrame_too_long (f : Frame) (c : AmsConnection) (payload : list byte)
    (s' : list (list byte)) :
  Receive (length payload) (rx (socket c)) = Some (payload, s') ->
  (Frame_capacity f < length payload)%nat ->
  ReceiveFrame f (length payload) c =
  Done (Frame_clear f,
        set_rx s' (LOG_WARN (FrameTooLong (length payload) (Frame_capacity f)) c)).
Proof.
  intros HR Hcap. unfold ReceiveFrame.
  rewrite decide_True by lia.
  rewrite ReceiveJunk_Receive. cbn [LOG_WARN socket rx].
  by rewrite HR.
Qed.

Lemma GetPending_match (id port : Z) (c : AmsConnection) (i : nat) (r : AmsResponse) :
  queue_at (queue c) port = Some (i, r) ->
  invokeId r = id ->
  GetPending id port c = Done (Some i, c).
Proof. intros Hq Hid. unfold GetPending. rewrite Hq. by rewrite decide_True. Qed.

Lemma GetPending_mismatch (id port : Z) (c : AmsConnection) (i : nat) (r : AmsResponse) :
  queue_at (queue c) port = Some (i, r) ->
  invokeId r <> id ->
  GetPending id port c = Done (None, LOG_WARN (InvokeIdMismatch (invokeId r) id) c).
Proof. intros Hq Hid. unfold GetPending. rewrite Hq. by rewrite decide_False. Qed.

(** C1, as the code has it.  A reply with an accepted command id and the
    invoke id the slot of its target port is reserved under is handed to the
    slot: when its length is within the capacity of the slot's frame, the
    frame holds exactly the payload, limited to its length; the slot is
    notified, so [Wait] gives true; the reader has consumed the frame and
    goes on.  A reply longer than the capacity is dropped from the socket
    and leaves the frame empty, the slot being notified all the same. *)
Theorem Recv_reply_delivered (c : AmsConnection) (tcp aoe payload : list byte)
    (s' : list (list byte)) (i : nat) (r : AmsResponse) :
  frame_arrives c tcp aoe payload s' ->
  AoE_cmdId aoe ∈ reply_opcodes ->
  queue_at (queue c) (AoE_targetPort aoe) = Some (i, r) ->
  invokeId r = AoE_invokeId aoe ->
  exists c' r',
    Recv_body c = Done c' /\
    rx (socket c') = s' /\
    queue c' = <[i := r']> (queue c) /\
    queue c' !! i = Some r' /\
    invokeId r' = 0 /\ wakeups r' = S (wakeups r) /\ Wait r' = true /\
    ((length payload <= Frame_capacity (frame r))%nat ->
       Frame_data (frame r') = payload /\
       Frame_size (frame r') = length payload /\
       take (length payload) (storage (frame r')) = payload /\
       log c' = log c) /\
    ((Frame_capacity (frame r) < length payload)%nat ->
       Frame_data (frame r') = [] /\
       log c' = log c ++ [FrameTooLong (length payload) (Frame_capacity (frame r))]).
Proof.
  intros Hf Hacc%accepted_reply_opcodes Hq Hid.
  destruct (Recv_body_reply _ _ _ _ _ Hf (accepted_reply_not_notification _ Hacc))
    as (s2 & HR & ->).
  destruct Hf as (_ & _ & _ & Hlen & _).
  rewrite Hlen, Nat2Z.id in *.
  erewrite GetPending_match by done. cbn [mbind outcome_bind].
  apply queue_at_Some in Hq as (_ & _ & Hi).
  cbn [set_rx queue]. rewrite Hi. rewrite Hacc.
  destruct (decide (length payload <= Frame_capacity (frame r))%nat) as [Hcap|Hcap].
  - rewrite (ReceiveFrame_fits _ _ payload s') by done.
    cbn [mbind outcome_bind set_rx set_queue queue socket rx log].
    eexists _, _. split; [reflexivity|].
    cbn [set_queue queue socket rx log].
    rewrite list_lookup_insert_eq by (by eapply lookup_lt_Some).
    repeat split; try done; try lia.
    + apply Frame_data_received.
    + cbn [Notify set_frame frame]. unfold Frame_size, Frame_limit.
      cbn [fstart fend]. lia.
    + cbn [Notify set_frame frame Frame_limit Frame_fill storage write_at].
      unfold write_at. rewrite take_0. cbn [app]. by rewrite take_app_length.
  - rewrite (ReceiveFrame_too_long _ _ payload s') by (done || lia).
    cbn [mbind outcome_bind set_rx set_queue queue socket rx log LOG_WARN].
    eexists _, _. split; [reflexivity|].
    cbn [set_queue queue socket rx log].
    rewrite list_lookup_insert_eq by (by eapply lookup_lt_Some).
    repeat split; try done; try lia.
    apply Frame_data_clear.
Qed.

(** C6.  A reply whose invoke id is not the one stored in the slot of its
    target port is logged and dropped: the reader consumes the header's
    length in bytes and goes on, no slot changes and none is notified, so a
    caller waiting on the slot is not woken. *)
Theorem Recv_invokeId_mismatch (c : AmsConnection) (tcp aoe payload : list byte)
    (s' : list (list byte)) (i : nat) (r : AmsResponse) :
  frame_arrives c tcp aoe payload s' ->
  AoE_cmdId aoe <> DEVICE_NOTIFICATION ->
  queue_at (queue c) (AoE_targetPort aoe) = Some (i, r) ->
  invokeId r <> AoE_invokeId aoe ->
  exists c',
    Recv_body c = Done c' /\
    rx (socket c') = s' /\
    queue c' = queue c /\
    queue c' !! i = Some r /\
    (invokeId r <> 0 -> Wait r = false) /\
    log c' = log c ++
      [InvokeIdMismatch (invokeId r) (AoE_invokeId aoe); NoResponsePending] /\
    tx (socket c') = tx (socket c) /\
    dispatcherList c' = dispatcherList c /\ store c' = store c /\
    conn_invokeId c' = conn_invokeId c.
Proof.
  intros Hf Hcmd Hq Hid.
  destruct (Recv_body_reply _ _ _ _ _ Hf Hcmd) as (s2 & HR & ->).
  erewrite GetPending_mismatch by done. cbn [mbind outcome_bind].
  rewrite ReceiveJunk_Receive.
  cbn [LOG_WARN set_rx socket rx]. rewrite HR.
  eexists. split; [reflexivity|].
  apply queue_at_Some in Hq as (_ & _ & Hi).
  cbn [set_rx socket rx tx queue log dispatcherList store conn_invokeId].
  repeat split; try done.
  - intros H0. unfold Wait. by apply bool_decide_eq_false.
  - cbn [LOG_WARN set_rx log]. by rewrite <- app_assoc.
Qed.

(** C8.  A reply frame, that is a frame the reader does not take for a
    notification, whose command id is none of the eight reply opcodes and
    whose invoke id is the one of the slot of its target port: the reader
    consumes it, logs the unknown command, leaves the frame of the slot
    empty and notifies the slot, so [Wait] gives true on an empty frame. *)
Theorem Recv_unknown_command (c : AmsConnection) (tcp aoe payload : list byte)
    (s' : list (list byte)) (i : nat) (r : AmsResponse) :
  frame_arrives c tcp aoe payload s' ->
  AoE_cmdId aoe <> DEVICE_NOTIFICATION ->
  AoE_cmdId aoe ∉ reply_opcodes ->
  queue_at (queue c) (AoE_targetPort aoe) = Some (i, r) ->
  invokeId r = AoE_invokeId aoe ->
  exists c' r',
    Recv_body c = Done c' /\
    rx (socket c') = s' /\
    queue c' = <[i := r']> (queue c) /\
    queue c' !! i = Some r' /\
    Frame_data (frame r') = [] /\ Frame_size (frame r') = 0%nat /\
    invokeId r' = 0 /\ wakeups r' = S (wakeups r) /\ Wait r' = true /\
    last (log c') = Some UnknownCommand.
Proof.
  intros Hf Hcmd Hacc%accepted_reply_other Hq Hid.
  destruct (Recv_body_reply _ _ _ _ _ Hf Hcmd) as (s2 & HR & ->).
  destruct Hf as (_ & _ & _ & Hlen & _).
  rewrite Hlen, Nat2Z.id in *.
  erewrite GetPending_match by done. cbn [mbind outcome_bind].
  apply queue_at_Some in Hq as (_ & _ & Hi).
  cbn [set_rx queue]. rewrite Hi. rewrite Hacc.
  destruct (decide (length payload <= Frame_capacity (frame r))%nat) as [Hcap|Hcap].
  - rewrite (ReceiveFrame_fits _ _ payload s') by done.
    cbn [mbind outcome_bind set_rx set_queue queue socket rx log LOG_WARN].
    eexists _, _. split; [reflexivity|].
    cbn [set_queue queue socket rx log].
    rewrite list_lookup_insert_eq by (by eapply lookup_lt_Some).
    repeat split; try done.
    apply last_snoc.
  - rewrite (ReceiveFrame_too_long _ _ payload s') by (done || lia).
    cbn [mbind outcome_bind set_rx set_queue queue socket rx log LOG_WARN].
    eexists _, _. split; [reflexivity|].
    cbn [set_queue queue socket rx log].
    rewrite list_lookup_insert_eq by (by eapply lookup_lt_Some).
    repeat split; try done.
    + cbn [Notify frame set_frame]. apply Frame_data_clear.
    + cbn [Notify frame set_frame]. unfold Frame_size, Frame_clear.
      cbn [fstart fend]. lia.
    + apply last_snoc.
Qed.

Lemma queue_at_None (q : list AmsResponse) (port : Z) :
  queue_at q port = None <->
  port < PORT_BASE \/ PORT_BASE + Z.of_nat (length q) <= port.
Proof.
  unfold queue_at, slot_index.
  destruct (decide (0 <= port - PORT_BASE)) as [Hp|Hp].
  - destruct (q !! Z.to_nat (port - PORT_BASE)) as [r|] eqn:E.
    + apply lookup_lt_Some in E. split; [done|]. lia.
    + apply lookup_ge_None in E. split; [|done]. lia.
  - split; [|done]. lia.
Qed.

(** C5, as the code has it.  The target port of a frame that is not a
    notification is used as an index of the slot table without a check: the
    access is within the table exactly for the ports from [PORT_BASE] on that
    the table has a slot for, and for a header with any other target port
    the reader leaves the bounds of the array. *)
Theorem Recv_slot_index_unchecked (c : AmsConnection) (tcp aoe payload : list byte)
    (s' : list (list byte)) :
  frame_arrives c tcp aoe payload s' ->
  AoE_cmdId aoe <> DEVICE_NOTIFICATION ->
  AoE_targetPort aoe < PORT_BASE \/
    PORT_BASE + Z.of_nat (length (queue c)) <= AoE_targetPort aoe ->
  queue_at (queue c) (AoE_targetPort aoe) = None /\
  GetPending (AoE_invokeId aoe) (AoE_targetPort aoe) c = Undefined /\
  Recv_body c = Undefined.
Proof.
  intros Hf Hcmd Hport.
  apply queue_at_None in Hport as Hq. split; [done|]. split.
  - unfold GetPending. by rewrite Hq.
  - destruct (Recv_body_reply _ _ _ _ _ Hf Hcmd) as (s2 & HR & ->).
    unfold GetPending. cbn [set_rx queue]. by rewrite Hq.
Qed.

(** ** The reader: notifications *)

(** One contiguous write of at most [WriteChunk] bytes appends them to what
    the consumer will read. *)
Lemma ring_write_chunk (r : RingBuffer) (bs : list byte) :
  RingBuffer_wf r ->
  (length bs <= WriteChunk r)%nat ->
  let r' := RingBuffer_Write (length bs) (RingBuffer_fill bs r) in
  RingBuffer_contents r' = RingBuffer_contents r ++ bs /\
  RingBuffer_wf r' /\
  dataSize r' = dataSize r /\
  rb_read r' = rb_read r /\
  rb_write r' = ((rb_write r + length bs) mod dataSize r)%nat /\
  BytesFree r' = (BytesFree r - length bs)%nat.
Proof.
  destruct r as [d w rd]. unfold RingBuffer_wf, WriteChunk, BytesFree, dataSize.
  cbn [rb_data rb_write rb_read]. intros [Hw Hr] Hn.
  set (n := length bs) in *.
  assert (HD : length (write_at w bs d) = length d).
  { apply length_write_at. fold n. lia. }
  unfold RingBuffer_Write, RingBuffer_fill, RingBuffer_contents, RingBuffer_wf,
    BytesFree, dataSize.
  cbn [rb_data rb_write rb_read]. rewrite HD.
  assert (Hmod : (w + n < length d /\ (w + n) mod length d = w + n)%nat \/
                 (w + n = length d /\ (w + n) mod length d = 0 /\ 1 <= rd <= w)%nat).
  { destruct (decide (w + n < length d)%nat) as [Hlt|Hge].
    - left. split; [done|]. by apply Nat.mod_small.
    - right. assert (E : (w + n = length d)%nat) by (case_decide; lia).
      split; [done|]. rewrite E. split; [apply Nat.Div0.mod_same|].
      case_decide; lia. }
  assert (Hpos : (0 < length d)%nat) by lia.
  unfold write_at. fold n.
  destruct Hmod as [[Hlt ->]|(Heq & -> & Hrd)].
  - destruct (decide (w < rd)%nat) as [Hwr|Hwr].
    + rewrite (decide_False (P := (rd <= w + n)%nat)) by lia.
      rewrite (decide_False (P := (rd <= w)%nat)) by lia.
      rewrite (decide_True (P := (w + n < rd)%nat)) by lia.
      repeat split; try lia.
      rewrite app_assoc.
      rewrite drop_app_ge by (rewrite length_app, length_take; lia).
      rewrite length_app, length_take, drop_drop.
      replace (w + n + (rd - (w `min` length d + length bs)))%nat with rd by (fold n; lia).
      rewrite take_app_length' by (rewrite length_app, length_take; fold n; lia).
      by rewrite app_assoc.
    + rewrite (decide_True (P := (rd <= w + n)%nat)) by lia.
      rewrite (decide_True (P := (rd <= w)%nat)) by lia.
      rewrite (decide_False (P := (w + n < rd)%nat)) by lia.
      repeat split; try lia.
      rewrite drop_app_le by (rewrite length_take; lia).
      rewrite take_app_ge by (rewrite length_drop, length_take; lia).
      rewrite length_drop, length_take.
      rewrite take_app_length' by (fold n; lia).
      rewrite take_drop_commute.
      replace (rd + (w - rd))%nat with w by lia. reflexivity.
  - rewrite decide_False in Hn by lia.
    rewrite (decide_False (P := (rd <= 0)%nat)) by lia.
    rewrite (decide_True (P := (rd <= w)%nat)) by lia.
    rewrite (decide_True (P := (0 < rd)%nat)) by lia.
    rewrite (decide_False (P := (w < rd)%nat)) by lia.
    repeat split; try lia.
    rewrite take_0, app_nil_r.
    rewrite (drop_ge d) by lia. rewrite app_nil_r.
    rewrite drop_app_le by (rewrite length_take; lia).
    rewrite take_drop_commute.
    replace (rd + (w - rd))%nat with w by lia. reflexivity.
Qed.

Lemma ring_receive_spec (fuel n : nat) (r : RingBuffer) (s : list (list byte))
    (payload : list byte) (s' : list (list byte)) :
  RingBuffer_wf r ->
  length payload = n ->
  (n <= BytesFree r)%nat ->
  (n <= fuel)%nat ->
  Receive n s = Some (payload, s') ->
  exists r',
    ring_receive fuel n r s = Done (r', s') /\
    RingBuffer_contents r' = RingBuffer_contents r ++ payload /\
    RingBuffer_wf r' /\
    dataSize r' = dataSize r /\
    rb_read r' = rb_read r /\
    rb_write r' = ((rb_write r + n) mod dataSize r)%nat /\
    BytesFree r' = (BytesFree r - n)%nat.
Proof.
  revert n r s payload.
  induction fuel as [|fuel IH]; intros n r s payload Hwf Hlen Hfree Hfuel HR.
  - assert (n = 0)%nat as -> by lia.
    cbn [ring_receive]. rewrite decide_False by lia. rewrite HR.
    destruct (ring_write_chunk r payload Hwf) as (H1 & H2 & H3 & H4 & H5 & H6); [lia|].
    rewrite Hlen in *. eexists. split; [reflexivity|]. done.
  - cbn [ring_receive].
    destruct (decide (WriteChunk r < n)%nat) as [Hloop|Hfit].
    + assert (Hchunk : (1 <= WriteChunk r)%nat).
      { destruct Hwf as [Hw _]. unfold WriteChunk in *. lia. }
      pose proof (Receive_app (WriteChunk r) (n - WriteChunk r) s) as Happ.
      replace (WriteChunk r + (n - WriteChunk r))%nat with n in Happ by lia.
      rewrite HR in Happ.
      destruct (Receive (WriteChunk r) s) as [[b1 s1]|] eqn:E1; [|done].
      destruct (Receive (n - WriteChunk r) s1) as [[b2 s2]|] eqn:E2; [|done].
      simplify_eq.
      apply Receive_length in E1 as L1. apply Receive_length in E2 as L2.
      destruct (ring_write_chunk r b1 Hwf) as (H1 & H2 & H3 & H4 & H5 & H6); [lia|].
      rewrite L1 in *.
      destruct (IH (length (b1 ++ b2) - WriteChunk r)%nat
                   (RingBuffer_Write (WriteChunk r) (RingBuffer_fill b1 r)) s1 b2)
        as (r' & G0 & G1 & G2 & G3 & G4 & G5 & G6); try done; try lia.
      exists r'. split; [done|].
      split; [by rewrite G1, H1, <- app_assoc|].
      split; [done|]. split; [congruence|]. split; [congruence|].
      split; [|rewrite G6, H6; lia].
      rewrite G5, H5, H3, Nat.Div0.add_mod_idemp_l. f_equal. lia.
    + rewrite HR.
      destruct (ring_write_chunk r payload Hwf) as (H1 & H2 & H3 & H4 & H5 & H6); [lia|].
      rewrite Hlen in *. eexists. split; [reflexivity|]. done.
Qed.

Lemma DispatcherList_Get_eq (k : VirtualConnection) (dl : DispatcherList) :
  DispatcherList_Get k dl =
  (dl_list dl !! k,
   mkDispatcherList (dl_list dl) (dl_mutex dl)
     (dl_trace dl ++ [(Find k, S (dl_mutex dl))])).
Proof. reflexivity. Qed.

(** C7.  A DEVICE_NOTIFICATION frame for which a dispatcher exists.  When
    its length exceeds the free space of the dispatcher's ring,
    [ReceiveNotification] drops the advertised bytes from the socket, logs
    the full ring and returns false; the ring and the dispatcher are as they
    were, the dispatcher is not notified and the reader goes on.  Otherwise
    it returns true: exactly the payload has been appended to what the ring
    holds, the read cursor is untouched, the write cursor has advanced by the
    length, and the dispatcher has been notified once. *)
Theorem Recv_notification (c : AmsConnection) (tcp aoe payload : list byte)
    (s' : list (list byte)) (p : nat) (d : NotificationDispatcher) :
  frame_arrives c tcp aoe payload s' ->
  AoE_cmdId aoe = DEVICE_NOTIFICATION ->
  dl_list (dispatcherList c) !! (AoE_targetPort aoe, AoE_sourceAms aoe) = Some p ->
  objects (store c) !! p = Some d ->
  RingBuffer_wf (ring d) ->
  exists s2 ok c' d',
    delivers s2 payload s' /\
    ReceiveNotification aoe (set_rx s2 c) = Done (ok, c') /\
    Recv_body c = Done c' /\
    rx (socket c') = s' /\
    queue c' = queue c /\
    dl_list (dispatcherList c') = dl_list (dispatcherList c) /\
    objects (store c') !! p = Some d' /\
    (forall q, q <> p -> objects (store c') !! q = objects (store c) !! q) /\
    ((BytesFree (ring d) < length payload)%nat ->
       ok = false /\ d' = d /\ store c' = store c /\
       log c' = log c ++ [RingFull (AoE_targetPort aoe)]) /\
    ((length payload <= BytesFree (ring d))%nat ->
       ok = true /\
       RingBuffer_contents (ring d') = RingBuffer_contents (ring d) ++ payload /\
       rb_read (ring d') = rb_read (ring d) /\
       rb_write (ring d') =
         ((rb_write (ring d) + length payload) mod dataSize (ring d))%nat /\
       BytesFree (ring d') = (BytesFree (ring d) - length payload)%nat /\
       RingBuffer_wf (ring d') /\
       dwakeups d' = S (dwakeups d) /\
       subscriptions d' = subscriptions d /\
       log c' = log c).
Proof.
  intros Hf Hcmd Hk Hp Hwf.
  destruct (frame_arrives_reads _ _ _ _ _ Hf) as (s1 & s2 & H1 & H2 & H3).
  destruct Hf as (_ & _ & Htcp & Hlen & _).
  rewrite Hlen, Nat2Z.id in H3.
  assert (HRecv : Recv_body c =
            ('(_, c3) ← ReceiveNotification aoe (set_rx s2 c); Done c3)).
  { unfold Recv_body. rewrite H1. rewrite decide_False by lia.
    cbn [set_rx socket rx]. rewrite H2. by rewrite decide_True. }
  assert (HRN : ReceiveNotification aoe (set_rx s2 c) =
    let dl := mkDispatcherList (dl_list (dispatcherList c))
                (dl_mutex (dispatcherList c))
                (dl_trace (dispatcherList c) ++
                 [(Find (AoE_targetPort aoe, AoE_sourceAms aoe),
                   S (dl_mutex (dispatcherList c)))]) in
    let c0 := set_dispatchers dl (store c) (set_rx s2 c) in
    if decide (BytesFree (ring d) < length payload)%nat then
      s ← ReceiveJunk (length payload) s2;
      Done (false, LOG_WARN (RingFull (AoE_targetPort aoe)) (set_rx s c0))
    else
      '(r, s) ← ring_receive (length payload) (length payload) (ring d) s2;
      Done (true,
            set_dispatchers dl
              (mkStore (<[p := Dispatcher_Notify (set_ring r d)]> (objects (store c)))
                       (brk (store c)))
              (set_rx s c0))).
  { unfold ReceiveNotification. rewrite DispatcherList_Get_eq.
    cbn [set_rx dispatcherList store set_dispatchers socket rx]. rewrite Hk, Hp.
    rewrite Hlen, Nat2Z.id. reflexivity. }
  cbv zeta in HRN. rewrite HRN in HRecv.
  exists s2.
  destruct (decide (BytesFree (ring d) < length payload)%nat) as [Hfull|Hroom].
  - rewrite ReceiveJunk_Receive, H3 in HRN, HRecv.
    cbn [mbind outcome_bind] in HRN, HRecv.
    exists false. eexists _, d.
    split; [done|]. split; [exact HRN|]. split; [exact HRecv|].
    cbn [LOG_WARN set_rx set_dispatchers socket rx queue dispatcherList dl_list
         store log].
    repeat split; try done; try lia.
  - destruct (ring_receive_spec (length payload) (length payload) (ring d) s2
                payload s' Hwf)
      as (r' & HR & G1 & G2 & G3 & G4 & G5 & G6); try done; try lia.
    rewrite HR in HRN, HRecv. cbn [mbind outcome_bind] in HRN, HRecv.
    exists true. eexists _, _.
    split; [done|]. split; [exact HRN|]. split; [exact HRecv|].
    cbn [set_dispatchers set_rx socket rx queue dispatcherList dl_list store log
         objects].
    rewrite lookup_insert_eq.
    split; [done|]. split; [done|]. split; [done|]. split; [done|].
    split; [intros q Hq; by rewrite lookup_insert_ne|].
    split; [lia|]. intros _.
    cbn [Dispatcher_Notify set_ring ring dwakeups subscriptions].
    repeat split; try done. all: apply G2.
Qed.

(** ** The dispatcher list *)

Lemma DispatcherList_Add_eq (k : VirtualConnection) (dl : DispatcherList) (st : Store) :
  DispatcherList_Add k dl st =
  match dl_list dl !! k with
  | Some p =>
      (p,
       mkDispatcherList (dl_list dl) (dl_mutex dl)
         (dl_trace dl ++ [(Find k, S (dl_mutex dl))]),
       st)
  | None =>
      (brk st,
       mkDispatcherList (<[k := brk st]> (dl_list dl)) (dl_mutex dl)
         (dl_trace dl ++ [(Find k, S (dl_mutex dl)); (EmplaceAt k, S (dl_mutex dl))]),
       mkStore (<[brk st := mkDispatcher (snd k) (fst k) (RingBuffer_new RING_SIZE) ∅ 0]>
                  (objects st))
               (S (brk st)))
  end.
Proof.
  unfold DispatcherList_Add. rewrite DispatcherList_Get_eq.
  destruct (dl_list dl !! k) as [p|] eqn:E; [reflexivity|].
  unfold emplace, make_shared, access, lock, unlock, set_list.
  cbn [dl_list dl_mutex dl_trace]. rewrite E.
  cbn [pred]. by rewrite <- app_assoc.
Qed.

(** [emplace] on a key that is in the list, as it is after another thread
    has inserted it between the two steps: the entry stays. *)
Lemma emplace_present (k : VirtualConnection) (d : NotificationDispatcher)
    (dl : DispatcherList) (st : Store) (q : nat) :
  dl_list dl !! k = Some q ->
  exists dl' st',
    emplace k d dl st = (q, dl', st') /\
    dl_list dl' = dl_list dl /\
    (forall p, (p < brk st)%nat -> objects st' !! p = objects st !! p).
Proof.
  intros Hq. unfold emplace, make_shared, access. cbn [dl_list]. rewrite Hq.
  eexists _, _. split; [reflexivity|]. split; [reflexivity|].
  intros p Hp. unfold destroy. cbn [objects brk].
  rewrite lookup_delete_ne by lia. by rewrite lookup_insert_ne by lia.
Qed.

Lemma DispatcherList_Add_lookup (k : VirtualConnection) (dl : DispatcherList)
    (st : Store) (p : nat) (dl' : DispatcherList) (st' : Store) :
  DispatcherList_Add k dl st = (p, dl', st') ->
  dl_list dl' !! k = Some p /\
  (forall k' q, dl_list dl !! k' = Some q -> dl_list dl' !! k' = Some q) /\
  (forall k', k' <> k -> dl_list dl' !! k' = dl_list dl !! k') /\
  (dispatchers_wf dl st -> dispatchers_wf dl' st' /\
     forall q, (q < brk st)%nat -> objects st' !! q = objects st !! q).
Proof.
  rewrite DispatcherList_Add_eq.
  destruct (dl_list dl !! k) as [p0|] eqn:E; intros H; simplify_eq.
  - cbn [dl_list]. split; [done|]. split; [done|]. split; [done|].
    intros Hwf. split; [exact Hwf|done].
  - cbn [dl_list]. split; [apply lookup_insert_eq|]. split; [|split].
    + intros k' q Hq. rewrite lookup_insert_ne; [done|]. congruence.
    + intros k' Hk'. by rewrite lookup_insert_ne.
    + intros Hwf. split.
      * intros k' q. cbn [dl_list brk objects].
        destruct (decide (k = k')) as [<-|Hne].
        -- rewrite lookup_insert_eq. intros [= <-].
           split; [lia|]. rewrite lookup_insert_eq. eauto.
        -- rewrite lookup_insert_ne by done. intros Hq.
           destruct (Hwf _ _ Hq) as [Hlt Hsome]. split; [lia|].
           rewrite lookup_insert_ne by lia. done.
      * intros q Hq. cbn [objects]. by rewrite lookup_insert_ne by lia.
Qed.

Lemma CreateNotifyMapping_spec (port : Z) (addr : AmsAddr) (pFunc hUser len hNotify : Z)
    (c : AmsConnection) :
  dispatchers_wf (dispatcherList c) (store c) ->
  exists p c',
    CreateNotifyMapping port addr pFunc hUser len hNotify c = Done ((hNotify, p), c') /\
    dl_list (dispatcherList c') !! (port, addr) = Some p /\
    (forall q, dl_list (dispatcherList c) !! (port, addr) = Some q -> p = q).
Proof.
  intros Hwf. unfold CreateNotifyMapping.
  destruct (DispatcherList_Add (port, addr) (dispatcherList c) (store c))
    as [[p dl'] st'] eqn:EA.
  destruct (DispatcherList_Add_lookup _ _ _ _ _ _ EA) as (Hk & Hkeep & _ & Hw).
  destruct (Hw Hwf) as [Hwf' _].
  destruct (Hwf' _ _ Hk) as [_ [d Hd]]. rewrite Hd.
  eexists _, _. split; [reflexivity|].
  cbn [set_dispatchers dispatcherList]. split; [done|].
  intros q Hq. apply Hkeep in Hq. congruence.
Qed.

Lemma CreateNotifyMapping_keeps (port : Z) (addr : AmsAddr) (pFunc hUser len hNotify : Z)
    (c : AmsConnection) (id : Z * nat) (c' : AmsConnection) :
  CreateNotifyMapping port addr pFunc hUser len hNotify c = Done (id, c') ->
  dispatchers_wf (dispatcherList c) (store c) ->
  dispatchers_wf (dispatcherList c') (store c') /\
  (forall k q, dl_list (dispatcherList c) !! k = Some q ->
               dl_list (dispatcherList c') !! k = Some q).
Proof.
  unfold CreateNotifyMapping.
  destruct (DispatcherList_Add (port, addr) (dispatcherList c) (store c))
    as [[p dl'] st'] eqn:EA.
  destruct (DispatcherList_Add_lookup _ _ _ _ _ _ EA) as (Hk & Hkeep & _ & Hw).
  destruct (objects st' !! p) as [d|] eqn:Hd; [|done].
  intros H Hwf. simplify_eq. cbn [set_dispatchers dispatcherList store].
  destruct (Hw Hwf) as [Hwf' _]. split; [|done].
  intros k q Hq. destruct (Hwf' _ _ Hq) as [Hlt Hsome].
  cbn [brk objects]. split; [done|].
  destruct (decide (p = q)) as [->|Hne].
  - rewrite lookup_insert_eq. eauto.
  - by rewrite lookup_insert_ne.
Qed.

Lemma Write_dispatchers (request : Frame) (destAddr srcAddr : AmsAddr) (cmdId : Z)
    (spurious : bool) (c : AmsConnection) res request' c' :
  Write request destAddr srcAddr cmdId spurious c = Done (res, request', c') ->
  dispatcherList c' = dispatcherList c /\ store c' = store c.
Proof.
  unfold Write. destruct (GetInvokeId_Done c) as (id & _ & ->).
  unfold Reserve, Release, socket_write, mbind, outcome_bind.
  intros H. repeat (case_match; simplify_eq); done.
Qed.

Lemma Recv_body_dispatchers (c c' : AmsConnection) :
  Recv_body c = Done c' ->
  dl_list (dispatcherList c') = dl_list (dispatcherList c) /\
  brk (store c') = brk (store c) /\
  (forall q, is_Some (objects (store c) !! q) -> is_Some (objects (store c') !! q)).
Proof.
  unfold Recv_body, ReceiveNotification, GetPending, ReceiveFrame,
    DispatcherList_Get.
  unfold mbind, outcome_bind.
  intros H. repeat (case_match; simplify_eq); try done.
  cbn [set_dispatchers set_rx store dispatcherList dl_list brk objects].
  split; [done|]. split; [done|].
  intros q Hq. rewrite lookup_insert. destruct (decide (_ = q)); eauto.
Qed.

Lemma step_dispatchers (c c' : AmsConnection) :
  step c c' ->
  dispatchers_wf (dispatcherList c) (store c) ->
  dispatchers_wf (dispatcherList c') (store c') /\
  (forall k q, dl_list (dispatcherList c) !! k = Some q ->
               dl_list (dispatcherList c') !! k = Some q).
Proof.
  intros Hstep Hwf. inversion Hstep as [? ? ? ? ? ? ? ? ? H|? ? ? ? ? ? ? ? ? H|? ? H]; subst.
  - by eapply CreateNotifyMapping_keeps.
  - apply Write_dispatchers in H as [-> ->]. done.
  - apply Recv_body_dispatchers in H as (Hl & Hb & Ho).
    split; [|intros k q; by rewrite Hl].
    intros k q. rewrite Hl, Hb. intros Hq.
    destruct (Hwf _ _ Hq). eauto.
Qed.

Lemma steps_dispatchers (c c' : AmsConnection) :
  rtc step c c' ->
  dispatchers_wf (dispatcherList c) (store c) ->
  dispatchers_wf (dispatcherList c') (store c') /\
  (forall k q, dl_list (dispatcherList c) !! k = Some q ->
               dl_list (dispatcherList c') !! k = Some q).
Proof.
  induction 1 as [c|c c1 c2 Hstep _ IH]; intros Hwf; [done|].
  destruct (step_dispatchers _ _ Hstep Hwf) as [Hwf1 Hk1].
  destruct (IH Hwf1) as [Hwf2 Hk2]. split; [done|]. eauto.
Qed.

(** C10, as the code has it.  Looking a dispatcher up or creating it is
    idempotent: a call of [CreateNotifyMapping] returns a dispatcher, and
    every later call for the same local port and remote address returns that
    same dispatcher, whatever calls were completed on the connection in
    between.  [DispatcherList::Add] returns the dispatcher the list then
    holds for the key, leaves every entry that was there in place, and
    returns the same dispatcher when repeated.  Its first step is [Get],
    which looks the key up while holding the mutex of the list, and its
    second step, taken when [Get] found nothing, is an [emplace] under the
    mutex again, which keeps an entry that is there. *)
Theorem dispatcher_lookup_or_create :
  (forall port addr pFunc1 hUser1 len1 hNotify1 pFunc2 hUser2 len2 hNotify2 c,
      dispatchers_wf (dispatcherList c) (store c) ->
      exists p c1,
        CreateNotifyMapping port addr pFunc1 hUser1 len1 hNotify1 c =
          Done ((hNotify1, p), c1) /\
        forall c2, rtc step c1 c2 ->
          exists c3,
            CreateNotifyMapping port addr pFunc2 hUser2 len2 hNotify2 c2 =
              Done ((hNotify2, p), c3)) /\
  (forall k dl st p dl' st',
      DispatcherList_Add k dl st = (p, dl', st') ->
      dl_list dl' !! k = Some p /\
      (forall k' q, dl_list dl !! k' = Some q -> dl_list dl' !! k' = Some q) /\
      (exists dl'', DispatcherList_Add k dl' st' = (p, dl'', st')) /\
      dl_mutex dl' = dl_mutex dl /\
      exists new,
        dl_trace dl' = dl_trace dl ++ new /\
        head new = Some (Find k, S (dl_mutex dl)) /\
        Forall (fun e => snd e = S (dl_mutex dl)) new /\
        (new = [(Find k, S (dl_mutex dl))] <-> is_Some (dl_list dl !! k)) /\
        (new = [(Find k, S (dl_mutex dl)); (EmplaceAt k, S (dl_mutex dl))] <->
           dl_list dl !! k = None)) /\
  (forall k d dl st q,
      dl_list dl !! k = Some q ->
      exists dl' st',
        emplace k d dl st = (q, dl', st') /\ dl_list dl' = dl_list dl).
Proof.
  split; [|split].
  - intros port addr pFunc1 hUser1 len1 hNotify1 pFunc2 hUser2 len2 hNotify2 c Hwf.
    destruct (CreateNotifyMapping_spec port addr pFunc1 hUser1 len1 hNotify1 c Hwf)
      as (p & c1 & H1 & Hk & _).
    exists p, c1. split; [done|]. intros c2 Hsteps.
    destruct (CreateNotifyMapping_keeps _ _ _ _ _ _ _ _ _ H1 Hwf) as [Hwf1 _].
    destruct (steps_dispatchers _ _ Hsteps Hwf1) as [Hwf2 Hkeep].
    destruct (CreateNotifyMapping_spec port addr pFunc2 hUser2 len2 hNotify2 c2 Hwf2)
      as (p2 & c3 & H2 & _ & Hsame).
    rewrite (Hsame p) in H2 by eauto. eauto.
  - intros k dl st p dl' st' HA.
    destruct (DispatcherList_Add_lookup _ _ _ _ _ _ HA) as (Hk & Hkeep & _ & _).
    split; [done|]. split; [done|]. split.
    { rewrite DispatcherList_Add_eq, Hk. eauto. }
    rewrite DispatcherList_Add_eq in HA.
    destruct (dl_list dl !! k) as [p0|] eqn:E; simplify_eq; cbn [dl_mutex dl_trace].
    + split; [done|]. eexists. split; [reflexivity|].
      split; [done|]. split; [by repeat constructor|].
      split; split; try done; eauto.
    + split; [done|]. eexists. split; [reflexivity|].
      split; [done|]. split; [by repeat constructor|].
      split; split; try done.
  - intros k d dl st q Hq.
    destruct (emplace_present k d dl st q Hq) as (dl' & st' & H1 & H2 & _). eauto.
Qed.

(** ** Invariants of the connection *)

Lemma ring_receive_wf (fuel n : nat) (r : RingBuffer) (s : list (list byte))
    (r' : RingBuffer) (s' : list (list byte)) :
  ring_receive fuel n r s = Done (r', s') ->
  RingBuffer_wf r ->
  (n <= BytesFree r)%nat ->
  RingBuffer_wf r'.
Proof.
  revert n r s. induction fuel as [|fuel IH]; intros n r s; cbn [ring_receive].
  - destruct (decide (WriteChunk r < n)%nat) as [Hloop|Hfit]; [done|].
    destruct (Receive n s) as [[bs s1]|] eqn:E; [|done].
    intros H Hwf Hfree. simplify_eq. apply Receive_length in E.
    destruct (ring_write_chunk r bs Hwf) as (_ & H2 & _); [lia|].
    by rewrite E in H2.
  - destruct (decide (WriteChunk r < n)%nat) as [Hloop|Hfit].
    + destruct (Receive (WriteChunk r) s) as [[bs s1]|] eqn:E; [|done].
      intros H Hwf Hfree. apply Receive_length in E.
      destruct (ring_write_chunk r bs Hwf) as (_ & H2 & _ & _ & _ & H6); [lia|].
      rewrite E in H2, H6.
      eapply IH; [exact H|done|]. rewrite H6. lia.
    + destruct (Receive n s) as [[bs s1]|] eqn:E; [|done].
      intros H Hwf Hfree. simplify_eq. apply Receive_length in E.
      destruct (ring_write_chunk r bs Hwf) as (_ & H2 & _); [lia|].
      by rewrite E in H2.
Qed.

Lemma RingBuffer_new_wf (n : nat) : RingBuffer_wf (RingBuffer_new n).
Proof.
  unfold RingBuffer_wf, RingBuffer_new, dataSize. cbn [rb_data rb_write rb_read].
  rewrite length_replicate. lia.
Qed.

Lemma AmsConnection_new_wf (s : Socket) : connection_wf (AmsConnection_new s).
Proof.
  unfold connection_wf, AmsConnection_new, uint32.
  cbn [conn_invokeId queue dispatcherList store objects].
  split; [lia|]. split; [apply length_replicate|]. split; [|done].
  intros k p. done.
Qed.

Lemma CreateNotifyMapping_wf (port : Z) (addr : AmsAddr) (pFunc hUser len hNotify : Z)
    (c : AmsConnection) (id : Z * nat) (c' : AmsConnection) :
  CreateNotifyMapping port addr pFunc hUser len hNotify c = Done (id, c') ->
  connection_wf c -> connection_wf c'.
Proof.
  intros H (Hc & Hq & Hd & Hr).
  destruct (CreateNotifyMapping_keeps _ _ _ _ _ _ _ _ _ H Hd) as [Hd' _].
  revert H. unfold CreateNotifyMapping. rewrite DispatcherList_Add_eq.
  destruct (dl_list (dispatcherList c) !! (port, addr)) as [p|] eqn:E.
  - destruct (objects (store c) !! p) as [d|] eqn:Ed; [|done].
    intros H. simplify_eq. split; [done|]. split; [done|]. split; [done|].
    cbn [set_dispatchers store objects]. intros q d'.
    rewrite lookup_insert. destruct (decide (_ = q)) as [<-|Hne].
    + intros [= <-]. cbn [Emplace ring]. eauto.
    + eauto.
  - cbn [objects]. rewrite lookup_insert_eq.
    intros H. simplify_eq. split; [done|]. split; [done|]. split; [done|].
    cbn [set_dispatchers store objects]. intros q d'.
    rewrite insert_insert_eq, lookup_insert.
    destruct (decide (_ = q)) as [<-|Hne].
    + intros [= <-]. cbn [Emplace ring]. apply RingBuffer_new_wf.
    + eauto.
Qed.

Lemma Write_wf (request : Frame) (destAddr srcAddr : AmsAddr) (cmdId : Z)
    (spurious : bool) (c : AmsConnection) res request' c' :
  Write request destAddr srcAddr cmdId spurious c = Done (res, request', c') ->
  connection_wf c -> connection_wf c'.
Proof.
  intros H (Hc & Hq & Hd & Hr).
  destruct (Write_dispatchers _ _ _ _ _ _ _ _ _ H) as [Hdl Hst].
  unfold connection_wf. rewrite Hdl, Hst. split; [|split; [|done]].
  - revert H. unfold Write. destruct (GetInvokeId_Done c) as (id & _ & ->).
    unfold Reserve, Release, socket_write, mbind, outcome_bind.
    intros H. repeat (case_match; simplify_eq);
      cbn [set_queue set_socket LOG_WARN set_conn_invokeId conn_invokeId];
      apply Z.mod_pos_bound; lia.
  - revert H. unfold Write. destruct (GetInvokeId_Done c) as (id & _ & ->).
    unfold Reserve, Release, socket_write, mbind, outcome_bind.
    intros H. repeat (case_match; simplify_eq);
      cbn [set_queue set_socket LOG_WARN set_conn_invokeId queue];
      rewrite ?length_alter, ?length_insert; done.
Qed.

Lemma Recv_body_wf (c c' : AmsConnection) :
  Recv_body c = Done c' ->
  connection_wf c -> connection_wf c'.
Proof.
  intros H (Hc & Hq & Hd & Hr).
  destruct (Recv_body_dispatchers _ _ H) as (Hl & Hb & Ho).
  assert (Hd' : dispatchers_wf (dispatcherList c') (store c')).
  { intros k q. rewrite Hl, Hb. intros Hk. destruct (Hd _ _ Hk). eauto. }
  revert H.
  unfold Recv_body, ReceiveNotification, GetPending, ReceiveFrame,
    DispatcherList_Get.
  unfold mbind, outcome_bind.
  intros H. clear Hl Hb Ho.
  repeat (case_match; simplify_eq);
    (split; [exact Hc|]); (split; [|split; [exact Hd'|]]);
    cbn [set_dispatchers set_rx set_queue LOG_WARN queue store objects];
    rewrite ?length_insert; try done.
  intros q d'. rewrite lookup_insert.
  destruct (decide (_ = q)) as [->|Hne]; [|by eauto].
  intros [= <-]. cbn [Dispatcher_Notify set_ring ring].
  eapply ring_receive_wf; [eassumption| |lia].
  eapply Hr. eassumption.
Qed.

Lemma step_wf (c c' : AmsConnection) :
  step c c' -> connection_wf c -> connection_wf c'.
Proof.
  intros Hstep. inversion Hstep; subst;
    eauto using CreateNotifyMapping_wf, Write_wf, Recv_body_wf.
Qed.

Lemma steps_wf (c c' : AmsConnection) :
  rtc step c c' -> connection_wf c -> connection_wf c'.
Proof. induction 1; eauto using step_wf. Qed.

(** Every state the connection reaches from its construction by completed
    calls is well formed. *)
Lemma reachable_wf (s : Socket) (c : AmsConnection) :
  rtc step (AmsConnection_new s) c -> connection_wf c.
Proof. intros H. eapply steps_wf; [exact H|]. apply AmsConnection_new_wf. Qed.

(** ** Headers on the wire *)

Lemma byte_to_Z_range (b : byte) : 0 <= byte_to_Z b < 256.
Proof.
  unfold byte_to_Z. pose proof (Byte.to_N_bounded b). lia.
Qed.

Lemma byte_to_of_Z (v : Z) : byte_to_Z (byte_of_Z v) = v mod 256.
Proof.
  unfold byte_to_Z, byte_of_Z.
  pose proof (Z.mod_pos_bound v 256 ltac:(lia)) as Hm.
  destruct (Byte.of_N (Z.to_N (v mod 256))) as [b|] eqn:E.
  - apply Byte.to_of_N in E. rewrite E. lia.
  - apply Byte.of_N_None_iff in E. lia.
Qed.

Lemma le_decode_encode (n : nat) (v : Z) :
  le_decode (le_encode n v) = v mod 256 ^ Z.of_nat n.
Proof.
  revert v. induction n as [|n IH]; intros v.
  - cbn [le_encode le_decode]. change (256 ^ Z.of_nat 0) with 1.
    by rewrite Z.mod_1_r.
  - cbn [le_encode le_decode]. rewrite IH, byte_to_of_Z.
    rewrite Nat2Z.inj_succ, Z.pow_succ_r by lia.
    rewrite Z.rem_mul_r by lia. reflexivity.
Qed.

Lemma field_app_ge (off len : nat) (a b : list byte) :
  (length a <= off)%nat -> field off len (a ++ b) = field (off - length a) len b.
Proof. intros H. unfold field. by rewrite drop_app_ge. Qed.

Lemma AoE_invokeId_make destAddr srcAddr cmdId stateFlags len id :
  AoE_invokeId (AoEHeader_make destAddr srcAddr cmdId stateFlags len id) = id mod 2 ^ 32.
Proof.
  unfold AoE_invokeId, AoEHeader_make.
  do 8 (rewrite field_app_ge by (rewrite ?length_resize, ?length_le_encode; lia);
        rewrite ?length_resize, ?length_le_encode; cbn [Nat.sub]).
  unfold field. rewrite drop_0, take_ge by (rewrite length_le_encode; lia).
  apply (le_decode_encode 4).
Qed.

Lemma AoE_length_make destAddr srcAddr cmdId stateFlags len id :
  AoE_length (AoEHeader_make destAddr srcAddr cmdId stateFlags len id) = len mod 2 ^ 32.
Proof.
  unfold AoE_length, AoEHeader_make.
  do 6 (rewrite field_app_ge by (rewrite ?length_resize, ?length_le_encode; lia);
        rewrite ?length_resize, ?length_le_encode; cbn [Nat.sub]).
  unfold field. rewrite drop_0, take_app_length' by (by rewrite length_le_encode).
  apply (le_decode_encode 4).
Qed.

Lemma AoE_cmdId_make destAddr srcAddr cmdId stateFlags len id :
  AoE_cmdId (AoEHeader_make destAddr srcAddr cmdId stateFlags len id) = cmdId mod 2 ^ 16.
Proof.
  unfold AoE_cmdId, AoEHeader_make.
  do 4 (rewrite field_app_ge by (rewrite ?length_resize, ?length_le_encode; lia);
        rewrite ?length_resize, ?length_le_encode; cbn [Nat.sub]).
  unfold field. rewrite drop_0, take_app_length' by (by rewrite length_le_encode).
  apply (le_decode_encode 2).
Qed.

Lemma AoE_targetPort_make destAddr srcAddr cmdId stateFlags len id :
  AoE_targetPort (AoEHeader_make destAddr srcAddr cmdId stateFlags len id) =
  snd destAddr mod 2 ^ 16.
Proof.
  unfold AoE_targetPort, AoEHeader_make.
  do 1 (rewrite field_app_ge by (rewrite ?length_resize, ?length_le_encode; lia);
        rewrite ?length_resize, ?length_le_encode; cbn [Nat.sub]).
  unfold field. rewrite drop_0, take_app_length' by (by rewrite length_le_encode).
  apply (le_decode_encode 2).
Qed.

Lemma GetInvokeId_value (c : AmsConnection) (id : Z) (c1 : AmsConnection) :
  GetInvokeId c = Done (id, c1) ->
  id = (if decide (conn_invokeId c = 0) then 1 else conn_invokeId c).
Proof.
  unfold GetInvokeId. cbn [GetInvokeId_loop fetch_add].
  destruct (decide (conn_invokeId c = 0)) as [E|E]; [|congruence].
  cbn [set_conn_invokeId conn_invokeId]. rewrite E.
  change ((0 + 1) mod 2 ^ 32) with 1. rewrite decide_False by lia. congruence.
Qed.

(** The request that goes through: the slot of the source port is free, the
    compare-and-exchange does not fail and the socket takes the frame.  The
    slot is then reserved under the invoke id that the header carries, which
    is not 0, and the frame is on the wire. *)
Lemma Write_reserves (request : Frame) (destAddr srcAddr : AmsAddr) (cmdId : Z)
    (c : AmsConnection) (i : nat) (r : AmsResponse) :
  uint32 (conn_invokeId c) ->
  Frame_wf request ->
  (sizeof_AmsTcpHeader + sizeof_AoEHeader <= fstart request)%nat ->
  queue_at (queue c) (snd srcAddr) = Some (i, r) ->
  invokeId r = 0 ->
  (Frame_size request + (sizeof_AmsTcpHeader + sizeof_AoEHeader) <= txroom (socket c))%nat ->
  exists id request' c',
    Write request destAddr srcAddr cmdId false c = Done (Some i, request', c') /\
    0 < id < 2 ^ 32 /\
    queue c' !! i = Some (set_invokeId id r) /\
    Wait (set_invokeId id r) = false /\
    (forall j, j <> i -> queue c' !! j = queue c !! j) /\
    tx (socket c') = tx (socket c) ++ Frame_data request' /\
    AoE_invokeId (take sizeof_AoEHeader (drop sizeof_AmsTcpHeader (Frame_data request'))) = id.
Proof.
  intros Hc Hwf Hroom Hq Hr Htx.
  unfold sizeof_AmsTcpHeader, sizeof_AoEHeader in Hroom, Htx.
  destruct (GetInvokeId_Done c) as (id & Hid & HG).
  pose proof (GetInvokeId_value _ _ _ HG) as Hval.
  assert (Hrange : 0 < id < 2 ^ 32).
  { unfold uint32 in Hc. rewrite Hval. case_decide; lia. }
  set (aoe := AoEHeader_make destAddr srcAddr cmdId AMS_REQUEST
                (Z.of_nat (Frame_size request) mod 2 ^ 32) id).
  assert (Haoe : length aoe = 32%nat) by apply length_AoEHeader_make.
  destruct (Frame_prepend_Done aoe request) as (r1 & E1 & Hs1 & He1 & Hwf1); [lia|].
  destruct (Hwf1 Hwf) as (Hw1 & Hc1 & Hz1).
  set (tcp := AmsTcpHeader_make (Z.of_nat (Frame_size r1) mod 2 ^ 32)).
  assert (Htcp : length tcp = 6%nat) by apply length_AmsTcpHeader_make.
  destruct (Frame_prepend_Done tcp r1) as (r2 & E2 & Hs2 & He2 & Hwf2); [lia|].
  destruct (Hwf2 Hw1) as (Hw2 & Hc2 & Hz2).
  assert (Hinv : AoE_invokeId aoe = id).
  { unfold aoe. rewrite AoE_invokeId_make. apply Z.mod_small. lia. }
  pose proof (length_Frame_data _ Hw2) as HL.
  assert (HW : Write request destAddr srcAddr cmdId false c =
    Done (Some i, r2,
      set_socket
        (mkSocket (rx (socket c)) (tx (socket c) ++ Frame_data r2)
                  (txroom (socket c) - Frame_size r2))
        (set_queue (<[i := set_invokeId id r]> (queue c))
                   (set_conn_invokeId ((id + 1) mod 2 ^ 32) c)))).
  { unfold Write. rewrite HG. cbn [mbind outcome_bind].
    fold aoe. rewrite E1. cbn [mbind outcome_bind].
    fold tcp. rewrite E2. cbn [mbind outcome_bind].
    rewrite Hinv. erewrite Reserve_free by done. cbn [mbind outcome_bind].
    cbn [socket_write set_queue socket set_conn_invokeId].
    rewrite HL. rewrite Nat.min_l by lia.
    rewrite decide_False by lia.
    rewrite <- HL at 1. rewrite firstn_all. reflexivity. }
  exists id, r2. eexists. split; [exact HW|].
  apply queue_at_Some in Hq as (_ & _ & Hi).
  cbn [set_socket set_queue queue socket tx].
  split; [done|].
  split; [by rewrite list_lookup_insert_eq by (by eapply lookup_lt_Some)|].
  split; [unfold Wait; apply bool_decide_eq_false; cbn; lia|].
  split; [intros j Hj; by rewrite list_lookup_insert_ne|].
  split; [done|].
  assert (Hdata : Frame_data r2 = tcp ++ aoe ++ Frame_data request).
  { clear HW. revert E1 E2. unfold Frame_prepend.
    rewrite !decide_True by lia. intros [= <-] [= <-].
    destruct Hwf as [Hf1 Hf2]. unfold Frame_capacity in Hf2.
    unfold Frame_data, Frame_size, write_at. cbn [fstart fend storage].
    rewrite Haoe, Htcp.
    assert (Hlt : length (take (fstart request - 32) (storage request)) =
                  (fstart request - 32)%nat) by (rewrite length_take; lia).
    rewrite take_app_le by lia. rewrite take_take.
    rewrite Nat.min_l by lia.
    rewrite drop_app_length' by (rewrite length_take; lia).
    rewrite (drop_app_ge (take _ _)) by lia.
    rewrite Hlt.
    replace (fstart request - 32 - 6 + 6 - (fstart request - 32))%nat with 0%nat by lia.
    rewrite drop_0.
    replace (fstart request - 32 + 32)%nat with (fstart request) by lia.
    replace (fend request - (fstart request - 32 - 6))%nat
      with (6 + (32 + (fend request - fstart request)))%nat by lia.
    rewrite <- Htcp at 1. rewrite take_app_add.
    rewrite <- Haoe at 1. rewrite take_app_add. reflexivity. }
  rewrite Hdata. unfold sizeof_AmsTcpHeader, sizeof_AoEHeader.
  rewrite drop_app_length' by done. rewrite take_app_length' by done. exact Hinv.
Qed.

(** ** The reader consumes the stream and ends with it *)

Lemma Receive_stream (n : nat) (s : list (list byte)) (bs : list byte)
    (s' : list (list byte)) :
  Receive n s = Some (bs, s') -> concat s = bs ++ concat s'.
Proof.
  revert n bs s'. induction s as [|seg rest IH]; intros n bs s'.
  - destruct n; [|done]. by intros [= <- <-].
  - destruct n as [|n]; [by intros [= <- <-]|].
    destruct seg as [|b seg]; [done|].
    cbn [Receive].
    destruct (decide (length (b :: seg) <= S n)%nat) as [Hle|Hgt].
    + destruct (Receive _ rest) as [[bs1 s1]|] eqn:E; [|done].
      intros [= <- <-]. apply IH in E. cbn [concat]. rewrite E.
      by rewrite app_assoc.
    + intros [= <- <-]. cbn [concat app].
      by rewrite <- (take_drop n seg) at 1; rewrite <- app_assoc.
Qed.

Lemma Receive_size (n : nat) (s : list (list byte)) (bs : list byte)
    (s' : list (list byte)) :
  Receive n s = Some (bs, s') ->
  length (concat s) = (n + length (concat s'))%nat.
Proof.
  intros H. apply Receive_length in H as Hl. apply Receive_stream in H.
  rewrite H, length_app. lia.
Qed.

Lemma ReceiveJunk_size (n : nat) (s s' : list (list byte)) :
  ReceiveJunk n s = Done s' ->
  length (concat s) = (n + length (concat s'))%nat.
Proof.
  rewrite ReceiveJunk_Receive.
  destruct (Receive n s) as [[bs s1]|] eqn:E; [|done].
  intros [= <-]. by eapply Receive_size.
Qed.

Lemma ring_receive_size (fuel n : nat) (r : RingBuffer) (s : list (list byte))
    (r' : RingBuffer) (s' : list (list byte)) :
  ring_receive fuel n r s = Done (r', s') ->
  length (concat s) = (n + length (concat s'))%nat.
Proof.
  revert n r s. induction fuel as [|fuel IH]; intros n r s; cbn [ring_receive].
  - destruct (decide (WriteChunk r < n)%nat); [done|].
    destruct (Receive n s) as [[bs s1]|] eqn:E; [|done].
    intros [= <- <-]. by eapply Receive_size.
  - destruct (decide (WriteChunk r < n)%nat).
    + destruct (Receive (WriteChunk r) s) as [[bs s1]|] eqn:E; [|done].
      intros H. apply IH in H. apply Receive_size in E. lia.
    + destruct (Receive n s) as [[bs s1]|] eqn:E; [|done].
      intros [= <- <-]. by eapply Receive_size.
Qed.

(** Every turn of the loop takes at least the six bytes of an AmsTcpHeader
    off the stream. *)
Lemma Recv_body_size (c c' : AmsConnection) :
  Recv_body c = Done c' ->
  (sizeof_AmsTcpHeader + length (concat (rx (socket c'))) <=
   length (concat (rx (socket c))))%nat.
Proof.
  unfold Recv_body, ReceiveNotification, GetPending, ReceiveFrame,
    DispatcherList_Get.
  unfold mbind, outcome_bind.
  intros H. repeat (case_match; simplify_eq).
  all: repeat match goal with
       | H : Receive _ _ = Some _ |- _ => apply Receive_size in H
       | H : ReceiveJunk _ _ = Done _ |- _ => apply ReceiveJunk_size in H
       | H : ring_receive _ _ _ _ = Done _ |- _ => apply ring_receive_size in H
       end.
  all: cbn [set_rx set_queue set_dispatchers LOG_WARN socket rx] in *.
  all: lia.
Qed.

Lemma ring_receive_fuel (fuel n : nat) (r : RingBuffer) (s : list (list byte)) :
  RingBuffer_wf r ->
  (n <= BytesFree r)%nat ->
  (n <= fuel)%nat ->
  ring_receive fuel n r s <> OutOfFuel.
Proof.
  revert n r s. induction fuel as [|fuel IH]; intros n r s Hwf Hfree Hfuel;
    cbn [ring_receive].
  - rewrite decide_False by lia. by destruct (Receive n s) as [[? ?]|].
  - destruct (decide (WriteChunk r < n)%nat) as [Hloop|Hfit].
    + destruct (Receive (WriteChunk r) s) as [[bs s1]|] eqn:E; [|done].
      apply Receive_length in E.
      destruct (ring_write_chunk r bs Hwf) as (_ & H2 & _ & _ & _ & H6); [lia|].
      rewrite E in H2, H6.
      assert (1 <= WriteChunk r)%nat.
      { destruct Hwf as [Hw _]. unfold WriteChunk in *. lia. }
      apply IH; [done|lia|lia].
    + by destruct (Receive n s) as [[? ?]|].
Qed.

Lemma ReceiveJunk_fuel (n : nat) (s : list (list byte)) :
  ReceiveJunk n s <> OutOfFuel.
Proof. rewrite ReceiveJunk_Receive. by destruct (Receive n s) as [[? ?]|]. Qed.

Lemma Recv_body_fuel (c : AmsConnection) :
  connection_wf c -> Recv_body c <> OutOfFuel.
Proof.
  intros (_ & _ & _ & Hr).
  unfold Recv_body, ReceiveNotification, GetPending, ReceiveFrame,
    DispatcherList_Get.
  unfold mbind, outcome_bind.
  repeat (case_match; simplify_eq); try done.
  all: exfalso.
  all: try (eapply ReceiveJunk_fuel; eassumption).
  all: match goal with
       | H : ring_receive _ _ _ _ = OutOfFuel |- _ =>
           revert H; apply ring_receive_fuel; [eapply Hr; eassumption|lia|lia]
       end.
Qed.

Lemma ring_receive_throws (fuel n : nat) (r : RingBuffer) (s : list (list byte))
    (e : error) :
  ring_receive fuel n r s = Thrown e -> e = SocketError.
Proof.
  revert n r s. induction fuel as [|fuel IH]; intros n r s; cbn [ring_receive];
    repeat (case_match; simplify_eq); try done; try congruence; eauto.
Qed.

Lemma ReceiveJunk_throws (n : nat) (s : list (list byte)) (e : error) :
  ReceiveJunk n s = Thrown e -> e = SocketError.
Proof.
  rewrite ReceiveJunk_Receive. destruct (Receive n s) as [[? ?]|]; congruence.
Qed.

Lemma Recv_body_throws (c : AmsConnection) (e : error) :
  Recv_body c = Thrown e -> e = SocketError.
Proof.
  unfold Recv_body, ReceiveNotification, GetPending, ReceiveFrame,
    DispatcherList_Get.
  unfold mbind, outcome_bind.
  intros H. repeat (case_match; simplify_eq);
    eauto using ring_receive_throws, ReceiveJunk_throws.
Qed.

(** [Recv] on a stream that ends: the reader does not hang; it leaves the
    loop by the exception of the socket (or, for a target port without a
    slot, by leaving the bounds of the table). *)
Lemma Recv_terminates (fuel : nat) (c : AmsConnection) :
  connection_wf c ->
  (length (concat (rx (socket c))) < sizeof_AmsTcpHeader * fuel)%nat ->
  Recv fuel c = Thrown SocketError \/ Recv fuel c = Undefined.
Proof.
  revert c. induction fuel as [|fuel IH]; intros c Hwf Hsize; [lia|].
  cbn [Recv]. unfold mbind, outcome_bind.
  destruct (Recv_body c) as [c'|e| |] eqn:E; auto.
  - apply IH; [by eapply Recv_body_wf|].
    apply Recv_body_size in E. lia.
  - apply Recv_body_throws in E as ->. by left.
  - by apply Recv_body_fuel in E.
Qed.

(** ** Further properties of the code *)

Lemma Receive_open (n : nat) (s : list (list byte)) (bs : list byte)
    (s' : list (list byte)) :
  open_stream s -> Receive n s = Some (bs, s') -> open_stream s'.
Proof.
  unfold open_stream. revert n bs s'.
  induction s as [|seg rest IH]; intros n bs s' Hs.
  - destruct n; [|done]. by intros [= <- <-].
  - destruct n as [|n]; [by intros [= <- <-]|].
    destruct seg as [|b seg]; [done|].
    apply Forall_cons in Hs as [_ Hrest].
    cbn [Receive].
    destruct (decide (length (b :: seg) <= S n)%nat) as [Hle|Hgt].
    + destruct (Receive _ rest) as [[bs1 s1]|] eqn:E; [|done].
      intros [= <- <-]. eauto.
    + intros [= <- <-]. apply Forall_cons. split; [|done].
      intros E. apply (f_equal length) in E. rewrite length_drop in E.
      cbn [length] in *. lia.
Qed.

Lemma Receive_enough (n : nat) (s : list (list byte)) :
  open_stream s -> (n <= length (concat s))%nat ->
  exists bs s', Receive n s = Some (bs, s').
Proof.
  unfold open_stream. revert n.
  induction s as [|seg rest IH]; intros n Hs Hn.
  - cbn in Hn. assert (n = 0)%nat as -> by lia. eauto.
  - destruct n as [|n]; [rewrite Receive_0; eauto|].
    apply Forall_cons in Hs as [Hseg Hrest].
    destruct seg as [|b seg]; [done|].
    cbn [Receive].
    destruct (decide (length (b :: seg) <= S n)%nat) as [Hle|Hgt]; [|eauto].
    cbn [concat] in Hn. rewrite length_app in Hn.
    destruct (IH (S n - length (b :: seg))%nat Hrest) as (bs & s' & ->); [lia|].
    eauto.
Qed.

(** X1.  [Receive] hands out exactly the next [bytesToRead] bytes of the
    stream, in order and however the reads cut them, and leaves the rest of
    the stream on the socket; asked for no byte it does not touch the socket;
    and on a stream whose reads give at least a byte each it throws exactly
    when the stream ends before [bytesToRead] bytes. *)
Theorem Receive_exact (n : nat) (s : list (list byte)) :
  (forall bs s', Receive n s = Some (bs, s') ->
     length bs = n /\ concat s = bs ++ concat s' /\
     (open_stream s -> open_stream s')) /\
  (n = 0%nat -> Receive n s = Some ([], s)) /\
  (open_stream s ->
     (Receive n s = None <-> (length (concat s) < n)%nat)).
Proof.
  split; [|split].
  - intros bs s' H. split; [by eapply Receive_length|].
    split; [by eapply Receive_stream|].
    intros Hs. by eapply Receive_open.
  - intros ->. apply Receive_0.
  - intros Hs. split.
    + intros HN. destruct (decide (length (concat s) < n)%nat) as [|Hge]; [done|].
      destruct (Receive_enough n s Hs) as (bs & s' & E); [lia|]. congruence.
    + intros Hlt. destruct (Receive n s) as [[bs s']|] eqn:E; [|done].
      apply Receive_size in E. lia.
Qed.

(** X2.  [ReceiveJunk] takes off the socket exactly the bytes one [Receive]
    of the same size would take, whatever the size and the cut of the
    stream: going through the 1024-byte buffer changes neither what is
    consumed nor when the socket throws, and the loop always ends. *)
Theorem ReceiveJunk_drops (n : nat) (s : list (list byte)) :
  (forall s', ReceiveJunk n s = Done s' <->
     exists bs, Receive n s = Some (bs, s')) /\
  (forall s', ReceiveJunk n s = Done s' ->
     exists bs, length bs = n /\ concat s = bs ++ concat s') /\
  (ReceiveJunk n s = Thrown SocketError <-> Receive n s = None) /\
  ReceiveJunk n s <> OutOfFuel /\ ReceiveJunk n s <> Undefined /\
  ReceiveJunk n s <> Thrown BufferTooSmall.
Proof.
  rewrite ReceiveJunk_Receive.
  destruct (Receive n s) as [[bs s1]|] eqn:E.
  - repeat split; try done.
    + intros [= <-]. eauto.
    + intros [bs' [= <- <-]]. done.
    + intros s' [= <-]. exists bs.
      split; [by eapply Receive_length|by eapply Receive_stream].
  - repeat split; try done.
    intros [bs' ?]. done.
Qed.

(** X3.  A frame whose AmsTcpHeader advertises less than the 32 bytes of an
    AoEHeader is no AoE frame: the reader logs it, takes the advertised
    bytes off the socket without reading an AoEHeader out of them, and goes
    on; no slot, no dispatcher and no counter is touched. *)
Theorem Recv_frame_too_short (c : AmsConnection) (tcp junk : list byte)
    (s' : list (list byte)) :
  length tcp = sizeof_AmsTcpHeader ->
  AmsTcpHeader_length tcp < Z.of_nat sizeof_AoEHeader ->
  AmsTcpHeader_length tcp = Z.of_nat (length junk) ->
  delivers (rx (socket c)) (tcp ++ junk) s' ->
  exists c',
    Recv_body c = Done c' /\
    rx (socket c') = s' /\
    log c' = log c ++ [FrameTooShort] /\
    queue c' = queue c /\
    dispatcherList c' = dispatcherList c /\ store c' = store c /\
    conn_invokeId c' = conn_invokeId c /\
    tx (socket c') = tx (socket c).
Proof.
  intros Ht Hshort Hlen Hd.
  apply Receive_split in Hd as (s1 & H1 & H2). unfold delivers in H1, H2.
  rewrite Ht in H1.
  unfold Recv_body. rewrite H1, decide_True by done.
  rewrite ReceiveJunk_Receive. cbn [LOG_WARN set_rx socket rx].
  rewrite Hlen, Nat2Z.id, H2.
  eexists. split; [reflexivity|]. done.
Qed.

(** X4.  A DEVICE_NOTIFICATION for a local port and source address no
    dispatcher was created for: [ReceiveNotification] takes its bytes off
    the socket, logs that there is no dispatcher and returns false; nothing
    is stored anywhere and the reader goes on. *)
Theorem Recv_notification_without_dispatcher (c : AmsConnection)
    (tcp aoe payload : list byte) (s' : list (list byte)) :
  frame_arrives c tcp aoe payload s' ->
  AoE_cmdId aoe = DEVICE_NOTIFICATION ->
  dl_list (dispatcherList c) !! (AoE_targetPort aoe, AoE_sourceAms aoe) = None ->
  exists s2 c',
    delivers s2 payload s' /\
    ReceiveNotification aoe (set_rx s2 c) = Done (false, c') /\
    Recv_body c = Done c' /\
    rx (socket c') = s' /\
    log c' = log c ++ [NoDispatcher] /\
    queue c' = queue c /\
    store c' = store c /\
    dl_list (dispatcherList c') = dl_list (dispatcherList c).
Proof.
  intros Hf Hcmd Hk.
  destruct (frame_arrives_reads _ _ _ _ _ Hf) as (s1 & s2 & H1 & H2 & H3).
  destruct Hf as (_ & _ & Htcp & Hlen & _).
  assert (HRN : ReceiveNotification aoe (set_rx s2 c) =
    Done (false,
          LOG_WARN NoDispatcher
            (set_rx s'
               (set_dispatchers
                  (mkDispatcherList (dl_list (dispatcherList c))
                     (dl_mutex (dispatcherList c))
                     (dl_trace (dispatcherList c) ++
                      [(Find (AoE_targetPort aoe, AoE_sourceAms aoe),
                        S (dl_mutex (dispatcherList c)))]))
                  (store c) (set_rx s2 c))))).
  { unfold ReceiveNotification. rewrite DispatcherList_Get_eq.
    cbn [set_rx dispatcherList]. rewrite Hk.
    rewrite ReceiveJunk_Receive.
    cbn [set_dispatchers set_rx socket rx]. by rewrite H3. }
  exists s2. eexists. split.
  { unfold delivers. by rewrite Hlen, Nat2Z.id in H3. }
  split; [exact HRN|]. split.
  { unfold Recv_body. rewrite H1. rewrite decide_False by lia.
    cbn [set_rx socket rx]. rewrite H2. rewrite decide_True by done.
    change (set_rx s2 (set_rx s1 c)) with (set_rx s2 c).
    by rewrite HRN. }
  done.
Qed.

Lemma ring_receive_stream (fuel n : nat) (r : RingBuffer) (s : list (list byte))
    (r' : RingBuffer) (s' : list (list byte)) :
  ring_receive fuel n r s = Done (r', s') ->
  exists bs, length bs = n /\ concat s = bs ++ concat s'.
Proof.
  revert n r s. induction fuel as [|fuel IH]; intros n r s; cbn [ring_receive].
  - destruct (decide (WriteChunk r < n)%nat); [done|].
    destruct (Receive n s) as [[bs s1]|] eqn:E; [|done].
    intros [= <- <-]. exists bs.
    split; [by eapply Receive_length|by eapply Receive_stream].
  - destruct (decide (WriteChunk r < n)%nat).
    + destruct (Receive (WriteChunk r) s) as [[bs s1]|] eqn:E; [|done].
      intros H. apply IH in H as (bs2 & L2 & E2).
      exists (bs ++ bs2). apply Receive_length in E as L1.
      apply Receive_stream in E. rewrite length_app, E, E2, app_assoc.
      split; [lia|done].
    + destruct (Receive n s) as [[bs s1]|] eqn:E; [|done].
      intros [= <- <-]. exists bs.
      split; [by eapply Receive_length|by eapply Receive_stream].
Qed.

Lemma ReceiveJunk_stream (n : nat) (s s' : list (list byte)) :
  ReceiveJunk n s = Done s' ->
  exists bs, length bs = n /\ concat s = bs ++ concat s'.
Proof.
  rewrite ReceiveJunk_Receive.
  destruct (Receive n s) as [[bs s1]|] eqn:E; [|done].
  intros [= <-]. exists bs.
  split; [by eapply Receive_length|by eapply Receive_stream].
Qed.

Lemma Receive_stream' (n : nat) (s : list (list byte)) (bs : list byte)
    (s' : list (list byte)) :
  Receive n s = Some (bs, s') ->
  exists bs', length bs' = n /\ concat s = bs' ++ concat s'.
Proof.
  intros H. exists bs.
  split; [by eapply Receive_length|by eapply Receive_stream].
Qed.

Lemma Recv_body_stream (c c' : AmsConnection) :
  Recv_body c = Done c' ->
  exists bs, (sizeof_AmsTcpHeader <= length bs)%nat /\
             concat (rx (socket c)) = bs ++ concat (rx (socket c')).
Proof.
  unfold Recv_body, ReceiveNotification, GetPending, ReceiveFrame,
    DispatcherList_Get.
  unfold mbind, outcome_bind.
  intros H. repeat (case_match; simplify_eq).
  all: repeat match goal with
       | H : Receive _ _ = Some _ |- _ =>
           apply Receive_stream' in H as (? & ? & ?)
       | H : ReceiveJunk _ _ = Done _ |- _ =>
           apply ReceiveJunk_stream in H as (? & ? & ?)
       | H : ring_receive _ _ _ _ = Done _ |- _ =>
           apply ring_receive_stream in H as (? & ? & ?)
       end.
  all: cbn [set_rx set_queue set_dispatchers LOG_WARN socket rx] in *.
  all: repeat match goal with
       | H : concat ?s = _ ++ concat _ |- context [concat ?s] =>
           rewrite H; clear H
       end.
  all: rewrite ?app_assoc.
  all: eexists; (split; [|reflexivity]).
  all: rewrite ?length_app; lia.
Qed.

Lemma Recv_body_log (c c' : AmsConnection) :
  Recv_body c = Done c' -> log c `prefix_of` log c'.
Proof.
  unfold Recv_body, ReceiveNotification, GetPending, ReceiveFrame,
    DispatcherList_Get.
  unfold mbind, outcome_bind.
  intros H. repeat (case_match; simplify_eq).
  all: cbn [set_rx set_queue set_dispatchers LOG_WARN log].
  all: repeat first [done | apply prefix_app_r].
Qed.

Lemma Recv_body_socket (c c' : AmsConnection) :
  Recv_body c = Done c' ->
  tx (socket c') = tx (socket c) /\ txroom (socket c') = txroom (socket c) /\
  conn_invokeId c' = conn_invokeId c /\ length (queue c') = length (queue c).
Proof.
  unfold Recv_body, ReceiveNotification, GetPending, ReceiveFrame,
    DispatcherList_Get.
  unfold mbind, outcome_bind.
  intros H. repeat (case_match; simplify_eq).
  all: cbn [set_rx set_queue set_dispatchers LOG_WARN socket tx txroom
            conn_invokeId queue].
  all: rewrite ?length_insert; done.
Qed.

(** X5.  What a turn of the reader's loop never does: it writes nothing to
    the socket, draws no invoke id, adds and removes no slot and no
    dispatcher, and takes nothing back from the log.  What it takes off the
    socket is the front of the stream, at least the six bytes of an
    AmsTcpHeader, so the stream is read in order and a turn always makes
    progress. *)
Theorem Recv_body_reads_only (c c' : AmsConnection) :
  Recv_body c = Done c' ->
  tx (socket c') = tx (socket c) /\
  txroom (socket c') = txroom (socket c) /\
  conn_invokeId c' = conn_invokeId c /\
  length (queue c') = length (queue c) /\
  dl_list (dispatcherList c') = dl_list (dispatcherList c) /\
  brk (store c') = brk (store c) /\
  (forall q, is_Some (objects (store c) !! q) -> is_Some (objects (store c') !! q)) /\
  log c `prefix_of` log c' /\
  exists bs, (sizeof_AmsTcpHeader <= length bs)%nat /\
             concat (rx (socket c)) = bs ++ concat (rx (socket c')).
Proof.
  intros H.
  destruct (Recv_body_socket _ _ H) as (H1 & H2 & H3 & H4).
  destruct (Recv_body_dispatchers _ _ H) as (H5 & H6 & H7).
  split; [done|]. split; [done|]. split; [done|]. split; [done|].
  split; [done|]. split; [done|]. split; [done|].
  split; [by apply Recv_body_log|by apply Recv_body_stream].
Qed.

(** X6.  The reader ends with its stream.  On a stream that ends, [Recv]
    completes some turns of its loop and is then left by the exception the
    socket throws at the end of the stream, which [TryRecv] catches, so the
    thread function returns; the only other way out is a frame whose target
    port has no slot.  The loop never spins. *)
Theorem TryRecv_returns (fuel : nat) (c : AmsConnection) :
  connection_wf c ->
  (length (concat (rx (socket c))) < sizeof_AmsTcpHeader * fuel)%nat ->
  exists n c',
    (n < fuel)%nat /\
    Recv_turns n c = Done c' /\
    ((Recv_body c' = Thrown SocketError /\ Recv fuel c = Thrown SocketError /\
      TryRecv fuel c = Done SocketError) \/
     (Recv_body c' = Undefined /\ Recv fuel c = Undefined /\
      TryRecv fuel c = Undefined)).
Proof.
  revert c. induction fuel as [|fuel IH]; intros c Hwf Hsize; [lia|].
  unfold TryRecv. cbn [Recv]. unfold mbind, outcome_bind.
  destruct (Recv_body c) as [c1|e| |] eqn:E.
  - destruct (IH c1) as (n & c' & Hn & Ht & Hend).
    { by eapply Recv_body_wf. }
    { apply Recv_body_size in E. lia. }
    exists (S n), c'. split; [lia|]. split.
    { cbn [Recv_turns]. unfold mbind, outcome_bind. by rewrite E. }
    unfold TryRecv in Hend.
    destruct Hend as [(H1 & H2 & H3)|(H1 & H2 & H3)]; [left|right];
      rewrite H2 in *; done.
  - apply Recv_body_throws in E as He. subst e.
    exists 0%nat, c. split; [lia|]. split; [reflexivity|]. left. done.
  - exists 0%nat, c. split; [lia|]. split; [reflexivity|]. right. done.
  - by apply Recv_body_fuel in E.
Qed.

Lemma GetPending_defined (id port : Z) (c : AmsConnection) :
  GetPending id port c <> Undefined <->
  PORT_BASE <= port < PORT_BASE + Z.of_nat (length (queue c)).
Proof.
  unfold GetPending.
  destruct (queue_at (queue c) port) as [[i r]|] eqn:E.
  - assert (queue_at (queue c) port <> None) as Hn by congruence.
    rewrite queue_at_None in Hn. split; [lia|]. intros _. by case_decide.
  - apply queue_at_None in E. split; [done|lia].
Qed.

Lemma Reserve_defined (id port : Z) (spurious : bool) (c : AmsConnection) :
  Reserve id port spurious c <> Undefined <->
  PORT_BASE <= port < PORT_BASE + Z.of_nat (length (queue c)).
Proof.
  unfold Reserve.
  destruct (queue_at (queue c) port) as [[i r]|] eqn:E.
  - assert (queue_at (queue c) port <> None) as Hn by congruence.
    rewrite queue_at_None in Hn. split; [lia|]. intros _. by case_decide.
  - apply queue_at_None in E. split; [done|lia].
Qed.

(** X7.  The state the constructor leaves and every state reached from it by
    completed calls keep the slot table at its [NUM_PORTS_MAX] slots, the
    invoke-id counter a 32-bit value, the dispatcher list pointing at
    dispatchers that exist, and the cursors of every ring inside its
    storage.  So in every such state the slot lookups of [GetPending] and
    [Reserve] stay inside the table exactly for the ports from [PORT_BASE]
    to [PORT_BASE + NUM_PORTS_MAX - 1]. *)
Theorem reachable_invariant (s : Socket) (c : AmsConnection) :
  rtc step (AmsConnection_new s) c ->
  connection_wf c /\
  (forall id port,
     GetPending id port c <> Undefined <->
     PORT_BASE <= port < PORT_BASE + Z.of_nat NUM_PORTS_MAX) /\
  (forall id port spurious,
     Reserve id port spurious c <> Undefined <->
     PORT_BASE <= port < PORT_BASE + Z.of_nat NUM_PORTS_MAX).
Proof.
  intros H. apply reachable_wf in H as Hwf. split; [done|].
  destruct Hwf as (_ & Hlen & _).
  split.
  - intros id port. by rewrite GetPending_defined, Hlen.
  - intros id port spurious. by rewrite Reserve_defined, Hlen.
Qed.





Lemma slot_wf_Release (r : AmsResponse) : slot_wf r -> slot_wf (Release_slot r).
Proof.
  intros [Hcap Hwf]. split; [exact Hcap|].
  unfold Release_slot, Frame_reset, Frame_wf, Frame_capacity.
  cbn [set_invokeId set_frame frame storage fstart fend]. lia.
Qed.

Lemma slot_wf_set_invokeId (id : Z) (r : AmsResponse) :
  slot_wf r -> slot_wf (set_invokeId id r).
Proof. done. Qed.








Lemma dispatchers_keyed_new (s : Socket) : dispatchers_keyed (AmsConnection_new s).
Proof. intros k p. unfold AmsConnection_new. cbn [dispatcherList dl_list]. done. Qed.

Lemma CreateNotifyMapping_keyed (port : Z) (addr : AmsAddr) (pFunc hUser len hNotify : Z)
    (c : AmsConnection) (id : Z * nat) (c' : AmsConnection) :
  CreateNotifyMapping port addr pFunc hUser len hNotify c = Done (id, c') ->
  dispatchers_wf (dispatcherList c) (store c) ->
  dispatchers_keyed c -> dispatchers_keyed c'.
Proof.
  unfold CreateNotifyMapping, dispatchers_keyed. rewrite DispatcherList_Add_eq.
  destruct (dl_list (dispatcherList c) !! (port, addr)) as [p|] eqn:E.
  - destruct (objects (store c) !! p) as [d|] eqn:Ed; [|done].
    intros H Hwf Hk. simplify_eq.
    cbn [set_dispatchers dispatcherList store dl_list objects].
    intros k q Hq. destruct (Hk _ _ Hq) as (d' & Hd' & Hl & Hr).
    rewrite lookup_insert. destruct (decide (p = q)) as [->|Hne]; [|eauto].
    simplify_eq. eexists. split; [reflexivity|]. done.
  - cbn [objects]. rewrite lookup_insert_eq.
    intros H Hwf Hk. simplify_eq.
    cbn [set_dispatchers dispatcherList store dl_list objects].
    intros k q. rewrite insert_insert_eq.
    destruct (decide ((port, addr) = k)) as [<-|Hne].
    + rewrite lookup_insert_eq. intros [= <-]. rewrite lookup_insert_eq.
      eexists. split; [reflexivity|]. done.
    + rewrite lookup_insert_ne by done. intros Hq.
      destruct (Hwf _ _ Hq) as [Hlt _].
      rewrite lookup_insert_ne by lia. eauto.
Qed.

Lemma Recv_body_keyed (c c' : AmsConnection) :
  Recv_body c = Done c' -> dispatchers_keyed c -> dispatchers_keyed c'.
Proof.
  unfold dispatchers_keyed, Recv_body, ReceiveNotification, GetPending,
    ReceiveFrame, DispatcherList_Get.
  unfold mbind, outcome_bind.
  intros H Hk. repeat (case_match; simplify_eq);
    cbn [set_queue set_rx set_dispatchers LOG_WARN dispatcherList store
         dl_list objects lock unlock access] in *; try done.
  intros k q Hq. destruct (Hk _ _ Hq) as (d' & Hd' & Hl & Hr).
  rewrite lookup_insert. destruct (decide (_ = q)) as [->|Hne]; [|eauto].
  simplify_eq. eexists. split; [reflexivity|]. done.
Qed.

Lemma step_keyed (c c' : AmsConnection) :
  step c c' -> connection_wf c -> dispatchers_keyed c -> dispatchers_keyed c'.
Proof.
  intros Hstep (_ & _ & Hwf & _).
  inversion Hstep as [? ? ? ? ? ? ? ? ? H|? ? ? ? ? ? ? ? ? H|? ? H]; subst.
  - by eapply CreateNotifyMapping_keyed.
  - apply Write_dispatchers in H as [Hd Hs]. unfold dispatchers_keyed.
    by rewrite Hd, Hs.
  - by eapply Recv_body_keyed.
Qed.

Lemma steps_keyed (c c' : AmsConnection) :
  rtc step c c' -> connection_wf c -> dispatchers_keyed c -> dispatchers_keyed c'.
Proof.
  induction 1 as [|c c1 c2 Hstep _ IH]; [done|]. intros Hwf Hk.
  apply IH; [by eapply step_wf|by eapply step_keyed].
Qed.

(** X9.  A dispatcher serves the connection it is filed under.  In every
    state reached from the constructor, the dispatcher the list holds for a
    local port and remote address is the one built with that remote address
    and local port, so two different keys never share a dispatcher, and a
    notification looked up by its target port and source address reaches
    the ring of that subscription channel and of no other. *)
Theorem reachable_dispatchers_keyed (s : Socket) (c : AmsConnection) :
  rtc step (AmsConnection_new s) c ->
  (forall k p, dl_list (dispatcherList c) !! k = Some p ->
     exists d, objects (store c) !! p = Some d /\
               localPort d = fst k /\ remoteAddr d = snd k) /\
  (forall k1 k2 p,
     dl_list (dispatcherList c) !! k1 = Some p ->
     dl_list (dispatcherList c) !! k2 = Some p -> k1 = k2) /\
  (forall k, fst (DispatcherList_Get k (dispatcherList c)) =
             dl_list (dispatcherList c) !! k).
Proof.
  intros H.
  assert (Hk : dispatchers_keyed c).
  { eapply steps_keyed; [exact H|apply AmsConnection_new_wf|apply dispatchers_keyed_new]. }
  split; [exact Hk|]. split; [|done].
  intros [p1 a1] [p2 a2] p H1 H2.
  destruct (Hk _ _ H1) as (d1 & Hd1 & Hl1 & Hr1).
  destruct (Hk _ _ H2) as (d2 & Hd2 & Hl2 & Hr2).
  simplify_eq. cbn [fst snd] in *. congruence.
Qed.

(** The invoke ids as residues: [id - 1] counts modulo [2^32 - 1]. *)
Lemma GetInvokeId_next (c : AmsConnection) (id : Z) (c1 : AmsConnection) :
  uint32 (conn_invokeId c) ->
  GetInvokeId c = Done (id, c1) ->
  0 < id < 2 ^ 32 /\
  uint32 (conn_invokeId c1) /\
  (forall id' c2, GetInvokeId c1 = Done (id', c2) ->
     id' - 1 = (id - 1 + 1) mod (2 ^ 32 - 1)).
Proof.
  intros Hc HG. pose proof (GetInvokeId_value _ _ _ HG) as Hid.
  destruct (GetInvokeId_Done c) as (id0 & _ & HG0). rewrite HG in HG0.
  injection HG0 as <- ->. cbn [set_conn_invokeId conn_invokeId].
  unfold uint32 in *.
  assert (Hrange : 0 < id < 2 ^ 32) by (rewrite Hid; case_decide; lia).
  split; [done|]. split; [apply Z.mod_pos_bound; lia|].
  intros id' c2 HG'. apply GetInvokeId_value in HG'.
  cbn [set_conn_invokeId conn_invokeId] in HG'. rewrite HG'.
  destruct (decide (id = 2 ^ 32 - 1)) as [->|Hne].
  - change ((2 ^ 32 - 1 + 1) mod 2 ^ 32) with 0. rewrite decide_True by done.
    replace (2 ^ 32 - 1 - 1 + 1) with (2 ^ 32 - 1) by lia.
    rewrite Z.mod_same by lia. lia.
  - rewrite (Z.mod_small (id + 1)) by lia. rewrite decide_False by lia.
    rewrite Z.mod_small by lia. lia.
Qed.

Lemma GetInvokeIds_from (k : nat) (c : AmsConnection) (id : Z) (c1 : AmsConnection) :
  uint32 (conn_invokeId c) ->
  GetInvokeId c = Done (id, c1) ->
  exists ids c2,
    GetInvokeIds k c1 = Done (ids, c2) /\ length ids = k /\
    forall j id', ids !! j = Some id' ->
      0 < id' < 2 ^ 32 /\ id' - 1 = (id - 1 + Z.of_nat (S j)) mod (2 ^ 32 - 1).
Proof.
  revert c id c1. induction k as [|k IH]; intros c id c1 Hc HG.
  - exists [], c1. split; [reflexivity|]. split; [done|]. intros j id'. done.
  - destruct (GetInvokeId_next _ _ _ Hc HG) as (Hid & Hc1 & Hnext).
    destruct (GetInvokeId_Done c1) as (id1 & _ & HG1).
    specialize (Hnext _ _ HG1).
    destruct (IH _ _ _ Hc1 HG1) as (ids & c2 & HGs & Hlen & Hnth).
    exists (id1 :: ids), c2. split.
    { cbn [GetInvokeIds]. rewrite HG1. cbn [mbind outcome_bind].
      rewrite HGs. reflexivity. }
    split; [cbn [length]; lia|].
    intros [|j] id'.
    + intros [= <-]. split; [|by rewrite Hnext].
      destruct (GetInvokeId_next _ _ _ Hc1 HG1) as (? & _). done.
    + intros Hj. destruct (Hnth _ _ Hj) as [Hr He]. split; [done|].
      rewrite He, Hnext. rewrite Zplus_mod_idemp_l. f_equal. lia.
Qed.

(** X10.  The invoke ids of one connection do not repeat before the counter
    has gone round: any run of up to [2^32 - 1] calls of [GetInvokeId]
    returns, and the ids it returns are all different and none of them is
    0. *)
Theorem GetInvokeIds_distinct (k : nat) (c : AmsConnection) :
  uint32 (conn_invokeId c) ->
  Z.of_nat k <= 2 ^ 32 - 1 ->
  exists ids c',
    GetInvokeIds k c = Done (ids, c') /\
    length ids = k /\
    NoDup ids /\
    Forall (fun id => 0 < id < 2 ^ 32) ids /\
    uint32 (conn_invokeId c').
Proof.
  intros Hc Hk. destruct k as [|k].
  { exists [], c. split; [reflexivity|]. split; [done|].
    split; [constructor|]. split; [constructor|done]. }
  destruct (GetInvokeId_Done c) as (id & _ & HG).
  destruct (GetInvokeIds_from k c id _ Hc HG) as (ids & c2 & HGs & Hlen & Hnth).
  destruct (GetInvokeId_next _ _ _ Hc HG) as (Hid & Hc1 & _).
  assert (Hall : forall j id', (id :: ids) !! j = Some id' ->
            0 < id' < 2 ^ 32 /\
            id' - 1 = (id - 1 + Z.of_nat j) mod (2 ^ 32 - 1)).
  { intros [|j] id'.
    - intros [= <-]. split; [done|]. rewrite Z.add_0_r, Z.mod_small; lia.
    - intros Hj. apply (Hnth j id' Hj). }
  exists (id :: ids), c2. split.
  { cbn [GetInvokeIds]. rewrite HG. cbn [mbind outcome_bind]. by rewrite HGs. }
  split; [cbn [length]; lia|]. split; [|split].
  - apply NoDup_alt. intros i j x Hi Hj.
    apply lookup_lt_Some in Hi as Li. apply lookup_lt_Some in Hj as Lj.
    cbn [length] in Li, Lj.
    destruct (Hall _ _ Hi) as [_ Ei]. destruct (Hall _ _ Hj) as [_ Ej].
    rewrite Ei in Ej.
    assert (Hd : (Z.of_nat i - Z.of_nat j) mod (2 ^ 32 - 1) = 0).
    { replace (Z.of_nat i - Z.of_nat j)
        with ((id - 1 + Z.of_nat i) - (id - 1 + Z.of_nat j)) by lia.
      rewrite Zminus_mod, Ej, Z.sub_diag. reflexivity. }
    apply Z.mod_divide in Hd; [|lia]. destruct Hd as [q Hq].
    assert (q = 0) by nia. lia.
  - apply Forall_lookup. intros j x Hj. by destruct (Hall _ _ Hj).
  - clear Hall Hnth. revert HGs Hc1. generalize (set_conn_invokeId ((id + 1) mod 2 ^ 32) c).
    clear. revert ids c2. induction k as [|k IH]; intros ids c2 c1; cbn [GetInvokeIds].
    + by intros [= <- <-].
    + destruct (GetInvokeId_Done c1) as (id1 & _ & ->). cbn [mbind outcome_bind].
      destruct (GetInvokeIds k _) as [[ids' c3]| | |] eqn:E; try done.
      cbn [mbind outcome_bind]. intros [= <- <-] Hc1. eapply IH; [exact E|].
      cbn [set_conn_invokeId conn_invokeId]. unfold uint32.
      apply Z.mod_pos_bound. lia.
Qed.

(** ** Requests on the wire *)

Lemma AmsTcpHeader_length_make (len : Z) :
  AmsTcpHeader_length (AmsTcpHeader_make len) = len mod 2 ^ 32.
Proof.
  unfold AmsTcpHeader_length, AmsTcpHeader_make.
  rewrite field_app_ge by (rewrite length_le_encode; lia).
  rewrite length_le_encode. cbn [Nat.sub].
  unfold field. rewrite drop_0, take_ge by (rewrite length_le_encode; lia).
  apply (le_decode_encode 4).
Qed.

Lemma AoE_sourceAms_make destAddr srcAddr cmdId stateFlags len id :
  AoE_sourceAms (AoEHeader_make destAddr srcAddr cmdId stateFlags len id) =
  (resize 6 x00 (fst srcAddr), snd srcAddr mod 2 ^ 16).
Proof.
  unfold AoE_sourceAms, AoEHeader_make. f_equal.
  - do 2 (rewrite field_app_ge by (rewrite ?length_resize, ?length_le_encode; lia);
          rewrite ?length_resize, ?length_le_encode; cbn [Nat.sub]).
    unfold field. rewrite drop_0, take_app_length' by (by rewrite length_resize).
    reflexivity.
  - do 3 (rewrite field_app_ge by (rewrite ?length_resize, ?length_le_encode; lia);
          rewrite ?length_resize, ?length_le_encode; cbn [Nat.sub]).
    unfold field. rewrite drop_0, take_app_length' by (by rewrite length_le_encode).
    apply (le_decode_encode 2).
Qed.

Lemma Frame_prepend_data (bs : list byte) (f f' : Frame) :
  Frame_wf f -> Frame_prepend bs f = Done f' ->
  Frame_data f' = bs ++ Frame_data f.
Proof.
  intros [H1 H2]. unfold Frame_prepend. case_decide as Hn; [|done].
  intros [= <-]. unfold Frame_capacity in H2.
  unfold Frame_data, Frame_size, write_at. cbn [fstart fend storage].
  rewrite drop_app_length' by (rewrite length_take; lia).
  replace (fstart f - length bs + length bs)%nat with (fstart f) by lia.
  replace (fend f - (fstart f - length bs))%nat
    with (length bs + (fend f - fstart f))%nat by lia.
  by rewrite take_app_add.
Qed.

(** [Write] up to the reservation, with the bytes of the frame it has
    built. *)
Lemma Write_frame (request : Frame) (destAddr srcAddr : AmsAddr) (cmdId : Z)
    (spurious : bool) (c : AmsConnection) :
  uint32 (conn_invokeId c) ->
  Frame_wf request ->
  (sizeof_AmsTcpHeader + sizeof_AoEHeader <= fstart request)%nat ->
  exists id request2,
    0 < id < 2 ^ 32 /\
    id = (if decide (conn_invokeId c = 0) then 1 else conn_invokeId c) /\
    Frame_wf request2 /\
    Frame_size request2 =
      (Frame_size request + (sizeof_AmsTcpHeader + sizeof_AoEHeader))%nat /\
    (fstart request2 = (fstart request - (sizeof_AmsTcpHeader + sizeof_AoEHeader))%nat /\
     fend request2 = fend request /\
     Frame_capacity request2 = Frame_capacity request) /\
    Frame_data request2 =
      AmsTcpHeader_make (Z.of_nat (Frame_size request + sizeof_AoEHeader) mod 2 ^ 32) ++
      AoEHeader_make destAddr srcAddr cmdId AMS_REQUEST
        (Z.of_nat (Frame_size request) mod 2 ^ 32) id ++
      Frame_data request /\
    Write request destAddr srcAddr cmdId spurious c =
    ('(response, c2) ← Reserve id (snd srcAddr) spurious
                          (set_conn_invokeId ((id + 1) mod 2 ^ 32) c);
     match response with
     | None => Done (None, request2, c2)
     | Some i =>
         let '(written, s) := socket_write (Frame_data request2) (socket c2) in
         let c3 := set_socket s c2 in
         if decide (Frame_size request2 <> written)
         then Done (None, request2, Release i c3)
         else Done (Some i, request2, c3)
     end).
Proof.
  intros Hc Hwf Hroom. unfold sizeof_AmsTcpHeader, sizeof_AoEHeader in *.
  destruct (GetInvokeId_Done c) as (id & Hid & HG).
  pose proof (GetInvokeId_value _ _ _ HG) as Hval.
  assert (Hrange : 0 < id < 2 ^ 32).
  { unfold uint32 in Hc. rewrite Hval. case_decide; lia. }
  set (aoe := AoEHeader_make destAddr srcAddr cmdId AMS_REQUEST
                (Z.of_nat (Frame_size request) mod 2 ^ 32) id).
  assert (Haoe : length aoe = 32%nat) by apply length_AoEHeader_make.
  destruct (Frame_prepend_Done aoe request) as (r1 & E1 & Hs1 & He1 & Hwf1); [lia|].
  destruct (Hwf1 Hwf) as (Hw1 & Hc1 & Hz1).
  set (tcp := AmsTcpHeader_make (Z.of_nat (Frame_size r1) mod 2 ^ 32)).
  assert (Htcp : length tcp = 6%nat) by apply length_AmsTcpHeader_make.
  destruct (Frame_prepend_Done tcp r1) as (r2 & E2 & Hs2 & He2 & Hwf2); [lia|].
  destruct (Hwf2 Hw1) as (Hw2 & Hc2 & Hz2).
  assert (Hinv : AoE_invokeId aoe = id).
  { unfold aoe. rewrite AoE_invokeId_make. apply Z.mod_small. lia. }
  exists id, r2. split; [done|]. split; [done|]. split; [done|].
  split; [lia|]. split; [repeat split; congruence || lia|]. split.
  - rewrite (Frame_prepend_data _ _ _ Hw1 E2), (Frame_prepend_data _ _ _ Hwf E1).
    unfold tcp. rewrite Hz1, Haoe. reflexivity.
  - unfold Write. rewrite HG. cbn [mbind outcome_bind].
    fold aoe. rewrite E1. cbn [mbind outcome_bind].
    fold tcp. rewrite E2. cbn [mbind outcome_bind].
    rewrite Hinv. reflexivity.
Qed.

(** The request that goes through, with the state it leaves. *)
Lemma Write_goes_through (request : Frame) (destAddr srcAddr : AmsAddr) (cmdId : Z)
    (c : AmsConnection) (i : nat) (r : AmsResponse) :
  uint32 (conn_invokeId c) ->
  Frame_wf request ->
  (sizeof_AmsTcpHeader + sizeof_AoEHeader <= fstart request)%nat ->
  queue_at (queue c) (snd srcAddr) = Some (i, r) ->
  invokeId r = 0 ->
  (Frame_size request + (sizeof_AmsTcpHeader + sizeof_AoEHeader) <= txroom (socket c))%nat ->
  exists id request',
    0 < id < 2 ^ 32 /\
    id = (if decide (conn_invokeId c = 0) then 1 else conn_invokeId c) /\
    Frame_wf request' /\
    Frame_size request' =
      (Frame_size request + (sizeof_AmsTcpHeader + sizeof_AoEHeader))%nat /\
    Write request destAddr srcAddr cmdId false c =
    Done (Some i, request',
      set_socket
        (mkSocket (rx (socket c)) (tx (socket c) ++ Frame_data request')
                  (txroom (socket c) - Frame_size request'))
        (set_queue (<[i := set_invokeId id r]> (queue c))
                   (set_conn_invokeId ((id + 1) mod 2 ^ 32) c))).
Proof.
  intros Hc Hwf Hroom Hq Hr Htx.
  destruct (Write_frame request destAddr srcAddr cmdId false c Hc Hwf Hroom)
    as (id & r2 & Hid & Hval & Hw2 & Hz2 & _ & Hdata & HW).
  pose proof (length_Frame_data _ Hw2) as HL.
  erewrite Reserve_free in HW by done. cbn [mbind outcome_bind] in HW.
  cbn [socket_write set_queue socket set_conn_invokeId] in HW.
  rewrite HL in HW. rewrite Nat.min_l in HW by lia.
  rewrite decide_False in HW by lia.
  rewrite <- HL in HW at 1. rewrite firstn_all in HW.
  by exists id, r2.
Qed.

Lemma Receive_whole (bs : list byte) (s : list (list byte)) :
  bs <> [] -> delivers (bs :: s) bs s.
Proof.
  intros Hne. pose proof (Receive_concat [bs] s) as H.
  cbn [concat app] in H. rewrite app_nil_r in H. apply H.
  by constructor.
Qed.

(** X11.  The request on the wire.  A [Write] that goes through appends to
    the socket the 6-byte AmsTcpHeader, the 32-byte AoEHeader and the bytes
    the request frame held, in this order and nothing else.  Decoded with
    the accessors the reader uses, the AmsTcpHeader gives the length of what
    follows it, the AoEHeader gives the length of the payload, the command
    id, the target port and the source address of the call, and the invoke
    id under which the slot has been reserved; a reader with the framing of
    [Recv] takes these bytes for exactly one frame. *)
Theorem Write_wire_format (request : Frame) (destAddr srcAddr : AmsAddr) (cmdId : Z)
    (c : AmsConnection) (i : nat) (r : AmsResponse) :
  uint32 (conn_invokeId c) ->
  Frame_wf request ->
  (sizeof_AmsTcpHeader + sizeof_AoEHeader <= fstart request)%nat ->
  Z.of_nat (Frame_size request + sizeof_AoEHeader) < 2 ^ 32 ->
  queue_at (queue c) (snd srcAddr) = Some (i, r) ->
  invokeId r = 0 ->
  (Frame_size request + (sizeof_AmsTcpHeader + sizeof_AoEHeader) <= txroom (socket c))%nat ->
  exists id request' c' tcp aoe,
    Write request destAddr srcAddr cmdId false c = Done (Some i, request', c') /\
    tx (socket c') = tx (socket c) ++ tcp ++ aoe ++ Frame_data request /\
    Frame_data request' = tcp ++ aoe ++ Frame_data request /\
    length tcp = sizeof_AmsTcpHeader /\
    length aoe = sizeof_AoEHeader /\
    AmsTcpHeader_length tcp = Z.of_nat (sizeof_AoEHeader + length (Frame_data request)) /\
    AoE_length aoe = Z.of_nat (length (Frame_data request)) /\
    AoE_cmdId aoe = cmdId mod 2 ^ 16 /\
    AoE_targetPort aoe = snd destAddr mod 2 ^ 16 /\
    AoE_sourceAms aoe = (resize 6 x00 (fst srcAddr), snd srcAddr mod 2 ^ 16) /\
    AoE_invokeId aoe = id /\ id <> 0 /\
    queue c' !! i = Some (set_invokeId id r) /\
    (forall (peer : AmsConnection) (s : list (list byte)),
       rx (socket peer) = (tcp ++ aoe ++ Frame_data request) :: s ->
       frame_arrives peer tcp aoe (Frame_data request) s).
Proof.
  intros Hc Hwf Hroom Hsz Hq Hr Htx.
  destruct (Write_frame request destAddr srcAddr cmdId false c Hc Hwf Hroom)
    as (id & r2 & Hid & Hval & Hw2 & Hz2 & _ & Hdata & HW).
  unfold sizeof_AmsTcpHeader, sizeof_AoEHeader in *.
  pose proof (length_Frame_data _ Hw2) as HL.
  pose proof (length_Frame_data _ Hwf) as HLr.
  erewrite Reserve_free in HW by done. cbn [mbind outcome_bind] in HW.
  cbn [socket_write set_queue socket set_conn_invokeId] in HW.
  rewrite HL in HW. rewrite Nat.min_l in HW by lia.
  rewrite decide_False in HW by lia.
  rewrite <- HL in HW at 1. rewrite firstn_all in HW.
  set (tcp := AmsTcpHeader_make (Z.of_nat (Frame_size request + 32) mod 2 ^ 32)) in *.
  set (aoe := AoEHeader_make destAddr srcAddr cmdId AMS_REQUEST
                (Z.of_nat (Frame_size request) mod 2 ^ 32) id) in *.
  assert (Haoe : length aoe = 32%nat) by apply length_AoEHeader_make.
  assert (Htcp : length tcp = 6%nat) by apply length_AmsTcpHeader_make.
  assert (HTl : AmsTcpHeader_length tcp = Z.of_nat (32 + length (Frame_data request))).
  { unfold tcp. rewrite AmsTcpHeader_length_make, Z.mod_mod by lia.
    rewrite Z.mod_small by lia. lia. }
  assert (HAl : AoE_length aoe = Z.of_nat (length (Frame_data request))).
  { unfold aoe. rewrite AoE_length_make, Z.mod_mod by lia.
    rewrite Z.mod_small by lia. lia. }
  apply queue_at_Some in Hq as (_ & _ & Hi).
  exists id, r2. eexists. exists tcp, aoe.
  split; [exact HW|].
  cbn [set_socket set_queue queue socket tx].
  split; [by rewrite Hdata|]. split; [done|].
  split; [done|]. split; [done|]. split; [done|]. split; [done|].
  split; [apply AoE_cmdId_make|]. split; [apply AoE_targetPort_make|].
  split; [apply AoE_sourceAms_make|].
  split; [unfold aoe; rewrite AoE_invokeId_make; apply Z.mod_small; lia|].
  split; [lia|].
  split; [by rewrite list_lookup_insert_eq by (by eapply lookup_lt_Some)|].
  intros peer s Hrx. unfold frame_arrives, sizeof_AmsTcpHeader, sizeof_AoEHeader.
  split; [done|]. split; [done|]. split; [lia|]. split; [done|].
  rewrite Hrx. apply Receive_whole. destruct tcp; [done|done].
Qed.

(** [Write] on a frame without room for the two headers. *)
Lemma Write_throws_iff (request : Frame) (destAddr srcAddr : AmsAddr) (cmdId : Z)
    (spurious : bool) (c : AmsConnection) :
  Write request destAddr srcAddr cmdId spurious c = Thrown BufferTooSmall <->
  (fstart request < sizeof_AmsTcpHeader + sizeof_AoEHeader)%nat.
Proof.
  unfold Write. destruct (GetInvokeId_Done c) as (id & _ & ->).
  cbn [mbind outcome_bind]. unfold sizeof_AmsTcpHeader, sizeof_AoEHeader.
  unfold Frame_prepend at 2. rewrite length_AoEHeader_make.
  unfold sizeof_AoEHeader.
  destruct (decide (32 <= fstart request)%nat) as [H1|H1]; cbn [mbind outcome_bind].
  - unfold Frame_prepend. cbn [fstart]. rewrite length_AmsTcpHeader_make.
    unfold sizeof_AmsTcpHeader.
    destruct (decide (6 <= fstart request - 32)%nat) as [H2|H2]; cbn [mbind outcome_bind].
    + split; [|lia]. unfold Reserve.
      destruct (queue_at _ _) as [[i r]|]; cbn [mbind outcome_bind]; [|done].
      case_decide; cbn [mbind outcome_bind]; [|done].
      destruct (socket_write _ _). by case_decide.
    + split; [lia|done].
  - split; [lia|done].
Qed.

(** X12.  The outcomes of [Write].  It throws exactly when the request frame
    has less than 38 bytes of room before its data for the two headers, and
    then it is the frame's exception, never the socket's; with room it is
    undefined exactly when the source port has no slot; otherwise it
    returns.  When it returns null the invoke id of every slot is what it
    was, so nothing stays reserved; when it returns a slot, that slot was
    free, is now reserved under a non-zero id, no other slot has changed,
    and the socket has taken the whole frame. *)
Theorem Write_outcome (request : Frame) (destAddr srcAddr : AmsAddr) (cmdId : Z)
    (spurious : bool) (c : AmsConnection) :
  uint32 (conn_invokeId c) ->
  Frame_wf request ->
  (Write request destAddr srcAddr cmdId spurious c = Thrown BufferTooSmall <->
   (fstart request < sizeof_AmsTcpHeader + sizeof_AoEHeader)%nat) /\
  Write request destAddr srcAddr cmdId spurious c <> Thrown SocketError /\
  Write request destAddr srcAddr cmdId spurious c <> OutOfFuel /\
  (Write request destAddr srcAddr cmdId spurious c = Undefined <->
   (sizeof_AmsTcpHeader + sizeof_AoEHeader <= fstart request)%nat /\
   queue_at (queue c) (snd srcAddr) = None) /\
  (forall request' c',
     Write request destAddr srcAddr cmdId spurious c = Done (None, request', c') ->
     length (queue c') = length (queue c) /\
     (forall j, invokeId <$> queue c' !! j = invokeId <$> queue c !! j) /\
     tx (socket c) `prefix_of` tx (socket c')) /\
  (forall i request' c',
     Write request destAddr srcAddr cmdId spurious c = Done (Some i, request', c') ->
     exists r id,
       queue_at (queue c) (snd srcAddr) = Some (i, r) /\
       invokeId r = 0 /\ id <> 0 /\ spurious = false /\
       queue c' = <[i := set_invokeId id r]> (queue c) /\
       tx (socket c') = tx (socket c) ++ Frame_data request' /\
       Frame_size request' =
         (Frame_size request + (sizeof_AmsTcpHeader + sizeof_AoEHeader))%nat).
Proof.
  intros Hc Hwf.
  destruct (decide (sizeof_AmsTcpHeader + sizeof_AoEHeader <= fstart request)%nat)
    as [Hroom|Hroom].
  - destruct (Write_frame request destAddr srcAddr cmdId spurious c Hc Hwf Hroom)
      as (id & r2 & Hid & _ & Hw2 & Hz2 & _ & Hdata & ->).
    pose proof (length_Frame_data _ Hw2) as HL.
    unfold Reserve.
    destruct (queue_at (queue c) (snd srcAddr)) as [[i r]|] eqn:Hq;
      cbn [set_conn_invokeId queue].
    2:{ rewrite Hq. cbn [mbind outcome_bind].
        repeat split; try done; try lia. }
    rewrite Hq.
    apply queue_at_Some in Hq as (Hp & Hi & Hqi).
    assert (Hlt : (i < length (queue c))%nat) by (by eapply lookup_lt_Some).
    destruct (decide (invokeId r = 0 /\ spurious = false)) as [[H0 ->]|Hn];
      cbn [mbind outcome_bind].
    + cbn [socket_write set_queue socket set_conn_invokeId].
      case_decide as Hshort.
      * split; [split; [done|lia]|]. split; [done|]. split; [done|].
        split; [split; [done|intros [_ ?]; done]|]. split; [|done].
        intros request' c' [= <- <-].
        cbn [Release set_socket set_queue queue socket tx].
        split; [by rewrite length_alter, length_insert|].
        split; [|by apply prefix_app_r].
        intros j. rewrite list_lookup_alter.
        destruct (decide (i = j)) as [<-|Hne].
        -- rewrite list_lookup_insert_eq by done.
           rewrite Hqi. cbn. by rewrite H0.
        -- by rewrite list_lookup_insert_ne by done.
      * split; [split; [done|lia]|]. split; [done|]. split; [done|].
        split; [split; [done|intros [_ ?]; done]|]. split; [done|].
        intros i' request' c' [= <- <- <-].
        cbn [set_socket set_queue queue socket tx].
        exists r, id. split; [done|].
        split; [done|]. split; [lia|]. split; [done|]. split; [done|].
        split; [|lia].
        f_equal. apply take_ge. lia.
    + split; [split; [done|lia]|]. split; [done|]. split; [done|].
      split; [split; [done|intros [_ ?]; done]|]. split; [|done].
      intros request' c' [= <- <-]. cbn [LOG_WARN set_conn_invokeId queue socket].
      done.
  - assert (HW : Write request destAddr srcAddr cmdId spurious c = Thrown BufferTooSmall).
    { unfold Write. destruct (GetInvokeId_Done c) as (id & _ & ->).
      cbn [mbind outcome_bind]. unfold sizeof_AmsTcpHeader, sizeof_AoEHeader in *.
      unfold Frame_prepend at 2. case_decide as H1; [|done].
      cbn [mbind outcome_bind]. rewrite length_AoEHeader_make in H1.
      unfold Frame_prepend. rewrite decide_False; [done|].
      cbn [fstart]. rewrite length_AmsTcpHeader_make, length_AoEHeader_make.
      unfold sizeof_AmsTcpHeader, sizeof_AoEHeader in *. lia. }
    rewrite HW. repeat split; try done; try lia.
Qed.

(** ** Calls one after the other *)

(** The loop body on a reply that matches the slot of its target port and
    fits its frame. *)
Lemma Recv_body_delivers (c : AmsConnection) (tcp aoe payload : list byte)
    (s' : list (list byte)) (i : nat) (r : AmsResponse) :
  frame_arrives c tcp aoe payload s' ->
  accepted_reply (AoE_cmdId aoe) = true ->
  queue_at (queue c) (AoE_targetPort aoe) = Some (i, r) ->
  invokeId r = AoE_invokeId aoe ->
  (length payload <= Frame_capacity (frame r))%nat ->
  Recv_body c =
  Done (set_queue
          (<[i := Notify (set_frame (Frame_limit (length payload)
                                       (Frame_fill payload (frame r))) r)]> (queue c))
          (set_rx s' c)).
Proof.
  intros Hf Hacc Hq Hid Hcap.
  destruct (Recv_body_reply _ _ _ _ _ Hf (accepted_reply_not_notification _ Hacc))
    as (s2 & HR & ->).
  destruct Hf as (_ & _ & _ & Hlen & _).
  rewrite Hlen, Nat2Z.id in *.
  erewrite GetPending_match by done. cbn [mbind outcome_bind].
  apply queue_at_Some in Hq as (_ & _ & Hi).
  cbn [set_rx queue]. rewrite Hi, Hacc.
  rewrite (ReceiveFrame_fits _ _ payload s') by done.
  cbn [mbind outcome_bind set_rx set_queue queue socket rx log].
  repeat f_equal.
Qed.

(** X13.  One request at a time on a port.  After a [Write] that returned
    the slot of its source port, any further [Write] from that port returns
    null, whatever the request: it sends nothing, reserves nothing and
    leaves the slot to the first request; it logs the port as in use under
    the invoke id of the first request. *)
Theorem Write_while_pending (request request2 : Frame) (destAddr destAddr2 : AmsAddr)
    (srcAddr srcAddr2 : AmsAddr) (cmdId cmdId2 : Z) (spurious spurious2 : bool)
    (c c' : AmsConnection) (i : nat) (request' : Frame) :
  uint32 (conn_invokeId c) ->
  Frame_wf request ->
  Frame_wf request2 ->
  (sizeof_AmsTcpHeader + sizeof_AoEHeader <= fstart request2)%nat ->
  snd srcAddr2 = snd srcAddr ->
  Write request destAddr srcAddr cmdId spurious c = Done (Some i, request', c') ->
  exists r id request2' c'',
    queue c' !! i = Some r /\ invokeId r = id /\ id <> 0 /\
    AoE_invokeId (take sizeof_AoEHeader (drop sizeof_AmsTcpHeader (Frame_data request'))) = id /\
    Write request2 destAddr2 srcAddr2 cmdId2 spurious2 c' = Done (None, request2', c'') /\
    socket c'' = socket c' /\
    queue c'' = queue c' /\
    log c'' = log c' ++ [PortInUse (snd srcAddr) id].
Proof.
  intros Hc Hwf Hwf2 Hroom2 Hport HW.
  assert (Hroom : (sizeof_AmsTcpHeader + sizeof_AoEHeader <= fstart request)%nat).
  { destruct (decide (sizeof_AmsTcpHeader + sizeof_AoEHeader <= fstart request)%nat)
      as [|Hn]; [done|].
    destruct (Write_throws_iff request destAddr srcAddr cmdId spurious c) as [_ Hthrow].
    rewrite Hthrow in HW by lia. done. }
  destruct (Write_frame request destAddr srcAddr cmdId spurious c Hc Hwf Hroom)
    as (id & r2 & Hid & _ & Hw2 & Hz2 & _ & Hdata & HW').
  rewrite HW' in HW. clear HW'. unfold Reserve in HW.
  cbn [set_conn_invokeId queue] in HW.
  destruct (queue_at (queue c) (snd srcAddr)) as [[i0 r]|] eqn:Hq; [|done].
  apply queue_at_Some in Hq as (Hp & Hi & Hqi).
  assert (Hlt : (i0 < length (queue c))%nat) by (by eapply lookup_lt_Some).
  destruct (decide (invokeId r = 0 /\ spurious = false)) as [[H0 ->]|Hn];
    cbn [mbind outcome_bind] in HW; [|done].
  cbn [socket_write set_queue socket set_conn_invokeId] in HW.
  case_decide as Hshort; [done|]. injection HW as <- <- <-.
  assert (Hc' : uint32 (conn_invokeId
            (set_socket
               (mkSocket (rx (socket c))
                  (tx (socket c) ++
                   take (Nat.min (length (Frame_data r2)) (txroom (socket c)))
                     (Frame_data r2))
                  (txroom (socket c) -
                   Nat.min (length (Frame_data r2)) (txroom (socket c))))
               (set_queue (<[i0:=set_invokeId id r]> (queue c))
                  (set_conn_invokeId ((id + 1) mod 2 ^ 32) c))))).
  { cbn [set_socket set_queue set_conn_invokeId conn_invokeId]. unfold uint32.
    apply Z.mod_pos_bound. lia. }
  destruct (Write_frame request2 destAddr2 srcAddr2 cmdId2 spurious2 _ Hc' Hwf2 Hroom2)
    as (id2 & r2' & _ & _ & _ & _ & _ & _ & HW2).
  rewrite Hport in HW2.
  erewrite Reserve_reserved in HW2; cycle 1.
  { apply queue_at_Some. cbn [set_socket set_queue set_conn_invokeId queue].
    split; [done|]. split; [done|]. by apply list_lookup_insert_eq. }
  { cbn [set_invokeId invokeId]. lia. }
  cbn [mbind outcome_bind] in HW2.
  exists (set_invokeId id r), id, r2'. eexists.
  cbn [set_socket set_queue set_conn_invokeId queue].
  split; [by apply list_lookup_insert_eq|]. split; [done|]. split; [lia|].
  split.
  { rewrite Hdata. unfold sizeof_AmsTcpHeader, sizeof_AoEHeader.
    rewrite drop_app_length' by (by rewrite length_AmsTcpHeader_make).
    rewrite take_app_length' by (by rewrite length_AoEHeader_make).
    rewrite AoE_invokeId_make. apply Z.mod_small. lia. }
  split; [exact HW2|]. done.
Qed.

(** X14.  A round trip.  When a [Write] has gone through and the peer
    answers with a frame that names the source port of the request as its
    target and repeats the invoke id of the request header, with an accepted
    command id and a payload that fits the slot's frame, one turn of the
    reader hands the payload to the slot the caller got from [Write] and
    wakes the caller; the slot is then free again, and the next [Write] from
    that port goes through under a new invoke id. *)
Theorem request_reply_round_trip (request next : Frame) (destAddr srcAddr : AmsAddr)
    (cmdId cmdId2 : Z) (spurious : bool) (c c1 : AmsConnection) (i : nat)
    (request' : Frame) (tcp aoe payload : list byte) (s' : list (list byte)) :
  uint32 (conn_invokeId c) ->
  Frame_wf request ->
  0 <= snd srcAddr < 2 ^ 16 ->
  Write request destAddr srcAddr cmdId spurious c = Done (Some i, request', c1) ->
  frame_arrives c1 tcp aoe payload s' ->
  accepted_reply (AoE_cmdId aoe) = true ->
  AoE_targetPort aoe =
    snd (AoE_sourceAms (take sizeof_AoEHeader (drop sizeof_AmsTcpHeader (Frame_data request')))) ->
  AoE_invokeId aoe =
    AoE_invokeId (take sizeof_AoEHeader (drop sizeof_AmsTcpHeader (Frame_data request'))) ->
  (forall r, queue c !! i = Some r -> (length payload <= Frame_capacity (frame r))%nat) ->
  Frame_wf next ->
  (sizeof_AmsTcpHeader + sizeof_AoEHeader <= fstart next)%nat ->
  (Frame_size next + (sizeof_AmsTcpHeader + sizeof_AoEHeader) <= txroom (socket c1))%nat ->
  exists c2 r r2 id2 next' c3,
    Recv_body c1 = Done c2 /\
    queue c !! i = Some r /\
    queue c2 !! i = Some r2 /\
    Frame_data (frame r2) = payload /\
    invokeId r2 = 0 /\ Wait r2 = true /\ wakeups r2 = S (wakeups r) /\
    (forall j, j <> i -> queue c2 !! j = queue c !! j) /\
    tx (socket c2) = tx (socket c) ++ Frame_data request' /\
    Write next destAddr srcAddr cmdId2 false c2 = Done (Some i, next', c3) /\
    queue c3 !! i = Some (set_invokeId id2 r2) /\
    id2 <> 0 /\ id2 <> AoE_invokeId aoe.
Proof.
  intros Hc Hwf Hport HW Hf Hacc Htarget Hinv Hcap Hwfn Hroomn Htxn.
  assert (Hroom : (sizeof_AmsTcpHeader + sizeof_AoEHeader <= fstart request)%nat).
  { destruct (decide (sizeof_AmsTcpHeader + sizeof_AoEHeader <= fstart request)%nat)
      as [|Hn]; [done|].
    destruct (Write_throws_iff request destAddr srcAddr cmdId spurious c) as [_ Hthrow].
    rewrite Hthrow in HW by lia. done. }
  destruct (Write_frame request destAddr srcAddr cmdId spurious c Hc Hwf Hroom)
    as (id & r2 & Hid & _ & Hw2 & Hz2 & _ & Hdata & HW').
  rewrite HW' in HW. clear HW'. unfold Reserve in HW.
  cbn [set_conn_invokeId queue] in HW.
  destruct (queue_at (queue c) (snd srcAddr)) as [[i0 r]|] eqn:Hq; [|done].
  pose proof Hq as Hq0.
  apply queue_at_Some in Hq as (Hp & Hi & Hqi).
  assert (Hlt : (i0 < length (queue c))%nat) by (by eapply lookup_lt_Some).
  destruct (decide (invokeId r = 0 /\ spurious = false)) as [[H0 ->]|Hn];
    cbn [mbind outcome_bind] in HW; [|done].
  cbn [socket_write set_queue socket set_conn_invokeId] in HW.
  case_decide as Hshort; [done|]. injection HW as <- <- <-.
  assert (Hsent : take sizeof_AoEHeader (drop sizeof_AmsTcpHeader (Frame_data r2)) =
                  AoEHeader_make destAddr srcAddr cmdId AMS_REQUEST
                    (Z.of_nat (Frame_size request) mod 2 ^ 32) id).
  { rewrite Hdata. unfold sizeof_AmsTcpHeader, sizeof_AoEHeader.
    rewrite drop_app_length' by (by rewrite length_AmsTcpHeader_make).
    by rewrite take_app_length' by (by rewrite length_AoEHeader_make). }
  rewrite Hsent in Htarget, Hinv.
  rewrite AoE_sourceAms_make in Htarget. cbn [snd] in Htarget.
  rewrite Z.mod_small in Htarget by lia.
  rewrite AoE_invokeId_make, Z.mod_small in Hinv by lia.
  pose proof (length_Frame_data _ Hw2) as HL.
  assert (Hall : take (Nat.min (length (Frame_data r2)) (txroom (socket c)))
                   (Frame_data r2) = Frame_data r2) by (apply take_ge; lia).
  rewrite Hall in *.
  set (c1 := set_socket _ _) in *.
  assert (Hq1 : queue_at (queue c1) (AoE_targetPort aoe) = Some (i0, set_invokeId id r)).
  { rewrite Htarget. apply queue_at_Some. unfold c1.
    cbn [set_socket set_queue set_conn_invokeId queue].
    split; [done|]. split; [done|]. by apply list_lookup_insert_eq. }
  pose proof (Recv_body_delivers c1 tcp aoe payload s' i0 (set_invokeId id r)
                Hf Hacc Hq1 (eq_sym Hinv) (Hcap _ Hqi)) as HR.
  set (rr := Notify _) in HR.
  set (c2 := set_queue _ _) in HR.
  assert (Hq2 : queue_at (queue c2) (snd srcAddr) = Some (i0, rr)).
  { apply queue_at_Some. unfold c2, c1.
    cbn [set_socket set_queue set_conn_invokeId set_rx queue].
    split; [done|]. split; [done|]. apply list_lookup_insert_eq.
    by rewrite length_insert. }
  assert (Hcv : conn_invokeId c2 = (id + 1) mod 2 ^ 32) by reflexivity.
  assert (Hc2 : uint32 (conn_invokeId c2)).
  { rewrite Hcv. unfold uint32. apply Z.mod_pos_bound. lia. }
  destruct (Write_goes_through next destAddr srcAddr cmdId2 c2 i0 rr Hc2 Hwfn Hroomn Hq2)
    as (id2 & next' & Hid2 & Hval2 & _ & _ & HW3); [done|exact Htxn|].
  exists c2, r, rr, id2, next'. eexists.
  split; [exact HR|]. split; [done|].
  split; [apply queue_at_Some in Hq2; tauto|].
  split; [apply Frame_data_received|].
  split; [done|]. split; [done|]. split; [done|].
  split.
  { intros j Hj. unfold c2, c1.
    cbn [set_socket set_queue set_conn_invokeId set_rx queue].
    by rewrite !list_lookup_insert_ne by done. }
  split; [done|]. split; [exact HW3|].
  cbn [set_socket set_queue queue].
  split; [apply list_lookup_insert_eq; apply queue_at_Some in Hq2 as (_ & _ & Hl);
          by eapply lookup_lt_Some|].
  split; [lia|].
  rewrite Hinv, Hval2, Hcv.
  destruct (decide (id = 2 ^ 32 - 1)) as [->|Hne].
  - change ((2 ^ 32 - 1 + 1) mod 2 ^ 32) with 0. rewrite decide_True by done. lia.
  - rewrite Z.mod_small by lia. rewrite decide_False by lia. lia.
Qed.

(** ** Notifications one after the other *)

(** The loop body on a notification that has a dispatcher and fits its
    ring. *)
Lemma Recv_body_stores (c : AmsConnection) (tcp aoe payload : list byte)
    (s' : list (list byte)) (p : nat) (d : NotificationDispatcher) :
  frame_arrives c tcp aoe payload s' ->
  AoE_cmdId aoe = DEVICE_NOTIFICATION ->
  dl_list (dispatcherList c) !! (AoE_targetPort aoe, AoE_sourceAms aoe) = Some p ->
  objects (store c) !! p = Some d ->
  RingBuffer_wf (ring d) ->
  (length payload <= BytesFree (ring d))%nat ->
  exists c' r',
    Recv_body c = Done c' /\
    rx (socket c') = s' /\
    tx (socket c') = tx (socket c) /\
    queue c' = queue c /\
    log c' = log c /\
    dl_list (dispatcherList c') = dl_list (dispatcherList c) /\
    objects (store c') = <[p := Dispatcher_Notify (set_ring r' d)]> (objects (store c)) /\
    RingBuffer_contents r' = RingBuffer_contents (ring d) ++ payload /\
    RingBuffer_wf r' /\
    rb_read r' = rb_read (ring d) /\
    BytesFree r' = (BytesFree (ring d) - length payload)%nat.
Proof.
  intros Hf Hcmd Hk Hp Hwf Hroom.
  destruct (frame_arrives_reads _ _ _ _ _ Hf) as (s1 & s2 & H1 & H2 & H3).
  destruct Hf as (_ & _ & Htcp & Hlen & _).
  rewrite Hlen, Nat2Z.id in H3.
  destruct (ring_receive_spec (length payload) (length payload) (ring d) s2
              payload s' Hwf)
    as (r' & HR & G1 & G2 & G3 & G4 & G5 & G6); try done.
  assert (HRecv : Recv_body c =
    Done (set_dispatchers
            (mkDispatcherList (dl_list (dispatcherList c)) (dl_mutex (dispatcherList c))
               (dl_trace (dispatcherList c) ++
                [(Find (AoE_targetPort aoe, AoE_sourceAms aoe),
                  S (dl_mutex (dispatcherList c)))]))
            (mkStore (<[p := Dispatcher_Notify (set_ring r' d)]> (objects (store c)))
                     (brk (store c)))
            (set_rx s'
               (set_dispatchers
                  (mkDispatcherList (dl_list (dispatcherList c))
                     (dl_mutex (dispatcherList c))
                     (dl_trace (dispatcherList c) ++
                      [(Find (AoE_targetPort aoe, AoE_sourceAms aoe),
                        S (dl_mutex (dispatcherList c)))]))
                  (store c) (set_rx s2 c))))).
  { unfold Recv_body. rewrite H1. rewrite decide_False by lia.
    cbn [set_rx socket rx]. rewrite H2. rewrite decide_True by done.
    unfold ReceiveNotification. rewrite DispatcherList_Get_eq.
    cbn [set_rx dispatcherList store set_dispatchers socket rx]. rewrite Hk, Hp.
    rewrite Hlen, Nat2Z.id. rewrite decide_False by lia.
    rewrite HR. reflexivity. }
  eexists _, r'. split; [exact HRecv|].
  cbn [set_dispatchers set_rx socket rx tx queue dispatcherList dl_list store log objects].
  done.
Qed.

(** X15.  Notifications reach the ring in the order of their arrival.  When
    the socket delivers a sequence of DEVICE_NOTIFICATION frames for one
    local port and source address that has a dispatcher, and their payloads
    together fit the free space of its ring, as many turns of the reader as
    there are frames consume exactly these frames and leave in the ring what
    it held followed by the payloads, one after the other with nothing
    between them; the dispatcher has been notified once for each frame, its
    subscriptions and the read cursor are as before, and nothing was logged,
    sent or done to a slot. *)
Theorem Recv_notifications_in_order
    (frames : list (list byte * list byte * list byte)) (c : AmsConnection)
    (s' : list (list byte)) (key : VirtualConnection) (p : nat)
    (d : NotificationDispatcher) :
  frames_arrive (rx (socket c)) frames s' ->
  Forall (fun f => AoE_cmdId (snd (fst f)) = DEVICE_NOTIFICATION /\
                   (AoE_targetPort (snd (fst f)), AoE_sourceAms (snd (fst f))) = key)
         frames ->
  dl_list (dispatcherList c) !! key = Some p ->
  objects (store c) !! p = Some d ->
  RingBuffer_wf (ring d) ->
  (length (concat (snd <$> frames)) <= BytesFree (ring d))%nat ->
  exists c' d',
    Recv_turns (length frames) c = Done c' /\
    rx (socket c') = s' /\
    objects (store c') !! p = Some d' /\
    RingBuffer_contents (ring d') =
      RingBuffer_contents (ring d) ++ concat (snd <$> frames) /\
    dwakeups d' = (dwakeups d + length frames)%nat /\
    subscriptions d' = subscriptions d /\
    rb_read (ring d') = rb_read (ring d) /\
    BytesFree (ring d') = (BytesFree (ring d) - length (concat (snd <$> frames)))%nat /\
    queue c' = queue c /\ log c' = log c /\ tx (socket c') = tx (socket c).
Proof.
  revert c d. induction frames as [|[[tcp aoe] payload] frames IH]; intros c d.
  - cbn [frames_arrive]. intros -> _ Hk Hp Hwf Hroom.
    exists c, d. cbn [length Recv_turns fmap list_fmap concat].
    rewrite app_nil_r. repeat split; try done; lia.
  - cbn [frames_arrive]. intros (s1 & Ht & Ha & Hl & Hn & Hd & Hrest) Hall Hk Hp Hwf Hroom.
    apply Forall_cons in Hall as [[Hcmd Hkey] Hall]. cbn [fst snd] in Hcmd, Hkey.
    rewrite fmap_cons in *. cbn [concat snd] in *. rewrite length_app in Hroom.
    assert (Hf : frame_arrives c tcp aoe payload s1) by done.
    rewrite <- Hkey in Hk.
    destruct (Recv_body_stores c tcp aoe payload s1 p d Hf Hcmd Hk Hp Hwf)
      as (c1 & r1 & HR & Hrx & Htx & Hq & Hlog & Hdl & Hobj & Hcont & Hwf1 & Hrd & Hfree);
      [lia|].
    rewrite Hkey in Hk.
    destruct (IH c1 (Dispatcher_Notify (set_ring r1 d)))
      as (c' & d' & HT & G1 & G2 & G3 & G4 & G5 & G6 & G7 & G8 & G9 & G10).
    + by rewrite Hrx.
    + done.
    + by rewrite Hdl.
    + rewrite Hobj. apply lookup_insert_eq.
    + done.
    + cbn [Dispatcher_Notify set_ring ring]. lia.
    + exists c', d'. cbn [length Recv_turns]. rewrite HR. cbn [mbind outcome_bind].
      cbn [Dispatcher_Notify set_ring ring dwakeups subscriptions] in *.
      split; [done|]. split; [done|]. split; [done|].
      split; [by rewrite G3, Hcont, app_assoc|].
      split; [lia|]. split; [done|]. split; [congruence|].
      split; [rewrite length_app; lia|].
      split; [congruence|]. split; congruence.
Qed.

(** X16.  A subscription gets the notifications of its connection.  After
    [CreateNotifyMapping] for a local port and a remote address on a well
    formed connection, the dispatcher named in the [NotificationId] it
    returns holds the subscription under [hNotify] and keeps the
    subscriptions with other handles, its ring and the dispatchers of other
    connections; and a DEVICE_NOTIFICATION that then arrives from that
    address for that port, and fits the ring, is appended to the ring of
    this very dispatcher, which is notified and still holds the
    subscription. *)
Theorem subscription_receives (port : Z) (addr : AmsAddr) (pFunc hUser len hNotify : Z)
    (c : AmsConnection) (tcp aoe payload : list byte) (s' : list (list byte)) :
  connection_wf c ->
  exists p c1 d1,
    CreateNotifyMapping port addr pFunc hUser len hNotify c = Done ((hNotify, p), c1) /\
    dl_list (dispatcherList c1) !! (port, addr) = Some p /\
    objects (store c1) !! p = Some d1 /\
    subscriptions d1 !! hNotify = Some (mkSubscription pFunc hUser len) /\
    (forall q d, (q < brk (store c))%nat -> objects (store c) !! q = Some d ->
       exists d', objects (store c1) !! q = Some d' /\
         ring d' = ring d /\ dwakeups d' = dwakeups d /\
         (forall h, h <> hNotify \/ q <> p -> subscriptions d' !! h = subscriptions d !! h)) /\
    (dl_list (dispatcherList c) !! (port, addr) = None ->
       ring d1 = RingBuffer_new RING_SIZE /\ dwakeups d1 = 0%nat /\
       subscriptions d1 = {[hNotify := mkSubscription pFunc hUser len]}) /\
    socket c1 = socket c /\ queue c1 = queue c /\
    (frame_arrives c1 tcp aoe payload s' ->
     AoE_cmdId aoe = DEVICE_NOTIFICATION ->
     AoE_targetPort aoe = port ->
     AoE_sourceAms aoe = addr ->
     (length payload <= BytesFree (ring d1))%nat ->
     exists c2 d2,
       Recv_body c1 = Done c2 /\
       rx (socket c2) = s' /\
       objects (store c2) !! p = Some d2 /\
       RingBuffer_contents (ring d2) = RingBuffer_contents (ring d1) ++ payload /\
       dwakeups d2 = S (dwakeups d1) /\
       subscriptions d2 !! hNotify = Some (mkSubscription pFunc hUser len)).
Proof.
  intros (Hc & Hlen & Hdwf & Hrings).
  unfold CreateNotifyMapping. rewrite DispatcherList_Add_eq.
  destruct (dl_list (dispatcherList c) !! (port, addr)) as [p|] eqn:E.
  - destruct (Hdwf _ _ E) as [Hlt [d Hd]]. rewrite Hd.
    eexists p, _, _. split; [reflexivity|].
    cbn [set_dispatchers dispatcherList store dl_list objects socket queue].
    split; [done|]. split; [apply lookup_insert_eq|].
    cbn [Emplace subscriptions]. split; [apply lookup_insert_eq|].
    split.
    { intros q d0 _ Hq. destruct (decide (p = q)) as [<-|Hne].
      - rewrite lookup_insert_eq. eexists. split; [reflexivity|].
        simplify_eq. cbn [Emplace ring dwakeups subscriptions].
        split; [done|]. split; [done|].
        intros h [Hh|Hh]; [|done]. by rewrite lookup_insert_ne.
      - rewrite lookup_insert_ne by done. eauto. }
    split; [done|]. split; [done|]. split; [done|].
    intros Hf Hcmd Hport Haddr Hroom.
    edestruct (Recv_body_stores _ tcp aoe payload s' p
                 (Emplace pFunc hUser len hNotify d) Hf Hcmd)
      as (c2 & r2 & HR & Hrx & _ & _ & _ & _ & Hobj & Hcont & _).
    + rewrite Hport, Haddr. cbn [set_dispatchers dispatcherList dl_list]. exact E.
    + cbn [set_dispatchers store objects]. apply lookup_insert_eq.
    + cbn [Emplace ring]. by eapply Hrings.
    + exact Hroom.
    + exists c2. eexists. split; [exact HR|]. split; [done|].
      split; [rewrite Hobj; apply lookup_insert_eq|].
      cbn [Dispatcher_Notify set_ring Emplace ring dwakeups subscriptions].
      split; [done|]. split; [done|]. apply lookup_insert_eq.
  - cbn [objects]. rewrite lookup_insert_eq.
    eexists (brk (store c)), _, _. split; [reflexivity|].
    cbn [set_dispatchers dispatcherList store dl_list objects socket queue].
    split; [apply lookup_insert_eq|]. split; [apply lookup_insert_eq|].
    cbn [Emplace subscriptions]. split; [apply lookup_insert_eq|].
    split.
    { intros q d0 Hlt Hq. rewrite insert_insert_eq.
      rewrite lookup_insert_ne by lia. eauto. }
    split; [done|]. split; [done|]. split; [done|].
    intros Hf Hcmd Hport Haddr Hroom.
    edestruct (Recv_body_stores _ tcp aoe payload s' (brk (store c))
                 (Emplace pFunc hUser len hNotify
                    (mkDispatcher addr port (RingBuffer_new RING_SIZE) ∅ 0)) Hf Hcmd)
      as (c2 & r2 & HR & Hrx & _ & _ & _ & _ & Hobj & Hcont & _).
    + rewrite Hport, Haddr. cbn [set_dispatchers dispatcherList dl_list].
      apply lookup_insert_eq.
    + cbn [set_dispatchers store objects]. apply lookup_insert_eq.
    + cbn [Emplace ring]. apply RingBuffer_new_wf.
    + exact Hroom.
    + exists c2. eexists. split; [exact HR|]. split; [done|].
      split; [rewrite Hobj; apply lookup_insert_eq|].
      cbn [Dispatcher_Notify set_ring Emplace ring dwakeups subscriptions].
      split; [done|]. split; [done|]. apply lookup_insert_eq.
Qed.

(** ** The request of DeleteNotification, and Release *)

(** Whatever [Write] returns, the frame it leaves to the caller is the
    request with both headers before it. *)
Lemma Write_Done_frame (request : Frame) (destAddr srcAddr : AmsAddr) (cmdId : Z)
    (spurious : bool) (c : AmsConnection) :
  uint32 (conn_invokeId c) ->
  Frame_wf request ->
  (sizeof_AmsTcpHeader + sizeof_AoEHeader <= fstart request)%nat ->
  exists id request2,
    0 < id < 2 ^ 32 /\
    Frame_wf request2 /\
    fstart request2 = (fstart request - (sizeof_AmsTcpHeader + sizeof_AoEHeader))%nat /\
    fend request2 = fend request /\
    Frame_capacity request2 = Frame_capacity request /\
    Frame_data request2 =
      AmsTcpHeader_make (Z.of_nat (Frame_size request + sizeof_AoEHeader) mod 2 ^ 32) ++
      AoEHeader_make destAddr srcAddr cmdId AMS_REQUEST
        (Z.of_nat (Frame_size request) mod 2 ^ 32) id ++
      Frame_data request /\
    Write request destAddr srcAddr cmdId spurious c <> Thrown BufferTooSmall /\
    forall res f' c',
      Write request destAddr srcAddr cmdId spurious c = Done (res, f', c') ->
      f' = request2.
Proof.
  intros Hc Hwf Hroom.
  destruct (Write_frame request destAddr srcAddr cmdId spurious c Hc Hwf Hroom)
    as (id & r2 & Hid & _ & Hw2 & Hz2 & (Hs2 & He2 & Hc2) & Hdata & HW).
  exists id, r2. do 6 (split; [done|]). rewrite HW. unfold Reserve.
  destruct (queue_at _ _) as [[i r]|]; cbn [mbind outcome_bind]; [|done].
  case_decide; cbn [mbind outcome_bind].
  - destruct (socket_write _ _). case_decide; (split; [done|congruence]).
  - split; [done|congruence].
Qed.

(** X17.  The frame [DeleteNotification] builds is exactly as large as its
    request.  It holds the four bytes of [hNotify], little endian, behind 38
    free bytes; [Write] therefore never fails on it for lack of room, and
    the frame it hands to the socket begins at the very start of the
    storage and fills all 42 bytes of it: an AmsTcpHeader that announces 36
    bytes, an AoEHeader with the command DEL_DEVICE_NOTIFICATION and the
    length 4, and the handle. *)
Theorem DeleteNotification_request_fits (hNotify : Z) (amsAddr srcAddr : AmsAddr)
    (spurious : bool) (c : AmsConnection) :
  uint32 (conn_invokeId c) ->
  exists request,
    DeleteNotification_request hNotify = Done request /\
    Frame_data request = le_encode 4 hNotify /\
    le_decode (Frame_data request) = hNotify mod 2 ^ 32 /\
    fstart request = (sizeof_AmsTcpHeader + sizeof_AoEHeader)%nat /\
    Write request amsAddr srcAddr DEL_DEVICE_NOTIFICATION spurious c
      <> Thrown BufferTooSmall /\
    forall res request' c',
      Write request amsAddr srcAddr DEL_DEVICE_NOTIFICATION spurious c =
        Done (res, request', c') ->
      fstart request' = 0%nat /\
      Frame_size request' = Frame_capacity request' /\
      Frame_data request' = storage request' /\
      length (Frame_data request') = 42%nat /\
      AmsTcpHeader_length (take sizeof_AmsTcpHeader (Frame_data request')) = 36 /\
      AoE_cmdId (take sizeof_AoEHeader (drop sizeof_AmsTcpHeader (Frame_data request')))
        = DEL_DEVICE_NOTIFICATION /\
      AoE_length (take sizeof_AoEHeader (drop sizeof_AmsTcpHeader (Frame_data request')))
        = 4 /\
      drop (sizeof_AmsTcpHeader + sizeof_AoEHeader) (Frame_data request') =
        le_encode 4 hNotify.
Proof.
  intros Hc.
  set (f := mkFrame (write_at 38 (le_encode 4 hNotify) (replicate 42 x00)) 38 42).
  assert (HD : DeleteNotification_request hNotify = Done f) by reflexivity.
  assert (Hwf : Frame_wf f).
  { unfold Frame_wf, Frame_capacity, f. cbn [fstart fend storage].
    rewrite length_write_at; rewrite ?length_le_encode, length_replicate; lia. }
  assert (Hdata : Frame_data f = le_encode 4 hNotify).
  { pose proof (Frame_prepend_data (le_encode 4 hNotify) (Frame_new 42) f) as H.
    rewrite H; [|unfold Frame_wf, Frame_capacity; cbn; lia|exact HD].
    unfold Frame_data, Frame_size, Frame_new. cbn [fstart fend storage].
    by rewrite Nat.sub_diag, take_0, app_nil_r. }
  assert (Hsize : Frame_size f = 4%nat) by reflexivity.
  assert (Hcap : Frame_capacity f = 42%nat).
  { unfold Frame_capacity, f. cbn [storage].
    rewrite length_write_at; rewrite ?length_le_encode, length_replicate; lia. }
  destruct (Write_Done_frame f amsAddr srcAddr DEL_DEVICE_NOTIFICATION spurious c Hc Hwf)
    as (id & r2 & Hid & Hw2 & Hs2 & He2 & Hc2 & Hd2 & Hno & Hret).
  { unfold f, sizeof_AmsTcpHeader, sizeof_AoEHeader. cbn [fstart]. lia. }
  exists f. split; [done|]. split; [done|].
  split; [rewrite Hdata; apply (le_decode_encode 4)|].
  split; [done|]. split; [done|].
  intros res request' c' HW. rewrite (Hret _ _ _ HW).
  rewrite Hsize, Hdata in Hd2.
  change (Z.of_nat (4 + sizeof_AoEHeader) mod 2 ^ 32) with 36 in Hd2.
  change (Z.of_nat 4 mod 2 ^ 32) with 4 in Hd2.
  pose proof (length_Frame_data _ Hw2) as HL.
  assert (Hz : Frame_size r2 = 42%nat).
  { unfold Frame_size. rewrite Hs2, He2. reflexivity. }
  split; [rewrite Hs2; reflexivity|].
  split; [congruence|].
  split.
  { unfold Frame_data. rewrite Hz, Hs2. cbn [Nat.sub]. rewrite drop_0.
    apply take_ge. unfold Frame_capacity in *. lia. }
  split; [congruence|].
  rewrite Hd2. unfold sizeof_AmsTcpHeader, sizeof_AoEHeader.
  rewrite take_app_length' by (by rewrite length_AmsTcpHeader_make).
  rewrite drop_app_length' by (by rewrite length_AmsTcpHeader_make).
  rewrite take_app_length' by (by rewrite length_AoEHeader_make).
  split; [apply AmsTcpHeader_length_make|].
  split; [apply AoE_cmdId_make|]. split; [apply AoE_length_make|].
  rewrite app_assoc. rewrite drop_app_length'; [done|].
  rewrite length_app, length_AmsTcpHeader_make, length_AoEHeader_make. reflexivity.
Qed.

Lemma Release_slot_idemp (r : AmsResponse) :
  Release_slot (Release_slot r) = Release_slot r.
Proof. reflexivity. Qed.

(** X18.  [Release] gives the port back, whatever state its slot was in.
    The slot is free and its frame empty with the capacity it had, no waiter
    has been woken, the other slots are untouched, and releasing twice is
    releasing once.  A reservation of the port then succeeds unless the
    compare-and-exchange fails spuriously, and a reply that still arrives
    under a non-zero invoke id finds nothing pending.  The invariant of the
    connection is kept. *)
Theorem Release_frees_port (port id : Z) (c : AmsConnection) (i : nat) (r : AmsResponse) :
  queue_at (queue c) port = Some (i, r) ->
  exists r',
    queue_at (queue (Release i c)) port = Some (i, r') /\
    invokeId r' = 0 /\ Wait r' = true /\ wakeups r' = wakeups r /\
    Frame_size (frame r') = 0%nat /\
    Frame_data (frame r') = [] /\
    Frame_capacity (frame r') = Frame_capacity (frame r) /\
    fstart (frame r') = Frame_capacity (frame r) /\
    (forall j, j <> i -> queue (Release i c) !! j = queue c !! j) /\
    Release i (Release i c) = Release i c /\
    Reserve id port false (Release i c) =
      Done (Some i, set_queue (<[i := set_invokeId id r']> (queue (Release i c)))
                      (Release i c)) /\
    (id <> 0 ->
     GetPending id port (Release i c) =
       Done (None, LOG_WARN (InvokeIdMismatch 0 id) (Release i c))) /\
    (connection_wf c -> connection_wf (Release i c)) /\
    (slots_wf c -> slots_wf (Release i c)).
Proof.
  intros Hq. pose proof Hq as Hq0.
  apply queue_at_Some in Hq as (Hp & Hi & Hqi).
  assert (Hq' : queue_at (queue (Release i c)) port = Some (i, Release_slot r)).
  { apply queue_at_Some. split; [done|]. split; [done|].
    rewrite Release_slots, decide_True by done. by rewrite Hqi. }
  exists (Release_slot r). split; [done|].
  split; [done|]. split; [done|]. split; [done|].
  split; [unfold Frame_size; cbn; lia|].
  split; [unfold Frame_data, Frame_size; cbn; by rewrite Nat.sub_diag|].
  split; [done|]. split; [done|].
  split; [intros j Hj; by rewrite Release_slots, decide_False|].
  split.
  { unfold Release, set_queue.
    cbn [queue socket conn_invokeId dispatcherList store log]. f_equal.
    apply list_eq. intros j. destruct (decide (i = j)) as [<-|Hne].
    - rewrite !list_lookup_alter, !decide_True by done.
      destruct (queue c !! i); reflexivity.
    - by rewrite !list_lookup_alter, !decide_False by done. }
  split; [by erewrite Reserve_free|].
  split; [intros Hid; by erewrite GetPending_mismatch by (done || (cbn; lia))|].
  split.
  - intros (H1 & H2 & H3 & H4). unfold Release.
    split; [done|]. split; [|done].
    cbn [set_queue queue]. by rewrite length_alter.
  - intros Hs j x. rewrite Release_slots. case_decide as Hj; [|apply Hs].
    subst j. rewrite Hqi. cbn. intros [= <-].
    apply slot_wf_Release. by eapply Hs.
Qed.

End Proofs.

(** ** The statements at concrete inputs *)

Ltac by_compute :=
  vm_compute; repeat split; first [reflexivity | discriminate | congruence | lia].

Lemma GetInvokeId_positive_witness :
  exists id c',
    GetInvokeId_loop 2 (example_new []) = Done (id, c') /\ id = 1 /\
    conn_invokeId c' = 2.
Proof.
  destruct (GetInvokeId_positive 2 (example_new [])) as (id & c' & H & _ & Hid & Hc & _).
  - lia.
  - by_compute.
  - exists id, c'. split; [exact H|]. split; [exact Hid|].
    rewrite Hc, Hid. reflexivity.
Defined.

Lemma slot_operations_invariant_witness :
  exists c' r',
    Reserve (H := example_config) 1 30000 false (example_new []) =
      Done (Some 0%nat, c') /\
    queue c' !! 0%nat = Some r' /\
    slot_step AmsResponse_new r' /\
    slot_step example_slot (Notify example_slot) /\
    invokeId (Notify example_slot) = 0.
Proof.
  destruct (slot_operations_invariant (cfg := example_config))
    as (HR & _ & HN & HRstep & _ & Hstep & _).
  destruct (Reserve (H := example_config) 1 30000 false (example_new []))
    as [[res c']| | |] eqn:HE; try (vm_compute in HE; discriminate HE).
  assert (Hres : res = Some 0%nat).
  { vm_compute in HE. congruence. }
  subst res.
  assert (HL : queue (example_new []) !! 0%nat = Some AmsResponse_new)
    by (vm_compute; reflexivity).
  destruct (HR _ _ _ _ _ _ HE 0%nat AmsResponse_new HL) as (r' & Hr' & _).
  exists c', r'. split; [reflexivity|]. split; [exact Hr'|]. split.
  - exact (HRstep _ _ _ _ _ _ _ _ _ HE HL Hr').
  - split; [apply Hstep|apply HN].
Defined.

Lemma Write_short_write_releases_witness :
  exists request' c' r',
    Write (H := example_config) (Frame_new 38) example_remote (example_local 30000)
          READ_STATE false
          (AmsConnection_new (H := example_config) (mkSocket [] [] 20)) =
      Done (None, request', c') /\
    queue c' !! 0%nat = Some r' /\ invokeId r' = 0.
Proof.
  destruct (Write_short_write_releases (cfg := example_config)
              (Frame_new 38) example_remote (example_local 30000) READ_STATE
              (AmsConnection_new (H := example_config) (mkSocket [] [] 20))
              0 AmsResponse_new)
    as (request' & c' & r' & H & Hq & Hid & _).
  - by_compute.
  - by_compute.
  - by_compute.
  - by_compute.
  - by_compute.
  - exists request', c', r'. split; [exact H|]. split; [exact Hq|exact Hid].
Defined.

Lemma Recv_reply_delivered_witness :
  exists c' r',
    Recv_body (H := example_config)
      (example_requested 30000 (cut 10 (peer_frame 30000 READ_STATE 4 1 example_payload))) =
      Done c' /\
    queue c' !! 0%nat = Some r' /\
    Frame_data (frame r') = example_payload /\ Wait r' = true.
Proof.
  destruct (Recv_reply_delivered (cfg := example_config)
              (example_requested 30000
                 (cut 10 (peer_frame 30000 READ_STATE 4 1 example_payload)))
              (example_tcp 4) (example_aoe 30000 READ_STATE 4 1) example_payload []
              0 example_slot)
    as (c' & r' & H & _ & _ & Hq & _ & _ & Hw & Hfit & _).
  - repeat split; by_compute.
  - apply accepted_reply_opcodes. by_compute.
  - by_compute.
  - by_compute.
  - exists c', r'. split; [exact H|]. split; [exact Hq|].
    split; [|exact Hw]. apply Hfit. by_compute.
Defined.

Lemma Recv_invokeId_mismatch_witness :
  exists c',
    Recv_body (H := example_config)
      (example_requested 30000 (cut 10 (peer_frame 30000 READ_STATE 4 2 example_payload))) =
      Done c' /\
    rx (socket c') = [] /\
    queue c' !! 0%nat = Some example_slot /\ Wait example_slot = false.
Proof.
  destruct (Recv_invokeId_mismatch (cfg := example_config)
              (example_requested 30000
                 (cut 10 (peer_frame 30000 READ_STATE 4 2 example_payload)))
              (example_tcp 4) (example_aoe 30000 READ_STATE 4 2) example_payload []
              0 example_slot)
    as (c' & H & Hrx & _ & Hq & Hw & _).
  - repeat split; by_compute.
  - by_compute.
  - by_compute.
  - by_compute.
  - exists c'. split; [exact H|]. split; [exact Hrx|]. split; [exact Hq|].
    apply Hw. by_compute.
Defined.

Lemma Recv_unknown_command_witness :
  exists c' r',
    Recv_body (H := example_config)
      (example_requested 30000 (cut 10 (peer_frame 30000 10 4 1 example_payload))) =
      Done c' /\
    queue c' !! 0%nat = Some r' /\
    Frame_data (frame r') = [] /\ Wait r' = true.
Proof.
  destruct (Recv_unknown_command (cfg := example_config)
              (example_requested 30000
                 (cut 10 (peer_frame 30000 10 4 1 example_payload)))
              (example_tcp 4) (example_aoe 30000 10 4 1) example_payload []
              0 example_slot)
    as (c' & r' & H & _ & _ & Hq & Hd & _ & _ & _ & Hw & _).
  - repeat split; by_compute.
  - by_compute.
  - apply accepted_reply_other. by_compute.
  - by_compute.
  - by_compute.
  - exists c', r'. split; [exact H|]. split; [exact Hq|]. split; [exact Hd|exact Hw].
Defined.

Lemma Recv_slot_index_unchecked_witness :
  Recv_body (H := example_config)
    (example_requested 30000 (cut 10 (peer_frame 0 READ_STATE 4 1 example_payload))) =
  Undefined.
Proof.
  apply (Recv_slot_index_unchecked (cfg := example_config)
           (example_requested 30000 (cut 10 (peer_frame 0 READ_STATE 4 1 example_payload)))
           (example_tcp 4) (example_aoe 0 READ_STATE 4 1) example_payload []).
  - repeat split; by_compute.
  - by_compute.
  - left. by_compute.
Defined.

Lemma Recv_notification_witness :
  exists s2 c' d',
    ReceiveNotification (example_aoe 30000 DEVICE_NOTIFICATION 4 0)
      (set_rx s2
         (example_subscribed
            (cut 10 (peer_frame 30000 DEVICE_NOTIFICATION 4 0 example_payload)))) =
      Done (true, c') /\
    objects (store c') !! 0%nat = Some d' /\
    RingBuffer_contents (ring d') = example_payload /\
    dwakeups d' = 1%nat.
Proof.
  destruct (Recv_notification (cfg := example_config)
              (example_subscribed
                 (cut 10 (peer_frame 30000 DEVICE_NOTIFICATION 4 0 example_payload)))
              (example_tcp 4) (example_aoe 30000 DEVICE_NOTIFICATION 4 0)
              example_payload [] 0 example_dispatcher)
    as (s2 & ok & c' & d' & _ & H & _ & _ & _ & _ & Hd & _ & _ & Hfit).
  - repeat split; by_compute.
  - by_compute.
  - by_compute.
  - by_compute.
  - split; by_compute.
  - destruct Hfit as (-> & Hc & _ & _ & _ & _ & Hw & _); [by_compute|].
    exists s2, c', d'. split; [exact H|]. split; [exact Hd|].
    split; [exact Hc|exact Hw].
Defined.

Lemma Reserve_spurious_failure_witness :
  exists request' c',
    Write (H := example_config) (Frame_new 38) example_remote (example_local 30000)
          READ_STATE true (example_new []) = Done (None, request', c') /\
    socket c' = socket (example_new []) /\
    queue c' !! 0%nat = Some AmsResponse_new /\
    invokeId AmsResponse_new = 0.
Proof.
  destruct (Reserve_spurious_failure (cfg := example_config)
              (Frame_new 38) example_remote (example_local 30000) READ_STATE 1
              (example_new []) 0 AmsResponse_new)
    as (_ & request' & c' & H & Hs & _ & Hq & _).
  - by_compute.
  - by_compute.
  - by_compute.
  - exists request', c'. split; [exact H|]. split; [exact Hs|].
    split; [exact Hq|reflexivity].
Defined.

Lemma dispatcher_lookup_or_create_witness :
  exists p c1 c3,
    CreateNotifyMapping (H := example_config) 30000 example_remote 1 2 3 66
                        (example_new []) = Done ((66, p), c1) /\
    CreateNotifyMapping (H := example_config) 30000 example_remote 4 5 6 67 c1 =
      Done ((67, p), c3).
Proof.
  destruct (dispatcher_lookup_or_create (cfg := example_config)) as (Htwice & _ & _).
  destruct (Htwice 30000 example_remote 1 2 3 66 4 5 6 67 (example_new []))
    as (p & c1 & H1 & Hlater).
  - intros k q. vm_compute. discriminate.
  - destruct (Hlater c1 (rtc_refl _ _)) as (c3 & H3).
    exists p, c1, c3. split; [exact H1|exact H3].
Defined.

(** The reply of C1 with a payload one byte longer than the 4096 bytes of
    the slot's frame: the invoke id matches and READ_STATE is an accepted
    opcode, yet the frame of the notified slot is empty and does not hold
    the 4097 bytes the header advertises. *)
Lemma Recv_reply_too_long_frame_empty :
  let payload := replicate 4097 x01 in
  let c := example_requested 30000 [peer_frame 30000 READ_STATE 4097 1 payload] in
  let aoe := example_aoe 30000 READ_STATE 4097 1 in
  AoE_cmdId aoe ∈ reply_opcodes /\
  AoE_length aoe = Z.of_nat (length payload) /\
  (invokeId <$> queue c !! 0%nat) = Some (AoE_invokeId aoe) /\
  (c' ← returned (Recv_body (H := example_config) c);
   r' ← queue c' !! 0%nat;
   Some (Frame_data (frame r'), Frame_size (frame r'), Wait r', rx (socket c'), log c')) =
  Some ([], 0%nat, true, [], [FrameTooLong 4097 4096]) /\
  (c' ← returned (Recv_body (H := example_config) c);
   r' ← queue c' !! 0%nat;
   Some (bool_decide (Frame_data (frame r') = payload))) = Some false.
Proof.
  split; [apply accepted_reply_opcodes|repeat split]; vm_compute; reflexivity.
Qed.

(** A frame with the command id DEVICE_NOTIFICATION is no reply, whatever
    its invoke id: it is taken for a notification, and the slot reserved
    under that invoke id is neither cleared nor notified. *)
Lemma notification_opcode_is_no_reply :
  let c := example_requested 30000
             [peer_frame 30000 DEVICE_NOTIFICATION 4 1 example_payload] in
  let aoe := example_aoe 30000 DEVICE_NOTIFICATION 4 1 in
  accepted_reply (AoE_cmdId aoe) = false /\
  (invokeId <$> queue c !! 0%nat) = Some (AoE_invokeId aoe) /\
  (c' ← returned (Recv_body (H := example_config) c);
   r' ← queue c' !! 0%nat;
   Some (invokeId r', wakeups r', Wait r', rx (socket c'), log c')) =
  Some (1, 0%nat, false, [], [NoDispatcher]).
Proof. repeat split; vm_compute; reflexivity. Qed.

(** The first step of [DispatcherList::Add] is not unlocked: the lookup of
    [Get] is made while the mutex is held once. *)
Lemma DispatcherList_Add_Get_holds_mutex :
  let k := (30000, example_remote) in
  let dl := mkDispatcherList ∅ 0 [] in
  let '(_, dl', _) := DispatcherList_Add (H := example_config) k dl (mkStore ∅ 0) in
  dl_mutex dl = 0%nat /\
  head (dl_trace dl') = Some (Find k, 1%nat) /\
  head (dl_trace dl') <> Some (Find k, 0%nat).
Proof. vm_compute. repeat split; congruence. Qed.

(** ** The end-to-end scenarios of the specification *)

(** Read-state happy path: request with invoke id 1 on port 30000; the peer
    echoes cmdId 4, invoke id 1, length 4 and the payload 01 00 00 00. *)
Example scenario_read_state :
  (c ← returned (Recv_body (H := example_config)
         (example_requested 30000 [peer_frame 30000 READ_STATE 4 1 example_payload]));
   r ← queue c !! 0%nat;
   Some (Wait r, Frame_data (frame r), log c)) =
  Some (true, [x01; x00; x00; x00], []).
Proof. vm_compute. reflexivity. Qed.

(** Mismatched invoke id: the peer replies with invoke id 2 to the request
    with invoke id 1; the reader logs and drains, the caller is not woken,
    and the slot can be released. *)
Example scenario_mismatched_invokeId :
  (c ← returned (Recv_body (H := example_config)
         (example_requested 30000 [peer_frame 30000 READ_STATE 4 2 example_payload]));
   r ← queue c !! 0%nat;
   r' ← queue (Release 0 c) !! 0%nat;
   Some (Wait r, rx (socket c), log c, invokeId r')) =
  Some (false, [], [InvokeIdMismatch 1 2; NoResponsePending], 0).
Proof. vm_compute. reflexivity. Qed.

(** Interleaved notification: a DEVICE_NOTIFICATION arrives between the
    request and its reply; its bytes are in the ring of the dispatcher, which
    is woken once, and the reply is still matched. *)
Example scenario_interleaved_notification :
  let stream := [peer_frame 30000 DEVICE_NOTIFICATION 2 0 [xaa; xbb];
                 peer_frame 30000 READ_STATE 4 1 example_payload] in
  (c0 ← returned (CreateNotifyMapping (H := example_config) 30000 example_remote 1 2 2 66
                    (example_new stream));
   c1 ← returned (Write (H := example_config) (Frame_new 38) example_remote
                    (example_local 30000) READ_STATE false c0.2);
   c2 ← returned (Recv_body (H := example_config) c1.2);
   c3 ← returned (Recv_body (H := example_config) c2);
   d ← objects (store c3) !! 0%nat;
   r ← queue c3 !! 0%nat;
   Some (RingBuffer_contents (ring d), dwakeups d, Wait r, Frame_data (frame r),
         rx (socket c3))) =
  Some ([xaa; xbb], 1%nat, true, [x01; x00; x00; x00], []).
Proof. vm_compute. reflexivity. Qed.

(** Ring overflow: the ring holds 8 bytes and the peer sends a notification
    of 64 bytes; it is dropped with a log entry, the ring is untouched and
    the reader goes on. *)
Example scenario_ring_overflow :
  let c := example_subscribed
             [peer_frame 30000 DEVICE_NOTIFICATION 64 0 (replicate 64 xaa)] in
  (c' ← returned (Recv_body (H := example_config) c);
   d ← objects (store c) !! 0%nat;
   d' ← objects (store c') !! 0%nat;
   Some (BytesFree (ring d), RingBuffer_contents (ring d'), rb_write (ring d'),
         dwakeups d', rx (socket c'), log c')) =
  Some (8%nat, [], 0%nat, 0%nat, [], [RingFull 30000]).
Proof. vm_compute. reflexivity. Qed.

(** Busy port: a second request on the port of an outstanding one gets null,
    and nothing more is sent. *)
Example scenario_busy_port :
  let c := example_requested 30000 [] in
  (w ← returned (Write (H := example_config) (Frame_new 38) example_remote
                   (example_local 30000) READ_STATE false c);
   Some (w.1.1, bool_decide (tx (socket w.2) = tx (socket c)), log w.2)) =
  Some (None, true, [PortInUse 30000 1]).
Proof. vm_compute. reflexivity. Qed.

(** End of the stream: after the last frame the read of the next header
    throws, and the reader leaves its loop. *)
Example scenario_end_of_stream :
  Recv (H := example_config) 2
       (example_requested 30000 [peer_frame 30000 READ_STATE 4 1 example_payload]) =
  Thrown SocketError.
Proof. vm_compute. reflexivity. Qed.

(** ** The further properties at concrete inputs *)

Lemma Recv_frame_too_short_witness :
  exists c',
    Recv_body (H := example_config)
      (example_new [AmsTcpHeader_make 2 ++ [x01; x02]]) = Done c' /\
    rx (socket c') = [] /\
    log c' = [FrameTooShort].
Proof.
  destruct (Recv_frame_too_short (cfg := example_config)
              (example_new [AmsTcpHeader_make 2 ++ [x01; x02]])
              (AmsTcpHeader_make 2) [x01; x02] [])
    as (c' & H & Hrx & Hlog & _).
  - by_compute.
  - by_compute.
  - by_compute.
  - by_compute.
  - exists c'. split; [exact H|]. split; [exact Hrx|exact Hlog].
Defined.

Lemma Recv_notification_without_dispatcher_witness :
  exists c',
    Recv_body (H := example_config)
      (example_new (cut 10 (peer_frame 30000 DEVICE_NOTIFICATION 4 0 example_payload))) =
      Done c' /\
    rx (socket c') = [] /\
    log c' = [NoDispatcher].
Proof.
  destruct (Recv_notification_without_dispatcher (cfg := example_config)
              (example_new (cut 10 (peer_frame 30000 DEVICE_NOTIFICATION 4 0 example_payload)))
              (example_tcp 4) (example_aoe 30000 DEVICE_NOTIFICATION 4 0)
              example_payload [])
    as (s2 & c' & _ & _ & H & Hrx & Hlog & _).
  - repeat split; by_compute.
  - by_compute.
  - by_compute.
  - exists c'. split; [exact H|]. split; [exact Hrx|exact Hlog].
Defined.

Lemma Recv_body_reads_only_witness :
  exists c',
    Recv_body (H := example_config)
      (example_requested 30000 (cut 10 (peer_frame 30000 READ_STATE 4 1 example_payload))) =
      Done c' /\
    tx (socket c') =
      tx (socket (example_requested 30000
                    (cut 10 (peer_frame 30000 READ_STATE 4 1 example_payload)))) /\
    conn_invokeId c' = 2.
Proof.
  destruct (Recv_body (H := example_config)
              (example_requested 30000
                 (cut 10 (peer_frame 30000 READ_STATE 4 1 example_payload))))
    as [c'| | |] eqn:E; try (vm_compute in E; discriminate E).
  destruct (Recv_body_reads_only (cfg := example_config) _ _ E) as (Htx & _ & Hid & _).
  exists c'. split; [reflexivity|]. split; [exact Htx|].
  rewrite Hid. by_compute.
Defined.

Lemma TryRecv_returns_witness :
  TryRecv (H := example_config) 2 (example_new [AmsTcpHeader_make 2 ++ [x01; x02]]) =
  Done SocketError.
Proof.
  destruct (TryRecv_returns (cfg := example_config) 2
              (example_new [AmsTcpHeader_make 2 ++ [x01; x02]]))
    as (n & c' & _ & _ & [(_ & _ & H)|(_ & _ & H)]).
  - apply AmsConnection_new_wf.
  - vm_compute. lia.
  - exact H.
  - vm_compute in H. discriminate H.
Defined.

Lemma reachable_invariant_witness :
  connection_wf (H := example_config) (example_subscribed []) /\
  GetPending (H := example_config) 0 30001 (example_subscribed []) <> Undefined.
Proof.
  destruct (reachable_invariant (cfg := example_config) (mkSocket [] [] 1024)
              (example_subscribed [])) as (Hwf & HG & _).
  - apply rtc_once.
    apply (step_CreateNotifyMapping (H := example_config) 30000 example_remote 1 2 3 66
             (example_new []) (66, 0%nat) (example_subscribed [])).
    vm_compute. reflexivity.
  - split; [exact Hwf|]. apply HG. by_compute.
Defined.


Lemma reachable_dispatchers_keyed_witness :
  exists d,
    objects (store (example_subscribed [])) !! 0%nat = Some d /\
    localPort d = 30000 /\ remoteAddr d = example_remote.
Proof.
  destruct (reachable_dispatchers_keyed (cfg := example_config) (mkSocket [] [] 1024)
              (example_subscribed [])) as (Hk & _).
  - apply rtc_once.
    apply (step_CreateNotifyMapping (H := example_config) 30000 example_remote 1 2 3 66
             (example_new []) (66, 0%nat) (example_subscribed [])).
    vm_compute. reflexivity.
  - apply (Hk (30000, example_remote) 0%nat). vm_compute. reflexivity.
Defined.

Lemma GetInvokeIds_distinct_witness :
  exists ids c',
    GetInvokeIds 3 (example_new []) = Done (ids, c') /\
    length ids = 3%nat /\ NoDup ids.
Proof.
  destruct (GetInvokeIds_distinct 3 (example_new [])) as (ids & c' & H & Hl & Hn & _).
  - by_compute.
  - by_compute.
  - exists ids, c'. split; [exact H|]. split; [exact Hl|exact Hn].
Defined.

Lemma Write_wire_format_witness :
  exists request' c' tcp aoe,
    Write (H := example_config) example_request example_remote (example_local 30000)
          READ_WRITE false (example_new []) = Done (Some 0%nat, request', c') /\
    tx (socket c') = tcp ++ aoe ++ example_payload /\
    AmsTcpHeader_length tcp = 36 /\
    AoE_length aoe = 4 /\
    AoE_cmdId aoe = READ_WRITE /\
    AoE_invokeId aoe = 1.
Proof.
  destruct (Write_wire_format (cfg := example_config) example_request example_remote
              (example_local 30000) READ_WRITE (example_new []) 0 AmsResponse_new)
    as (id & request' & c' & tcp & aoe & H & Htx & _ & _ & _ & Hl & Hal & Hcmd & _ & _ &
        Hid & _ & Hq & _).
  - by_compute.
  - by_compute.
  - by_compute.
  - by_compute.
  - by_compute.
  - by_compute.
  - by_compute.
  - exists request', c', tcp, aoe. split; [exact H|]. split; [exact Htx|].
    split; [exact Hl|]. split; [exact Hal|]. split; [exact Hcmd|].
    rewrite Hid.
    assert (E : returned (Write (H := example_config) example_request example_remote
                            (example_local 30000) READ_WRITE false (example_new [])) =
                Some (Some 0%nat, request', c')) by (rewrite H; reflexivity).
    vm_compute in E. injection E as _ E. subst c'.
    vm_compute in Hq. congruence.
Defined.

Lemma Write_outcome_witness :
  Write (H := example_config) (Frame_new 37) example_remote (example_local 30000)
        READ_STATE false (example_new []) = Thrown BufferTooSmall.
Proof.
  destruct (Write_outcome (cfg := example_config) (Frame_new 37) example_remote
              (example_local 30000) READ_STATE false (example_new []))
    as ((_ & Hthrow) & _).
  - by_compute.
  - by_compute.
  - apply Hthrow. vm_compute. lia.
Defined.

Lemma Write_while_pending_witness :
  exists request2' c'',
    Write (H := example_config) (Frame_new 38) example_remote (example_local 30000)
          WRITE false (example_requested 30000 []) = Done (None, request2', c'') /\
    socket c'' = socket (example_requested 30000 []) /\
    log c'' = [PortInUse 30000 1].
Proof.
  destruct (Write_while_pending (cfg := example_config) (Frame_new 38) (Frame_new 38)
              example_remote example_remote (example_local 30000) (example_local 30000)
              READ_STATE WRITE false false (example_new []) (example_requested 30000 [])
              0 example_request_sent)
    as (r & id & request2' & c'' & Hq & Hr & _ & _ & H & Hs & _ & Hlog).
  - by_compute.
  - by_compute.
  - by_compute.
  - by_compute.
  - reflexivity.
  - vm_compute. reflexivity.
  - exists request2', c''. split; [exact H|]. split; [exact Hs|].
    rewrite Hlog. vm_compute in Hq. injection Hq as <-. rewrite <- Hr. reflexivity.
Defined.

Lemma request_reply_round_trip_witness :
  exists c2 r2 next' c3,
    Recv_body (H := example_config)
      (example_requested 30000 (cut 10 (peer_frame 30000 READ_STATE 4 1 example_payload))) =
      Done c2 /\
    queue c2 !! 0%nat = Some r2 /\
    Frame_data (frame r2) = example_payload /\
    Wait r2 = true /\
    Write (H := example_config) (Frame_new 38) example_remote (example_local 30000)
          WRITE false c2 = Done (Some 0%nat, next', c3).
Proof.
  destruct (request_reply_round_trip (cfg := example_config) (Frame_new 38) (Frame_new 38)
              example_remote (example_local 30000) READ_STATE WRITE false
              (example_new (cut 10 (peer_frame 30000 READ_STATE 4 1 example_payload)))
              (example_requested 30000
                 (cut 10 (peer_frame 30000 READ_STATE 4 1 example_payload)))
              0 example_request_sent
              (example_tcp 4) (example_aoe 30000 READ_STATE 4 1) example_payload [])
    as (c2 & r & r2 & id2 & next' & c3 & HR & _ & Hq & Hd & _ & Hw & _ & _ & _ & HW & _).
  - by_compute.
  - by_compute.
  - by_compute.
  - vm_compute. reflexivity.
  - repeat split; by_compute.
  - by_compute.
  - by_compute.
  - by_compute.
  - intros r Hr. vm_compute in Hr. injection Hr as <-. vm_compute. lia.
  - by_compute.
  - by_compute.
  - by_compute.
  - exists c2, r2, next', c3. split; [exact HR|]. split; [exact Hq|].
    split; [exact Hd|]. split; [exact Hw|exact HW].
Defined.

Lemma Recv_notifications_in_order_witness :
  exists c' d',
    Recv_turns (H := example_config) 2
      (example_subscribed [peer_frame 30000 DEVICE_NOTIFICATION 2 0 [x01; x02];
                           peer_frame 30000 DEVICE_NOTIFICATION 2 0 [x03; x04]]) =
      Done c' /\
    objects (store c') !! 0%nat = Some d' /\
    RingBuffer_contents (ring d') = [x01; x02; x03; x04] /\
    dwakeups d' = 2%nat.
Proof.
  destruct (Recv_notifications_in_order (cfg := example_config) example_notifications
              (example_subscribed [peer_frame 30000 DEVICE_NOTIFICATION 2 0 [x01; x02];
                                   peer_frame 30000 DEVICE_NOTIFICATION 2 0 [x03; x04]])
              [] (30000, example_remote) 0 example_dispatcher)
    as (c' & d' & H & _ & Hd & Hc & Hw & _).
  - exists [peer_frame 30000 DEVICE_NOTIFICATION 2 0 [x03; x04]].
    do 5 (split; [by_compute|]).
    exists []. do 5 (split; [by_compute|]). reflexivity.
  - repeat (constructor; [split; by_compute|]). constructor.
  - by_compute.
  - by_compute.
  - split; by_compute.
  - vm_compute. lia.
  - exists c', d'. split; [exact H|]. split; [exact Hd|].
    split; [exact Hc|exact Hw].
Defined.

Lemma subscription_receives_witness :
  exists p c1 c2 d2,
    CreateNotifyMapping (H := example_config) 30000 example_remote 1 2 3 66
      (example_new (cut 10 (peer_frame 30000 DEVICE_NOTIFICATION 4 0 example_payload))) =
      Done ((66, p), c1) /\
    Recv_body (H := example_config) c1 = Done c2 /\
    objects (store c2) !! p = Some d2 /\
    RingBuffer_contents (ring d2) = example_payload /\
    subscriptions d2 !! 66 = Some (mkSubscription 1 2 3).
Proof.
  destruct (subscription_receives (cfg := example_config) 30000 example_remote 1 2 3 66
              (example_new (cut 10 (peer_frame 30000 DEVICE_NOTIFICATION 4 0 example_payload)))
              (example_tcp 4) (example_aoe 30000 DEVICE_NOTIFICATION 4 0) example_payload [])
    as (p & c1 & d1 & HC & _ & Hd1 & _ & _ & Hnew & Hsock & _ & Hrecv).
  - apply AmsConnection_new_wf.
  - destruct Hnew as (Hring & _); [by_compute|].
    destruct Hrecv as (c2 & d2 & HR & _ & Hd2 & Hcont & _ & Hsub).
    + unfold frame_arrives. rewrite Hsock. repeat split; by_compute.
    + by_compute.
    + by_compute.
    + by_compute.
    + rewrite Hring. vm_compute. lia.
    + exists p, c1, c2, d2. split; [exact HC|]. split; [exact HR|].
      split; [exact Hd2|]. split; [|exact Hsub].
      rewrite Hcont, Hring. reflexivity.
Defined.

Lemma DeleteNotification_request_fits_witness :
  exists request,
    DeleteNotification_request 66 = Done request /\
    Frame_data request = [x42; x00; x00; x00] /\
    Write (H := example_config) request example_remote (example_local 30000)
          DEL_DEVICE_NOTIFICATION false (example_new []) <> Thrown BufferTooSmall.
Proof.
  destruct (DeleteNotification_request_fits (cfg := example_config) 66 example_remote
              (example_local 30000) false (example_new []))
    as (request & H & Hd & _ & _ & Hno & _).
  - by_compute.
  - exists request. split; [exact H|]. split; [exact Hd|exact Hno].
Defined.

Lemma Release_frees_port_witness :
  exists r',
    queue_at (H := example_config) (queue (Release 0 (example_requested 30000 []))) 30000 =
      Some (0%nat, r') /\
    invokeId r' = 0 /\
    Frame_data (frame r') = [].
Proof.
  destruct (Release_frees_port (cfg := example_config) 30000 5
              (example_requested 30000 []) 0 example_slot)
    as (r' & Hq & Hid & _ & _ & _ & Hd & _).
  - by_compute.
  - exists r'. split; [exact Hq|]. split; [exact Hid|exact Hd].
Defined.
